(** * Strategy decisions, deal ledger and performance metrics of the fund simulator

    A shallow embedding of the decision-and-valuation core of the repository:
    - [strategies.py]   : [get_current_position], the three [apply_*_strategy]
                          policies and [store_deals];
    - [performances.py] : [get_portfolio_positions], the valuation of a
                          portfolio, [get_weekly_returns] and
                          [calculate_performance_metrics];
    - [database_manager.py] : the tables [Products], [Deals] and [Returns].

    Conventions of the embedding.
    - A table is the list of its rows in rowid order; the AUTOINCREMENT [id] of
      [Deals] and [Returns] is the position in that list and is not stored.
    - SQLite INTEGER values and Python ints are [Z].
    - Dates are the ['YYYY-MM-DD'] strings the code stores and compares; SQLite
      compares TEXT bytewise, which is [String.leb].
    - In the strategies a float64 is an exact rational extended with NaN and
      the two infinities ([Float.float64]); rounding is not modelled.  In the
      performance engine a float64 is a real number. *)

From Stdlib Require Import ZArith List String Ascii Bool Lia Permutation Sorted.
From Stdlib Require Import QArith Qround Lqa.
From Stdlib Require Import Reals Lra.
Import ListNotations.
Local Open Scope Z_scope.

(** ** The tables of [database_manager.create_tables] *)

Module Schema.

(** [type_operation TEXT CHECK(type_operation IN ('achat', 'vente'))] *)
Inductive operation : Type := achat | vente.

(** [type TEXT CHECK(type IN ('Stock', 'Bond', 'ETF'))] *)
Inductive asset_type : Type := Stock | Bond | ETF.

Record product : Type := mk_product {
  p_id : Z;
  ticker : string;
  p_type : asset_type
}.

Record deal : Type := mk_deal {
  portefeuille_id : Z;
  produit_id : Z;
  type_operation : operation;
  quantite : Z;
  date : string;
  volatilite_periode : option Q;
  rendement_periode : option Q
}.

Record return_row : Type := mk_return_row {
  product_id : Z;
  r_date : string;
  r_return : Q;
  volatilite : option Q
}.

Record database : Type := mk_database {
  Products : list product;
  Deals : list deal;
  Returns : list return_row
}.

Definition operation_eqb (a b : operation) : bool :=
  match a, b with
  | achat, achat | vente, vente => true
  | _, _ => false
  end.

Definition with_deals (db : database) (ds : list deal) : database :=
  mk_database (Products db) ds (Returns db).

End Schema.
Import Schema.

(** ** A few SQL operators *)

Module Sql.

(** [SUM(...)]: NULL over no row. *)
Definition sum (xs : list Z) : option Z :=
  match xs with
  | [] => None
  | _ :: _ => Some (fold_right Z.add 0 xs)
  end.

(** [COALESCE(x, d)] *)
Definition coalesce (x : option Z) (d : Z) : Z :=
  match x with
  | Some v => v
  | None => d
  end.

(** [COUNT( * )] *)
Definition count {A : Type} (rows : list A) : Z := Z.of_nat (List.length rows).

(** Stable insertion sort, for [ORDER BY] on one key. *)
Section OrderBy.
Context {A : Type} (le : A -> A -> bool).

Fixpoint insert_sorted (x : A) (l : list A) : list A :=
  match l with
  | [] => [x]
  | y :: l' => if le x y then x :: y :: l' else y :: insert_sorted x l'
  end.

Definition order_by (l : list A) : list A :=
  fold_right insert_sorted [] l.
End OrderBy.

(** The keys of a [GROUP BY] on a TEXT column: each value once, ascending. *)
Fixpoint insert_key (k : string) (l : list string) : list string :=
  match l with
  | [] => [k]
  | y :: l' =>
      if String.eqb k y then l
      else if String.ltb k y then k :: l
      else y :: insert_key k l'
  end.

Definition group_keys (ks : list string) : list string :=
  fold_right insert_key [] ks.

End Sql.

(** ** The position ledger *)

Module Ledger.

(** [CASE WHEN type_operation = 'achat' THEN quantite
          WHEN type_operation = 'vente' THEN -quantite END] *)
Definition case_delta (d : deal) : Z :=
  match type_operation d with
  | achat => quantite d
  | vente => - quantite d
  end.

(** [CASE WHEN d.type_operation = 'achat' THEN d.quantite ELSE -d.quantite END] *)
Definition else_delta (d : deal) : Z :=
  match type_operation d with
  | achat => quantite d
  | _ => - quantite d
  end.

(** The rows of [Deals d JOIN Products p ON d.produit_id = p.id] kept by
    the WHERE clause of [get_current_position]. *)
Definition position_rows (db : database) (portfolio_id : Z)
    (tk : string) (dt : string) : list deal :=
  flat_map (fun d =>
    flat_map (fun p =>
      if (produit_id d =? p_id p)
         && (portefeuille_id d =? portfolio_id)
         && String.eqb (ticker p) tk
         && String.leb (date d) dt
      then [d] else [])
      (Products db))
    (Deals db).

(** [InvestmentStrategies.get_current_position] *)
Definition get_current_position (db : database) (portfolio_id : Z)
    (tk : string) (dt : string) : Z :=
  Sql.coalesce (Sql.sum (map case_delta (position_rows db portfolio_id tk dt))) 0.

(** A row of the CTE [DailyPositions]. *)
Record daily_position : Type := mk_daily_position {
  dp_produit_id : Z;
  dp_ticker : string;
  dp_type : asset_type;
  dp_date : string;
  dp_type_operation : operation;
  dp_quantite : Z;
  running_position : Z
}.

(** [FROM Deals d JOIN Products pr ON d.produit_id = pr.id
     WHERE d.portefeuille_id = ? AND d.date <= ?] *)
Definition joined (db : database) (portfolio_id : Z) (dt : string)
    : list (deal * product) :=
  flat_map (fun d =>
    flat_map (fun pr =>
      if (produit_id d =? p_id pr)
         && (portefeuille_id d =? portfolio_id)
         && String.leb (date d) dt
      then [(d, pr)] else [])
      (Products db))
    (Deals db).

(** [SUM(...) OVER (PARTITION BY d.produit_id ORDER BY d.date)]: the frame
    of a row is the default one, every row of its partition whose date is
    not after its own (peers included). *)
Definition window_sum (rows : list (deal * product)) (r : deal * product) : Z :=
  fold_right Z.add 0
    (map (fun r' => else_delta (fst r'))
       (filter (fun r' =>
                  (produit_id (fst r') =? produit_id (fst r))
                  && String.leb (date (fst r')) (date (fst r)))
          rows)).

Definition DailyPositions (db : database) (portfolio_id : Z) (dt : string)
    : list daily_position :=
  let rows := joined db portfolio_id dt in
  Sql.order_by (fun a b => String.leb (dp_date a) (dp_date b))
    (map (fun r =>
            mk_daily_position (produit_id (fst r)) (ticker (snd r))
              (p_type (snd r)) (date (fst r)) (type_operation (fst r))
              (quantite (fst r)) (window_sum rows r))
       rows).

(** The outer query
    [SELECT ticker, type, running_position as position FROM DailyPositions
     WHERE date <= ? GROUP BY ticker HAVING running_position > 0].
    [ticker] is the only grouped column: [type] and [running_position] are
    bare columns, which SQLite reads from one row of each group, and HAVING
    is evaluated on that row too.  Which row is the engine's choice,
    [bare_row]; the groups come out in ascending ticker order. *)
Definition positions_query
    (bare_row : list daily_position -> option daily_position)
    (db : database) (portfolio_id : Z) (dt : string)
    : list (string * asset_type * Z) :=
  let rows :=
    filter (fun r => String.leb (dp_date r) dt)
      (DailyPositions db portfolio_id dt) in
  flat_map (fun k =>
    match bare_row (filter (fun r => String.eqb (dp_ticker r) k) rows) with
    | Some r =>
        if 0 <? running_position r
        then [(dp_ticker r, dp_type r, running_position r)]
        else []
    | None => []
    end)
    (Sql.group_keys (map dp_ticker rows)).

(** SQLite (observed on 3.40) keeps the bare columns of the first row of
    each group, here the row of the earliest date. *)
Definition first_row (g : list daily_position) : option daily_position :=
  hd_error g.

(** An engine keeping the last row of each group instead. *)
Definition last_row (g : list daily_position) : option daily_position :=
  hd_error (rev g).

(** [PortfolioAnalyzer.get_portfolio_positions] *)
Definition get_portfolio_positions (db : database) (portfolio_id : Z)
    (dt : string) : list (string * asset_type * Z) :=
  positions_query first_row db portfolio_id dt.

End Ledger.


(** ** Python exceptions and float64 values *)

Module Py.

Inductive exception : Type :=
| OverflowError   (* int() of an infinity *)
| ValueError      (* int() of NaN, an unparseable date *)
| TypeError.      (* subscripting None *)

Inductive result (A : Type) : Type :=
| Ok (a : A)
| Raise (e : exception).
Arguments Ok {A} a.
Arguments Raise {A} e.

Definition bind {A B : Type} (r : result A) (k : A -> result B) : result B :=
  match r with
  | Ok a => k a
  | Raise e => Raise e
  end.

Notation "x <- c ;; k" := (bind c (fun x => k))
  (at level 61, c at next level, right associativity).

End Py.
Import Py.

Module Float.

(** A float64: NaN, the infinities, or a finite value taken as the exact
    rational.  Zero has no sign. *)
Inductive float64 : Type :=
| NaN
| PInf
| NInf
| Fin (q : Q).

Definition of_Z (z : Z) : float64 := Fin (inject_Z z).

Definition Qltb (x y : Q) : bool :=
  Qnum x * QDen y <? Qnum y * QDen x.

Definition Qis_zero (x : Q) : bool := Qnum x =? 0.

(** [a < b]; any comparison with NaN is False. *)
Definition ltb (a b : float64) : bool :=
  match a, b with
  | NaN, _ | _, NaN => false
  | NInf, NInf => false
  | NInf, _ => true
  | _, NInf => false
  | PInf, _ => false
  | _, PInf => true
  | Fin x, Fin y => Qltb x y
  end.

(** [a > b] *)
Definition gtb (a b : float64) : bool := ltb b a.

Definition sign (a : float64) : Z :=
  match a with
  | NaN => 0
  | PInf => 1
  | NInf => -1
  | Fin x => Z.sgn (Qnum x)
  end.

Definition inf_of_sign (s : Z) : float64 :=
  if 0 <? s then PInf else if s <? 0 then NInf else NaN.

(** [a * b] *)
Definition mul (a b : float64) : float64 :=
  match a, b with
  | NaN, _ | _, NaN => NaN
  | Fin x, Fin y => Fin (x * y)
  | _, _ => inf_of_sign (sign a * sign b)
  end.

(** [a / b] on numpy scalars: a zero divisor gives an infinity (or NaN for
    0/0) and a warning, never an exception. *)
Definition div (a b : float64) : float64 :=
  match a, b with
  | NaN, _ | _, NaN => NaN
  | Fin x, Fin y => if Qis_zero y then inf_of_sign (sign a) else Fin (x / y)
  | Fin _, _ => Fin 0
  | _, Fin y => if Qis_zero y then a else inf_of_sign (sign a * sign b)
  | _, _ => NaN
  end.

(** Truncation toward zero. *)
Definition Qtrunc (x : Q) : Z := Z.quot (Qnum x) (QDen x).

(** [int(a)] *)
Definition int (a : float64) : result Z :=
  match a with
  | NaN => Raise ValueError
  | PInf | NInf => Raise OverflowError
  | Fin x => Ok (Qtrunc x)
  end.

End Float.

(** ** The strategy policies of [strategies.py] *)

Module Strategies.
Import Float.

(** What a policy reads of a ticker's frame [df] of [get_market_data]; the
    pandas reductions themselves are outside the embedding. *)
Record DataFrame : Type := mk_DataFrame {
  has_Returns : bool;     (* 'Returns' in df.columns *)
  empty : bool;           (* df.empty *)
  returns_5d : float64;   (* df['Returns'].head(5).mean() *)
  returns_10d : float64;  (* df['Returns'].head(10).mean() *)
  returns_20d : float64;  (* df['Returns'].head(20).mean() *)
  returns_30d : float64;  (* df['Returns'].head(30).mean() *)
  volatility : float64    (* df['Returns'].head(30).std() * np.sqrt(252) *)
}.

(** The dict [market_data], in insertion order. *)
Definition market_data : Type := list (string * DataFrame).

(** A decision [(portfolio_id, ticker, type_operation, quantity)]. *)
Definition decision : Type := (Z * string * operation * Z)%type.

Definition d_portfolio (d : decision) : Z := fst (fst (fst d)).
Definition d_ticker (d : decision) : string := snd (fst (fst d)).
Definition d_operation (d : decision) : operation := snd (fst d).
Definition d_quantity (d : decision) : Z := snd d.

(** [self.target_volatility = 0.10] *)
Definition target_volatility : float64 := Fin (1 # 10).

(** [for ticker, df in data.items(): ...] with [decisions.append] in the
    body; an exception leaves the loop and the function. *)
Fixpoint for_items (body : string -> DataFrame -> result (list decision))
    (data : market_data) : result (list decision) :=
  match data with
  | [] => Ok []
  | (tk, df) :: rest =>
      ds <- body tk df ;;
      ds' <- for_items body rest ;;
      Ok (ds ++ ds')
  end.

(** [SELECT type FROM Products WHERE ticker = ?] then [.fetchone()[0]] *)
Definition fetch_type (db : database) (tk : string) : result asset_type :=
  match find (fun p => String.eqb (ticker p) tk) (Products db) with
  | Some p => Ok (p_type p)
  | None => Raise TypeError
  end.

Definition is_Stock (t : asset_type) : bool :=
  match t with Stock => true | _ => false end.
Definition is_Bond (t : asset_type) : bool :=
  match t with Bond => true | _ => false end.

(** The sizing lines of the buy branch of the Low risk policy. *)
Definition low_risk_position_size (vol : float64) : result Z :=
  position_size <- int (div (of_Z 10000) (mul vol (of_Z 100))) ;;
  Ok (Z.max 5 (Z.min 20 position_size)).

(** The body of the second loop of [apply_low_risk_strategy]. *)
Definition low_risk_body (db : database) (portfolio_id : Z) (dt : string)
    (tk : string) (df : DataFrame) : result (list decision) :=
  if negb (has_Returns df) || empty df then Ok []
  else
    let current_position :=
      Ledger.get_current_position db portfolio_id tk dt in
    asset_type <- fetch_type db tk ;;
    if 0 <? current_position then
      if (ltb (returns_30d df) (Fin (-2 # 100)) && is_Stock asset_type)
         || (ltb (returns_30d df) (Fin (-1 # 100)) && is_Bond asset_type)
         || gtb (volatility df) (mul target_volatility (Fin (15 # 10)))
      then
        scaled <- int (mul (of_Z current_position) (Fin (25 # 100))) ;;
        let quantity := Z.min current_position (Z.max 5 scaled) in
        Ok [(portfolio_id, tk, vente, quantity)]
      else Ok []
    else
      if gtb (returns_10d df) (of_Z 0)
         && gtb (returns_30d df) (of_Z 0)
         && ltb (volatility df) (mul target_volatility (Fin (12 # 10)))
      then
        position_size <- low_risk_position_size (volatility df) ;;
        Ok [(portfolio_id, tk, achat, position_size)]
      else Ok [].

(** [InvestmentStrategies.apply_low_risk_strategy].  The first loop and
    [calculate_portfolio_volatility] only compute [portfolio_vol], which
    nothing reads. *)
Definition apply_low_risk_strategy (db : database) (data : market_data)
    (portfolio_id : Z) (dt : string) : result (list decision) :=
  for_items (low_risk_body db portfolio_id dt) data.

(** The sizing lines of the buy branch of the High yield policy, with
    [max_position_size = 25]. *)
Definition max_position_size : Z := 25.

Definition high_yield_position_size (vol : float64) : result Z :=
  position_size <- int (div (of_Z 15000) (mul vol (of_Z 100))) ;;
  Ok (Z.max 5 (Z.min max_position_size position_size)).

(** The loop body of [apply_high_yield_strategy]. *)
Definition high_yield_body (db : database) (portfolio_id : Z) (dt : string)
    (tk : string) (df : DataFrame) : result (list decision) :=
  if negb (has_Returns df) || empty df then Ok []
  else
    let current_position :=
      Ledger.get_current_position db portfolio_id tk dt in
    if 0 <? current_position then
      if ltb (returns_30d df) (Fin (-7 # 100))
         || (ltb (returns_5d df) (of_Z 0)
             && ltb (returns_10d df) (of_Z 0)
             && ltb (returns_30d df) (of_Z 0))
      then
        scaled <- int (mul (of_Z current_position) (Fin (75 # 100))) ;;
        let quantity := Z.min current_position (Z.max 5 scaled) in
        Ok [(portfolio_id, tk, vente, quantity)]
      else Ok []
    else
      if gtb (returns_5d df) (of_Z 0)
         && gtb (returns_10d df) (of_Z 0)
         && gtb (returns_30d df) (of_Z 0)
         && ltb (volatility df) (Fin (40 # 100))
      then
        position_size <- high_yield_position_size (volatility df) ;;
        Ok [(portfolio_id, tk, achat, position_size)]
      else Ok [].

(** [InvestmentStrategies.apply_high_yield_strategy] *)
Definition apply_high_yield_strategy (db : database) (data : market_data)
    (portfolio_id : Z) (dt : string) : result (list decision) :=
  for_items (high_yield_body db portfolio_id dt) data.

(** Decimal digits, for the date strings. *)
Definition digit (c : ascii) : option Z :=
  let n := Z.of_N (N_of_ascii c) in
  if (48 <=? n) && (n <=? 57) then Some (n - 48) else None.

Definition number (cs : list ascii) : option Z :=
  fold_left (fun acc c =>
               match acc, digit c with
               | Some n, Some d => Some (10 * n + d)
               | _, _ => None
               end) cs (Some 0).

Definition is_leap (y : Z) : bool :=
  ((y mod 4 =? 0) && negb (y mod 100 =? 0)) || (y mod 400 =? 0).

Definition days_in_month (y m : Z) : Z :=
  if m =? 2 then (if is_leap y then 29 else 28)
  else if (m =? 4) || (m =? 6) || (m =? 9) || (m =? 11) then 30
  else 31.

Definition dash : ascii := "-"%char.

(** [pd.to_datetime(date)] on the ['YYYY-MM-DD'] strings the callers build
    with [strftime]: the calendar date (year, month, day), for the years a
    Timestamp can hold in full.  Any other string is rejected here. *)
Definition to_datetime (s : string) : result (Z * Z * Z) :=
  match list_ascii_of_string s with
  | [y1; y2; y3; y4; s1; m1; m2; s2; d1; d2] =>
      match number [y1; y2; y3; y4], number [m1; m2], number [d1; d2] with
      | Some y, Some m, Some d =>
          if Ascii.eqb s1 dash && Ascii.eqb s2 dash
             && (1678 <=? y) && (y <=? 2261)
             && (1 <=? m) && (m <=? 12)
             && (1 <=? d) && (d <=? days_in_month y m)
          then Ok (y, m, d)
          else Raise ValueError
      | _, _, _ => Raise ValueError
      end
  | _ => Raise ValueError
  end.

(** [SELECT COUNT( * ) FROM Deals WHERE portefeuille_id = ? AND date = ?] *)
Definition trades_this_week (db : database) (portfolio_id : Z) (dt : string) : Z :=
  Sql.count
    (filter (fun d => (portefeuille_id d =? portfolio_id) && String.eqb (date d) dt)
       (Deals db)).

(** The loop of [apply_low_turnover_strategy], which [break]s after its
    first decision.  [draw] is the value of [random.randint(15, 25)], called
    at most once, on the iteration that ends the loop. *)
Fixpoint low_turnover_scan (draw : Z) (db : database) (portfolio_id : Z)
    (dt : string) (data : market_data) : list decision :=
  match data with
  | [] => []
  | (tk, df) :: rest =>
      if negb (has_Returns df) || empty df
      then low_turnover_scan draw db portfolio_id dt rest
      else
        let current_position :=
          Ledger.get_current_position db portfolio_id tk dt in
        if 0 <? current_position then
          if ltb (returns_5d df) (mul (returns_20d df) (Fin (90 # 100)))
          then [(portfolio_id, tk, vente, Z.min current_position draw)]
          else low_turnover_scan draw db portfolio_id dt rest
        else
          if gtb (returns_5d df) (mul (returns_20d df) (Fin (110 # 100)))
          then [(portfolio_id, tk, achat, draw)]
          else low_turnover_scan draw db portfolio_id dt rest
  end.

(** [week_number = (current_date.day - 1) // 7 + 1] *)
Definition week_number (day : Z) : Z := (day - 1) / 7 + 1.

(** [InvestmentStrategies.apply_low_turnover_strategy] *)
Definition apply_low_turnover_strategy (draw : Z) (db : database)
    (data : market_data) (portfolio_id : Z) (dt : string)
    : result (list decision) :=
  current_date <- to_datetime dt ;;
  let is_trading_week :=
    existsb (Z.eqb (week_number (snd current_date))) [1; 3] in
  if negb is_trading_week then Ok []
  else if 0 <? trades_this_week db portfolio_id dt then Ok []
  else Ok (low_turnover_scan draw db portfolio_id dt data).

(** The dispatch of [InvestmentStrategies.apply_strategy] on the risk
    profile.  [data] is what [get_market_data] loads for the tickers of
    [get_products_by_strategy]; no ticker or no frame returns [[]] before
    any policy runs. *)
Definition apply_strategy (draw : Z) (db : database) (data : market_data)
    (strategy : string) (portfolio_id : Z) (dt : string)
    : result (list decision) :=
  match data with
  | [] => Ok []
  | _ :: _ =>
      if String.eqb strategy "Low risk"
      then apply_low_risk_strategy db data portfolio_id dt
      else if String.eqb strategy "Low turnover"
      then apply_low_turnover_strategy draw db data portfolio_id dt
      else if String.eqb strategy "High yield equity"
      then apply_high_yield_strategy db data portfolio_id dt
      else Ok []
  end.

(** *** [store_deals] *)

(** [SELECT id FROM Products WHERE ticker = ?] then [.fetchone()] *)
Definition fetch_produit_id (db : database) (tk : string) : option Z :=
  option_map p_id (find (fun p => String.eqb (ticker p) tk) (Products db)).

(** [SELECT COUNT( * ) FROM Deals WHERE portefeuille_id = ? AND produit_id = ?
     AND date = ? AND type_operation = ?] *)
Definition same_key (portfolio_id produit : Z) (dt : string)
    (op : operation) (d : deal) : bool :=
  (portefeuille_id d =? portfolio_id) && (produit_id d =? produit)
  && String.eqb (date d) dt && operation_eqb (type_operation d) op.

Definition existing (db : database) (portfolio_id produit : Z) (dt : string)
    (op : operation) : Z :=
  Sql.count (filter (same_key portfolio_id produit dt op) (Deals db)).

(** [SELECT return, volatilite FROM Returns WHERE product_id = ? AND date <= ?
     ORDER BY date DESC LIMIT 20] *)
Definition trailing_returns (db : database) (produit : Z) (dt : string)
    : list return_row :=
  firstn 20
    (Sql.order_by (fun a b => String.leb (r_date b) (r_date a))
       (filter (fun r => (product_id r =? produit) && String.leb (r_date r) dt)
          (Returns db))).

(** [Series.mean()]: NULLs are skipped, and the mean of nothing is NaN,
    which SQLite stores as NULL. *)
Definition mean (xs : list (option Q)) : option Q :=
  let vs := flat_map (fun x => match x with Some v => [v] | None => [] end) xs in
  match vs with
  | [] => None
  | _ :: _ => Some (fold_right Qplus 0%Q vs / inject_Z (Z.of_nat (List.length vs)))%Q
  end.

(** One iteration of the loop of [store_deals]. *)
Definition store_deal (dt : string) (db : database) (d : decision) : database :=
  let '(portfolio_id, tk, type_operation, quantite) := d in
  match fetch_produit_id db tk with
  | None => db
  | Some produit =>
      if existing db portfolio_id produit dt type_operation =? 0 then
        let df := trailing_returns db produit dt in
        let volatilite_periode := mean (map volatilite df) in
        let rendement_periode := mean (map (fun r => Some (r_return r)) df) in
        with_deals db
          (Deals db ++ [mk_deal portfolio_id produit type_operation quantite dt
                          volatilite_periode rendement_periode])
      else db
  end.

(** [InvestmentStrategies.store_deals] *)
Definition store_deals (db : database) (deals : list decision) (dt : string)
    : database :=
  fold_left (store_deal dt) deals db.

End Strategies.

(** ** The valuator and the performance engine of [performances.py] *)

Module Performance.
Local Open Scope R_scope.

(** [get_asset_price_and_return(ticker, date)]: the latest row of the
    ticker's price table not after [date], as [(price, daily_return)], a
    NULL return read as 0; [None] stands for [(None, None)].  The price
    tables are outside the embedding. *)
Definition market : Type := string -> string -> option (R * R).

(** [PortfolioAnalyzer.get_portfolio_value_and_return] *)
Definition get_portfolio_value_and_return (mk : market) (db : database)
    (portfolio_id : Z) (dt : string) : R * R :=
  match Ledger.get_portfolio_positions db portfolio_id dt with
  | [] => (0, 0)
  | positions =>
      let '(total_value, weighted_return) :=
        fold_left (fun acc position =>
                     let '(tk, _, quantity) := position in
                     match mk tk dt with
                     | Some (price, daily_return) =>
                         let position_value := price * IZR quantity in
                         (fst acc + position_value,
                          snd acc + position_value * daily_return)
                     | None => acc
                     end)
          positions (0, 0) in
      (total_value,
       if Rlt_dec 0 total_value then weighted_return / total_value else 0)
  end.

(** [np.clip(x, lo, hi)] *)
Definition clip (x lo hi : R) : R := Rmin (Rmax x lo) hi.

(** A row of the frame [get_weekly_returns] builds. *)
Record weekly_return : Type := mk_weekly_return {
  wr_date : string;
  wr_return : R;
  wr_value : R
}.

(** The loop of [get_weekly_returns] over the Mondays, threading
    [previous_value]. *)
Fixpoint weekly_loop (value_at : string -> R) (previous_value : option R)
    (mondays : list string) : list weekly_return :=
  match mondays with
  | [] => []
  | monday :: rest =>
      let value := value_at monday in
      let appended :=
        match previous_value with
        | Some previous =>
            if Rlt_dec 0 previous
            then [mk_weekly_return monday
                    (clip (value / previous - 1) (- (10 / 100)) (10 / 100))
                    value]
            else []
        | None => []
        end in
      appended
        ++ weekly_loop value_at
             (if Rlt_dec 0 value then Some value else previous_value) rest
  end.

(** [PortfolioAnalyzer.get_weekly_returns]; [mondays] is the list
    [get_mondays_between_dates(start_date, end_date)] returns. *)
Definition get_weekly_returns (mk : market) (db : database)
    (portfolio_id : Z) (mondays : list string) : list weekly_return :=
  weekly_loop (fun monday => fst (get_portfolio_value_and_return mk db portfolio_id monday))
    None mondays.

(** The dict [calculate_performance_metrics] returns. *)
Record metrics : Type := mk_metrics {
  rendement_total : R;
  rendement_annualise : R;
  volatilite_annualisee : R;
  ratio_sharpe : R;
  drawdown_max : R;
  valeur_finale : R;
  nb_semaines_positives : Z;
  weekly_returns : list weekly_return
}.

(** [self.risk_free_rate = 0.02] *)
Definition risk_free_rate : R := 2 / 100.

(** [Series.prod()] *)
Definition prod (xs : list R) : R := fold_left Rmult xs 1.

(** [Series.sum()] and [Series.mean()] *)
Definition total (xs : list R) : R := fold_left Rplus xs 0.
Definition mean (xs : list R) : R := total xs / INR (List.length xs).

(** [Series.std()], the sample deviation (one degree of freedom removed);
    NaN, here [None], on fewer than two values. *)
Definition std (xs : list R) : option R :=
  if (List.length xs <? 2)%nat then None
  else
    let m := mean xs in
    Some (sqrt (total (map (fun x => (x - m) * (x - m)) xs)
                / (INR (List.length xs) - 1))).

(** [Series.cumprod()] and [Series.expanding().max()] *)
Fixpoint cumprod_from (acc : R) (xs : list R) : list R :=
  match xs with
  | [] => []
  | x :: rest => (acc * x) :: cumprod_from (acc * x) rest
  end.
Definition cumprod (xs : list R) : list R := cumprod_from 1 xs.

Fixpoint expanding_max_from (acc : R) (xs : list R) : list R :=
  match xs with
  | [] => []
  | x :: rest => Rmax acc x :: expanding_max_from (Rmax acc x) rest
  end.
Definition expanding_max (xs : list R) : list R :=
  match xs with
  | [] => []
  | x :: rest => x :: expanding_max_from x rest
  end.

(** [Series.min()] of a frame that is not empty. *)
Definition minimum (xs : list R) : R :=
  match xs with
  | [] => 0
  | x :: rest => fold_left Rmin rest x
  end.

Definition zero_metrics : metrics :=
  mk_metrics 0 0 0 0 0 0 0%Z [].

(** The body of [calculate_performance_metrics] once [weekly_returns] is
    computed.  [x ** y] is [Rpower x y]; its base is positive here. *)
Definition metrics_of (weekly : list weekly_return) : metrics :=
  if (List.length weekly <? 2)%nat then zero_metrics
  else
    let returns := map wr_return weekly in
    let rendement_total := prod (map (fun r => 1 + r) returns) - 1 in
    let nb_weeks := INR (List.length weekly) in
    let rendement_annualise :=
      Rpower (1 + rendement_total) (52 / nb_weeks) - 1 in
    let volatilite_annualisee :=
      match std returns with
      | Some volatilite_hebdo => volatilite_hebdo * sqrt 52
      | None => 0
      end in
    let excess_return := rendement_annualise - risk_free_rate in
    let ratio_sharpe :=
      if Req_dec_T volatilite_annualisee 0 then 0
      else excess_return / volatilite_annualisee in
    let cumulative_returns := cumprod (map (fun r => 1 + r) returns) in
    let rolling_max := expanding_max cumulative_returns in
    let drawdowns :=
      map (fun cm => fst cm / snd cm - 1) (combine cumulative_returns rolling_max) in
    mk_metrics rendement_total rendement_annualise volatilite_annualisee
      ratio_sharpe (minimum drawdowns)
      (last (map wr_value weekly) 0)
      (Z.of_nat (List.length (filter (fun r => if Rlt_dec 0 r then true else false) returns)))
      weekly.

(** [PortfolioAnalyzer.calculate_performance_metrics] *)
Definition calculate_performance_metrics (mk : market) (db : database)
    (portfolio_id : Z) (mondays : list string) : metrics :=
  metrics_of (get_weekly_returns mk db portfolio_id mondays).

End Performance.


(** ** Notions the properties are stated with *)

Module Spec.
Import Ledger Float Strategies.

Definition total (xs : list Z) : Z := fold_right Z.add 0 xs.

Definition is_achat (d : deal) : bool := operation_eqb (type_operation d) achat.
Definition is_vente (d : deal) : bool := operation_eqb (type_operation d) vente.

(** The join condition of [get_current_position] for one deal and one
    product. *)
Definition matches (d : deal) (pid : Z) (tk dt : string) (p : product) : bool :=
  (produit_id d =? p_id p) && (portefeuille_id d =? pid)
  && String.eqb (ticker p) tk && String.leb (date d) dt.

(** [id INTEGER PRIMARY KEY] of [Products]: no two products share an id. *)
Definition distinct_ids (db : database) : Prop :=
  NoDup (map p_id (Products db)).

(** The signed quantity a decision adds to the position once recorded. *)
Definition decision_delta (d : decision) : Z :=
  match d_operation d with
  | achat => d_quantity d
  | vente => - d_quantity d
  end.

(** A decision for portfolio [pid] that the ledger [db] can absorb on
    [dt]: a positive quantity, and for a Sell no more than what is held. *)
Definition safe_decision (db : database) (pid : Z) (dt : string)
    (d : decision) : Prop :=
  d_portfolio d = pid
  /\ 0 < d_quantity d
  /\ (d_operation d = vente ->
      d_quantity d <= get_current_position db pid (d_ticker d) dt).

(** What one loop iteration on ticker [tk] may append. *)
Definition body_output (db : database) (pid : Z) (dt tk : string)
    (ds : list decision) : Prop :=
  Forall (safe_decision db pid dt) ds
  /\ (forall d, In d ds -> d_ticker d = tk)
  /\ (List.length ds <= 1)%nat.

(** What a whole policy run over the dict [data] may return. *)
Definition policy_output (db : database) (pid : Z) (dt : string)
    (data : market_data) (ds : list decision) : Prop :=
  Forall (safe_decision db pid dt) ds
  /\ (forall d, In d ds -> In (d_ticker d) (map fst data))
  /\ (NoDup (map fst data) -> NoDup (map d_ticker ds)).

(** How many deals of a ledger carry the key [store_deals] looks up. *)
Definition key_count (ds : list deal) (pid produit : Z) (dt : string)
    (op : operation) : Z :=
  Sql.count (filter (same_key pid produit dt op) ds).

(** At most one deal per (portfolio, product, date, operation). *)
Definition unique_keys (ds : list deal) : Prop :=
  forall pid produit dt op, key_count ds pid produit dt op <= 1.

(** The decision [d] needs no insertion on [dt]: its ticker is unknown, or
    a deal with its key is in the ledger. *)
Definition recorded (db : database) (dt : string) (d : decision) : Prop :=
  match fetch_produit_id db (d_ticker d) with
  | None => True
  | Some produit => 0 < existing db (d_portfolio d) produit dt (d_operation d)
  end.

(** The databases the application can be in, as far as [Deals] goes.
    [Deals] is created empty ([create_tables], [clear_all_tables]);
    [store_deals] holds the only INSERT; [app.py] deletes the deals of a
    portfolio over a period; the other tables are written elsewhere. *)
Inductive reachable : database -> Prop :=
| reach_created (ps : list product) (rs : list return_row) :
    reachable (mk_database ps [] rs)
| reach_store (db : database) (deals : list decision) (dt : string) :
    reachable db -> reachable (store_deals db deals dt)
| reach_delete (db : database) (keep : deal -> bool) :
    reachable db -> reachable (with_deals db (filter keep (Deals db)))
| reach_tables (db : database) (ps : list product) (rs : list return_row) :
    reachable db -> reachable (mk_database ps (Deals db) rs).

End Spec.

(** ** The metrics as the specification words them *)

Module MetricsSpec.
Local Open Scope R_scope.

(** The geometric product of (1 + weekly return). *)
Definition compounded (rs : list R) : R :=
  fold_right (fun r acc => (1 + r) * acc) 1 rs.

Definition sum (rs : list R) : R := fold_right Rplus 0 rs.

Definition average (rs : list R) : R := sum rs / INR (List.length rs).

(** The standard deviation of a sample. *)
Definition stdev (rs : list R) : R :=
  sqrt (sum (map (fun r => (r - average rs) * (r - average rs)) rs)
        / (INR (List.length rs) - 1)).

(** What the loop of [get_weekly_returns] records: the clipped ratio of the
    value to a positive previous value, hence a return within 10% either
    way. *)
Definition clipped_sample (w : Performance.weekly_return) : Prop :=
  (exists previous,
      0 < previous
      /\ Performance.wr_return w
         = Performance.clip (Performance.wr_value w / previous - 1)
             (- (10 / 100)) (10 / 100))
  /\ - (10 / 100) <= Performance.wr_return w <= 10 / 100.

End MetricsSpec.

(** ** Concrete ledgers and frames *)

Module Scenario.
Import Ledger Float Strategies.

(** Ten AAPL bought on 1 January 2024 and sold on 8 January 2024. *)
Definition round_trip : database :=
  mk_database
    [mk_product 1 "AAPL" Stock]
    [mk_deal 1 1 achat 10 "2024-01-01" None None;
     mk_deal 1 1 vente 10 "2024-01-08" None None]
    [].

(** A catalogue of one bond and one stock, and no deal yet. *)
Definition no_deal : database :=
  mk_database [mk_product 1 "TLT" Bond; mk_product 2 "AAPL" Stock] [] [].

(** Twenty AAPL held since 1 January 2024. *)
Definition holding_20 : database :=
  mk_database
    [mk_product 1 "TLT" Bond; mk_product 2 "AAPL" Stock]
    [mk_deal 1 2 achat 20 "2024-01-01" None None]
    [].

(** Mean returns of +0.5% (5, 10 and 20 days) and +0.3% (30 days), with the
    30-day annualised volatility as given. *)
Definition rising (vol : float64) : DataFrame :=
  mk_DataFrame true false
    (Fin (5 # 1000)) (Fin (5 # 1000)) (Fin (5 # 1000)) (Fin (3 # 1000)) vol.

(** Closes of 1, 2 and 4, newest first: the two returns the frame holds are
    both ln 2 (about 0.6931), so every mean is ln 2 and the deviation is 0.
    With two closes only there is one return and the deviation is NaN. *)
Definition steady (vol : float64) : DataFrame :=
  mk_DataFrame true false
    (Fin (6931 # 10000)) (Fin (6931 # 10000)) (Fin (6931 # 10000))
    (Fin (6931 # 10000)) vol.

(** A 30-day mean return of -8%. *)
Definition falling : DataFrame :=
  mk_DataFrame true false
    (Fin (1 # 100)) (Fin (1 # 100)) (Fin (1 # 100)) (Fin (-8 # 100)) (Fin (20 # 100)).

(** Every ticker quoted at 100 with a daily return of 0, on every date. *)
Definition flat_market : Performance.market :=
  fun _ _ => Some (100, 0)%R.

(** Three consecutive Mondays. *)
Definition three_mondays : list string :=
  ["2024-01-08"; "2024-01-15"; "2024-01-22"]%string.

End Scenario.

(** ** The other tables, and the code around the policies *)

Module Accounts.

Record client : Type := mk_client {
  c_id : Z;
  c_nom : string;
  profil_risque : string
}.

Record portfolio : Type := mk_portfolio {
  po_id : Z;
  po_client_id : Z;
  po_nom : string;
  volatilite_cible : option Q;
  max_trades_mensuel : option Z
}.

Record allocation : Type := mk_allocation {
  a_client_id : Z;
  actif : string;
  poids_cible : Q
}.

Record holding : Type := mk_holding {
  h_portefeuille_id : Z;
  h_produit_id : Z;
  h_quantite : Z;
  volatilite_courante : option Q;
  rendement_mensuel : option Q
}.

Record tables : Type := mk_tables {
  Clients : list client;
  Portfolios : list portfolio;
  Allocations : list allocation;
  Portfolios_Holdings : list holding
}.

Definition with_holdings (acc : tables) (hs : list holding) : tables :=
  mk_tables (Clients acc) (Portfolios acc) (Allocations acc) hs.

End Accounts.
Import Accounts.

(** A Python dict as the list of its items in insertion order. *)
Module Dict.
Section Dict.
Context {K V : Type} (eqb : K -> K -> bool).

Fixpoint get (k : K) (d : list (K * V)) : option V :=
  match d with
  | [] => None
  | (k', v) :: rest => if eqb k k' then Some v else get k rest
  end.

(** [d[k] = v]: an existing key keeps its place. *)
Fixpoint set (k : K) (v : V) (d : list (K * V)) : list (K * V) :=
  match d with
  | [] => [(k, v)]
  | (k', v') :: rest =>
      if eqb k k' then (k, v) :: rest else (k', v') :: set k v rest
  end.

End Dict.
End Dict.

Module Engine.
Import Float Strategies.

(** The query of [get_products_by_strategy]:
    [SELECT a.actif, p.type FROM Allocations a
     JOIN Portfolios po ON a.client_id = po.client_id
     JOIN Products p ON a.actif = p.ticker WHERE po.id = ?].
    The rows are taken in the order of [Allocations]; SQL leaves the order
    to the engine. *)
Definition allocations_of (acc : tables) (db : database) (portfolio_id : Z)
    : list (string * asset_type) :=
  flat_map (fun a =>
    flat_map (fun po =>
      flat_map (fun p =>
        if (a_client_id a =? po_client_id po)
           && String.eqb (actif a) (ticker p)
           && (po_id po =? portfolio_id)
        then [(actif a, p_type p)] else [])
        (Products db))
      (Portfolios acc))
    (Allocations acc).

Definition is_ETF (t : asset_type) : bool :=
  match t with ETF => true | _ => false end.

(** The filter of the loop of [get_products_by_strategy]. *)
Definition eligible (strategy : string) (asset_type : asset_type) : bool :=
  if String.eqb strategy "Low risk" then true
  else if String.eqb strategy "Low turnover"
          && (is_Stock asset_type || is_ETF asset_type) then true
  else if String.eqb strategy "High yield equity" && is_Stock asset_type then true
  else false.

(** [InvestmentStrategies.get_products_by_strategy] *)
Definition get_products_by_strategy (acc : tables) (db : database)
    (strategy : string) (portfolio_id : Z) : list string :=
  map fst (filter (fun row => eligible strategy (snd row))
             (allocations_of acc db portfolio_id)).

(** [InvestmentStrategies.get_market_data].  [load ticker date] is the frame
    read and prepared for one ticker, [None] when the ticker is skipped (no
    table, no row, no Close column). *)
Definition get_market_data (load : string -> string -> option DataFrame)
    (tickers : list string) (dt : string) : market_data :=
  fold_left (fun market_data tk =>
               match load tk dt with
               | Some df => Dict.set String.eqb tk df market_data
               | None => market_data
               end)
    tickers [].

(** [InvestmentStrategies.apply_strategy] *)
Definition apply_strategy (load : string -> string -> option DataFrame)
    (draw : Z) (acc : tables) (db : database) (strategy : string)
    (portfolio_id : Z) (dt : string) : result (list decision) :=
  match get_products_by_strategy acc db strategy portfolio_id with
  | [] => Ok []
  | tickers =>
      Strategies.apply_strategy draw db (get_market_data load tickers dt)
        strategy portfolio_id dt
  end.

(** [SELECT p.id, c.profil_risque FROM Portfolios p
     JOIN Clients c ON p.client_id = c.id] *)
Definition portfolios_with_profile (acc : tables) : list (Z * string) :=
  flat_map (fun p =>
    flat_map (fun c =>
      if po_client_id p =? c_id c then [(po_id p, profil_risque c)] else [])
      (Clients acc))
    (Portfolios acc).

(** The loop of [execute_strategies] that gathers [all_decisions]; [draw]
    gives the value [random.randint(15, 25)] returns in the run of each
    portfolio. *)
Fixpoint gather_decisions (load : string -> string -> option DataFrame)
    (draw : Z -> Z) (acc : tables) (db : database) (dt : string)
    (portfolios : list (Z * string)) : result (list decision) :=
  match portfolios with
  | [] => Ok []
  | (portfolio_id, profil) :: rest =>
      decisions <- apply_strategy load (draw portfolio_id) acc db profil
                     portfolio_id dt ;;
      others <- gather_decisions load draw acc db dt rest ;;
      Ok (decisions ++ others)
  end.

(** [InvestmentStrategies.execute_strategies] for a given [date]. *)
Definition execute_strategies (load : string -> string -> option DataFrame)
    (draw : Z -> Z) (acc : tables) (db : database) (dt : string)
    : result database :=
  match portfolios_with_profile acc with
  | [] => Ok db
  | portfolios =>
      all_decisions <- gather_decisions load draw acc db dt portfolios ;;
      Ok (store_deals db all_decisions dt)
  end.

(** The deletion of [generate_transactions_for_client] in [app.py]:
    [DELETE FROM Deals WHERE portefeuille_id = ? AND date BETWEEN ? AND ?]. *)
Definition delete_deals (db : database) (portfolio_id : Z)
    (start_date end_date : string) : database :=
  with_deals db
    (filter (fun d =>
               negb ((portefeuille_id d =? portfolio_id)
                     && String.leb start_date (date d)
                     && String.leb (date d) end_date))
       (Deals db)).

End Engine.

(** ** [base_update.py] *)

Module Updater.

(** [current_positions[portefeuille_id][ticker]]:
    [{'quantity': ..., 'produit_id': ...}]. *)
Record details : Type := mk_details {
  quantity : Z;
  det_produit_id : Z
}.

Definition positions : Type := list (string * details).
Definition current_positions : Type := list (Z * positions).

(** The rows of
    [SELECT d.portefeuille_id, d.produit_id, d.type_operation, d.quantite,
            pr.ticker FROM Deals d JOIN Products pr ON d.produit_id = pr.id
     ORDER BY d.date]. *)
Definition all_deals (db : database) : list (deal * string) :=
  Sql.order_by (fun a b => String.leb (date (fst a)) (date (fst b)))
    (flat_map (fun d =>
       flat_map (fun pr =>
         if produit_id d =? p_id pr then [(d, ticker pr)] else [])
         (Products db))
       (Deals db)).

(** One iteration of the first loop of [update_portfolios]. *)
Definition track (cp : current_positions) (row : deal * string)
    : current_positions :=
  let '(d, tk) := row in
  let of_portfolio :=
    match Dict.get Z.eqb (portefeuille_id d) cp with
    | Some ps => ps
    | None => []
    end in
  let entry :=
    match Dict.get String.eqb tk of_portfolio with
    | Some e => e
    | None => mk_details 0 (produit_id d)
    end in
  let entry' :=
    match type_operation d with
    | achat => mk_details (quantity entry + quantite d) (det_produit_id entry)
    | _ => mk_details (quantity entry - quantite d) (det_produit_id entry)
    end in
  Dict.set Z.eqb (portefeuille_id d)
    (Dict.set String.eqb tk entry' of_portfolio) cp.

(** One iteration of the second loop: the holdings of the portfolio are
    deleted and its positive positions inserted. *)
Definition rewrite_holdings (hs : list holding) (item : Z * positions)
    : list holding :=
  let '(portefeuille_id, ps) := item in
  filter (fun h => negb (h_portefeuille_id h =? portefeuille_id)) hs
  ++ flat_map (fun p =>
       if 0 <? quantity (snd p)
       then [mk_holding portefeuille_id (det_produit_id (snd p))
               (quantity (snd p)) None None]
       else [])
       ps.

(** [BaseUpdater.update_portfolios] *)
Definition update_portfolios (acc : tables) (db : database) : tables :=
  match all_deals db with
  | [] => acc
  | deals =>
      with_holdings acc
        (fold_left rewrite_holdings (fold_left track deals [])
           (Portfolios_Holdings acc))
  end.

End Updater.

(** ** The composition of a portfolio and the price look-up *)

Module Valuation.
Local Open Scope R_scope.

(** A row of the price table of a ticker. *)
Record price_row : Type := mk_price_row {
  pr_Date : string;
  Close : R;
  pr_Returns : option R
}.

(** [get_asset_price_and_return] on the rows of the ticker's table:
    [SELECT Close, Returns FROM ... WHERE Date <= ? ORDER BY Date DESC
     LIMIT 1], with a NULL return read as 0. *)
Definition get_asset_price_and_return (rows : list price_row) (dt : string)
    : option (R * R) :=
  match Sql.order_by (fun a b => String.leb (pr_Date b) (pr_Date a))
          (filter (fun r => String.leb (pr_Date r) dt) rows) with
  | [] => None
  | r :: _ =>
      Some (Close r, match pr_Returns r with Some x => x | None => 0 end)
  end.

(** The market a set of price tables gives. *)
Definition market_of (price_tables : string -> list price_row)
    : Performance.market :=
  fun tk dt => get_asset_price_and_return (price_tables tk) dt.

(** A row of the frame [get_portfolio_composition] returns; [poids] is set
    when the frame is not empty and the total value is positive. *)
Record composition_row : Type := mk_composition_row {
  cr_ticker : string;
  cr_type : asset_type;
  cr_quantite : Z;
  prix : R;
  valeur_marche : R;
  poids : option R
}.

(** [PortfolioAnalyzer.get_portfolio_composition] for a given [date]. *)
Definition get_portfolio_composition (mk : Performance.market)
    (db : database) (portfolio_id : Z) (dt : string) : list composition_row :=
  let positions := Ledger.get_portfolio_positions db portfolio_id dt in
  let result :=
    flat_map (fun position =>
                let '(tk, ty, quantity) := position in
                match mk tk dt with
                | Some (price, _) =>
                    [mk_composition_row tk ty quantity price
                       (price * IZR quantity) None]
                | None => []
                end)
      positions in
  let total_value := fold_left Rplus (map valeur_marche result) 0 in
  if Rlt_dec 0 total_value
  then map (fun r =>
              mk_composition_row (cr_ticker r) (cr_type r) (cr_quantite r)
                (prix r) (valeur_marche r)
                (Some (valeur_marche r / total_value * 100)))
         result
  else result.

End Valuation.

(** ** The runs over several Mondays *)

Module BaseUpdater.
Import Strategies.

(** [SELECT DISTINCT]: each row once, here at its first occurrence. *)
Fixpoint distinct (rows : list (Z * string)) : list (Z * string) :=
  match rows with
  | [] => []
  | row :: rest =>
      row :: filter (fun row' =>
                       negb ((fst row' =? fst row)
                             && String.eqb (snd row') (snd row)))
               (distinct rest)
  end.

(** The loop over the portfolios for one Monday: the decisions of a
    portfolio are stored before the next portfolio is looked at; storing no
    decision changes nothing.  [draw dt portfolio_id] is the value
    [random.randint(15, 25)] returns in that run. *)
Fixpoint for_portfolios (load : string -> string -> option DataFrame)
    (draw : string -> Z -> Z) (acc : tables) (dt : string)
    (portfolios : list (Z * string)) (db : database) : result database :=
  match portfolios with
  | [] => Ok db
  | (portfolio_id, strategy) :: rest =>
      decisions <- Engine.apply_strategy load (draw dt portfolio_id) acc db
                     strategy portfolio_id dt ;;
      for_portfolios load draw acc dt rest (store_deals db decisions dt)
  end.

(** The loop over the Mondays. *)
Fixpoint for_mondays (load : string -> string -> option DataFrame)
    (draw : string -> Z -> Z) (acc : tables) (portfolios : list (Z * string))
    (mondays : list string) (db : database) : result database :=
  match mondays with
  | [] => Ok db
  | dt :: rest =>
      db' <- for_portfolios load draw acc dt portfolios db ;;
      for_mondays load draw acc portfolios rest db'
  end.

(** [BaseUpdater.store_deals].  [mondays] is the list of the dates the loop
    [for i in range(4)] builds: the Monday of this week, then the three
    Mondays before it, the newest first.  An exception of a policy leaves
    the function; the deals stored before it stay. *)
Definition store_deals (load : string -> string -> option DataFrame)
    (draw : string -> Z -> Z) (acc : tables) (db : database)
    (mondays : list string) : result database :=
  for_mondays load draw acc (distinct (Engine.portfolios_with_profile acc))
    mondays db.

End BaseUpdater.

(** ** [generate_transactions_for_client] of [app.py] *)

Module App.
Import Strategies.

(** [SELECT p.id, c.profil_risque FROM Portfolios p
     JOIN Clients c ON p.client_id = c.id WHERE c.id = ?] then
    [.fetchone()]: the first row, in the order of [Portfolios]. *)
Definition portfolio_of_client (acc : tables) (client_id : Z)
    : option (Z * string) :=
  hd_error
    (flat_map (fun p =>
       flat_map (fun c =>
         if (po_client_id p =? c_id c) && (c_id c =? client_id)
         then [(po_id p, profil_risque c)] else [])
         (Clients acc))
       (Portfolios acc)).

(** The loop over the days of the period, of which only the Mondays do
    something. *)
Fixpoint for_days (load : string -> string -> option DataFrame)
    (draw : string -> Z) (acc : tables) (strategy : string)
    (portfolio_id : Z) (mondays : list string) (db : database)
    : result database :=
  match mondays with
  | [] => Ok db
  | dt :: rest =>
      decisions <- Engine.apply_strategy load (draw dt) acc db strategy
                     portfolio_id dt ;;
      for_days load draw acc strategy portfolio_id rest
        (store_deals db decisions dt)
  end.

(** [generate_transactions_for_client].  [mondays] is the list of the
    Mondays from [start_date] to [end_date], the oldest first; [load] reads
    the price tables as [DataCollector.fetch_data] leaves them.  The result
    is the tables and the ledger at the end. *)
Definition generate_transactions_for_client
    (load : string -> string -> option DataFrame) (draw : string -> Z)
    (acc : tables) (db : database) (client_id : Z)
    (start_date end_date : string) (mondays : list string)
    : result (tables * database) :=
  match portfolio_of_client acc client_id with
  | None => Ok (acc, db)
  | Some (portfolio_id, strategy) =>
      let db := Engine.delete_deals db portfolio_id start_date end_date in
      db <- for_days load draw acc strategy portfolio_id mondays db ;;
      Ok (Updater.update_portfolios acc db, db)
  end.

End App.

(** ** [database_manager.py]: the initial data *)

Module DatabaseManager.

(** [clients_data]: the name and the risk profile. *)
Definition clients_data : list (string * string) :=
  [("Client 1", "Low risk"); ("Client 2", "Low turnover");
   ("Client 3", "High yield equity")]%string.

(** [products_data]: the type and the ticker, in the order of the list; the
    name of a product is kept out of [product]. *)
Definition products_data : list (asset_type * string) :=
  [
   (Stock, "AAPL"); (Stock, "GOOGL"); (Stock, "MSFT"); (Stock, "TSLA");
   (Stock, "NVDA"); (Stock, "META"); (Stock, "AMZN"); (Stock, "JNJ");
   (Stock, "V"); (Stock, "KO"); (Stock, "PG"); (Stock, "PFE");
   (Stock, "BRK-B"); (Stock, "WMT"); (Stock, "MCD"); (Stock, "JPM");
   (Stock, "CVX"); (Stock, "PEP"); (Stock, "INTC"); (Stock, "NFLX");
   (ETF, "SPY"); (ETF, "QQQ"); (ETF, "IWM"); (ETF, "URTH"); (ETF, "XLK");
   (ETF, "XLV"); (ETF, "XLF"); (ETF, "XLY"); (ETF, "XLE"); (ETF, "VT");
   (Bond, "TLT"); (Bond, "LQD"); (Bond, "TIP"); (Bond, "AGG");
   (Bond, "HYG"); (Bond, "MUB"); (Bond, "SHY"); (Bond, "IEF");
   (Bond, "TBT"); (Bond, "BND")
  ]%string.

(** The assets attributed to a profile. *)
Definition assets (profil : string) : list string :=
  (if String.eqb profil "Low risk"
   then ["TLT"; "LQD"; "TIP"; "AGG"; "SPY"; "BND"]
   else if String.eqb profil "Low turnover"
   then ["AAPL"; "MSFT"; "JNJ"; "V"; "KO"; "PG"; "SPY"; "VT"]
   else ["AAPL"; "GOOGL"; "MSFT"; "TSLA"; "NVDA"; "META"; "AMZN"; "NFLX"])%string.

(** [id INTEGER PRIMARY KEY AUTOINCREMENT]: the rows inserted into an empty
    table whose sequence was reset get the ids [next], [next + 1], ... *)
Fixpoint autoincrement {A B : Type} (row : Z -> A -> B) (next : Z)
    (values : list A) : list B :=
  match values with
  | [] => []
  | v :: rest => row next v :: autoincrement row (next + 1) rest
  end.

(** [DatabaseManager.populate_initial_data] on the empty tables
    [reset_database] or [create_tables] leaves: the tables it fills. *)
Definition populate_initial_data : tables * database :=
  let clients :=
    autoincrement (fun id c => mk_client id (fst c) (snd c)) 1 clients_data in
  let portfolios :=
    autoincrement
      (fun id c =>
         mk_portfolio id (c_id c) ("Portefeuille de " ++ c_nom c)
           (if String.eqb (profil_risque c) "Low risk"
            then Some (1 # 10)%Q else None)
           (if String.eqb (profil_risque c) "Low turnover"
            then Some 2 else None))
      1 clients in
  let products :=
    autoincrement (fun id p => mk_product id (snd p) (fst p)) 1 products_data in
  let allocations :=
    flat_map (fun c =>
                map (fun asset => mk_allocation (c_id c) asset 0)
                  (assets (profil_risque c)))
      clients in
  (mk_tables clients portfolios allocations [], mk_database products [] []).

End DatabaseManager.

(** ** A fund of one client *)

Module Fund.
Import Strategies.

(** One "High yield equity" client with one portfolio, allocated AAPL. *)
Definition accounts : tables :=
  mk_tables
    [mk_client 1 "Client 3" "High yield equity"]
    [mk_portfolio 1 1 "Portefeuille de Client 3" None None]
    [mk_allocation 1 "AAPL" 0]
    [].

(** The price tables hold AAPL only, falling at every date. *)
Definition frames : string -> string -> option DataFrame :=
  fun tk _ => if String.eqb tk "AAPL" then Some Scenario.falling else None.

(** Every call of [random.randint(15, 25)] returns 20. *)
Definition draws : Z -> Z := fun _ => 20.

(** Five AAPL held since 1 January 2024. *)
Definition holding_5 : database :=
  mk_database
    [mk_product 1 "TLT" Bond; mk_product 2 "AAPL" Stock]
    [mk_deal 1 2 achat 5 "2024-01-01" None None]
    [].

(** The ledger of [Scenario.holding_20] after a sale of 15 AAPL on
    8 January 2024 and of 5 on 15 January. *)
Definition sold_out : database :=
  store_deals
    (store_deals Scenario.holding_20 [(1, "AAPL"%string, vente, 15)]
       "2024-01-08")
    [(1, "AAPL"%string, vente, 5)] "2024-01-15".


(** The Mondays of a run of 29 January 2024, the newest first. *)
Definition four_mondays : list string :=
  ["2024-01-29"; "2024-01-22"; "2024-01-15"; "2024-01-08"]%string.

End Fund.

(** ** Notions for the rest of the code *)

Module Notions.
Import Ledger Float Strategies Updater.

(** [min(current_position, max(5, int(current_position * share / 100)))],
    in integers. *)
Definition sale_size (share pos : Z) : Z :=
  Z.min pos (Z.max 5 (share * pos / 100)).

(** A decision of the Low risk ([share] 25, [cap] 20) or High yield
    ([share] 75, [cap] 25) policy, against the position held on [dt]. *)
Definition follows_position (db : database) (dt : string) (share cap : Z)
    (d : decision) : Prop :=
  let pos := get_current_position db (d_portfolio d) (d_ticker d) dt in
  match d_operation d with
  | achat => pos <= 0 /\ 5 <= d_quantity d <= cap
  | vente => 0 < pos /\ d_quantity d = sale_size share pos
  end.

(** A decision of the Low turnover policy. *)
Definition follows_draw (db : database) (dt : string) (draw : Z)
    (d : decision) : Prop :=
  let pos := get_current_position db (d_portfolio d) (d_ticker d) dt in
  match d_operation d with
  | achat => pos <= 0 /\ d_quantity d = draw
  | vente => 0 < pos /\ d_quantity d = Z.min pos draw
  end.

(** The market value of a position on [dt], and that value times the
    daily return of its ticker; a position without a price counts for 0. *)
Definition position_value (mk : Performance.market) (dt : string)
    (position : string * asset_type * Z) : R :=
  match mk (fst (fst position)) dt with
  | Some (price, _) => (price * IZR (snd position))%R
  | None => 0%R
  end.

Definition position_gain (mk : Performance.market) (dt : string)
    (position : string * asset_type * Z) : R :=
  match mk (fst (fst position)) dt with
  | Some (price, daily_return) => (price * IZR (snd position) * daily_return)%R
  | None => 0%R
  end.

(** What a row of the composition tells of the position it comes from. *)
Definition position_of (r : Valuation.composition_row)
    : string * asset_type * Z :=
  (Valuation.cr_ticker r, Valuation.cr_type r, Valuation.cr_quantite r).

(** Whether the market prices the ticker of a position on [dt]. *)
Definition priced (mk : Performance.market) (dt : string)
    (position : string * asset_type * Z) : bool :=
  match mk (fst (fst position)) dt with
  | Some _ => true
  | None => false
  end.

(** The weight of a row, 0 when the column is not set. *)
Definition weight (r : Valuation.composition_row) : R :=
  match Valuation.poids r with
  | Some w => w
  | None => 0%R
  end.

(** The Mondays that follow the first one on which the value is positive. *)
Fixpoint after_first_positive (value_at : string -> R) (mondays : list string)
    : list string :=
  match mondays with
  | [] => []
  | monday :: rest =>
      if Rlt_dec 0 (value_at monday) then rest
      else after_first_positive value_at rest
  end.

(** The row of [DailyPositions] for a joined row [r] of the rows [rows]. *)
Definition daily_row (rows : list (deal * product)) (r : deal * product)
    : daily_position :=
  mk_daily_position (produit_id (fst r)) (ticker (snd r)) (p_type (snd r))
    (date (fst r)) (type_operation (fst r)) (quantite (fst r))
    (window_sum rows r).

(** [ticker TEXT UNIQUE] of [Products]. *)
Definition unique_tickers (db : database) : Prop :=
  NoDup (map ticker (Products db)).

(** [d] is a deal of portfolio [pid] on product [pr] that none of them is
    dated before. *)
Definition first_trade (db : database) (pid : Z) (pr : product) (d : deal)
    : Prop :=
  In d (Deals db) /\ produit_id d = p_id pr /\ portefeuille_id d = pid
  /\ forall d', In d' (Deals db) -> produit_id d' = p_id pr ->
                portefeuille_id d' = pid ->
                String.leb (date d) (date d') = true.

(** The deals a run of [store_deals] may append for the list [deals]. *)
Definition copies (db : database) (deals : list decision) (dt : string)
    (t : deal) : Prop :=
  date t = dt
  /\ exists d, In d deals
       /\ portefeuille_id t = d_portfolio d
       /\ type_operation t = d_operation d
       /\ quantite t = d_quantity d
       /\ fetch_produit_id db (d_ticker d) = Some (produit_id t).

(** The portfolio and the ticker of a decision. *)
Definition pair_of (d : decision) : Z * string := (d_portfolio d, d_ticker d).

(** The quantity tracked for a portfolio and a ticker, if any. *)
Definition tracked (cp : current_positions) (p : Z) (tk : string)
    : option details :=
  match Dict.get Z.eqb p cp with
  | Some ps => Dict.get String.eqb tk ps
  | None => None
  end.

(** The row is a deal of portfolio [p] on ticker [tk]. *)
Definition row_of (p : Z) (tk : string) (row : deal * string) : bool :=
  (portefeuille_id (fst row) =? p) && String.eqb (snd row) tk.

(** The net quantity of the rows of a portfolio on a ticker. *)
Definition net (rows : list (deal * string)) (p : Z) (tk : string) : Z :=
  Spec.total (map (fun row => else_delta (fst row)) (filter (row_of p tk) rows)).

(** A dict of dicts: no key twice, at either level. *)
Definition well_formed (cp : current_positions) : Prop :=
  NoDup (map fst cp)
  /\ forall p ps, In (p, ps) cp -> NoDup (map fst ps).

(** The rows the second loop inserts for one portfolio. *)
Definition inserted (item : Z * positions) : list holding :=
  flat_map (fun p =>
              if 0 <? quantity (snd p)
              then [mk_holding (fst item) (det_produit_id (snd p))
                      (quantity (snd p)) None None]
              else [])
    (snd item).

(** The holding belongs to none of the portfolios [keys]. *)
Definition untouched (keys : list Z) (h : holding) : bool :=
  negb (existsb (Z.eqb (h_portefeuille_id h)) keys).

(** A portfolio has a deal on a product of the catalogue. *)
Definition has_deals (db : database) (p : Z) : Prop :=
  exists d pr, In d (Deals db) /\ In pr (Products db)
    /\ produit_id d = p_id pr /\ portefeuille_id d = p.

(** The join of [update_portfolios], before [ORDER BY]. *)
Definition joined_deals (db : database) : list (deal * string) :=
  flat_map (fun d =>
    flat_map (fun pr =>
      if produit_id d =? p_id pr then [(d, ticker pr)] else [])
      (Products db))
    (Deals db).

(** The rows [get_portfolio_composition] builds before the weights. *)
Definition priced_rows (mk : Performance.market) (dt : string)
    (positions : list (string * asset_type * Z))
    : list Valuation.composition_row :=
  flat_map (fun position =>
              let '(tk, ty, quantity) := position in
              match mk tk dt with
              | Some (price, _) =>
                  [Valuation.mk_composition_row tk ty quantity price
                     (price * IZR quantity)%R None]
              | None => []
              end)
    positions.

(** No value occurs twice, as a test. *)
Fixpoint all_distinct {A : Type} (eqb : A -> A -> bool) (l : list A) : bool :=
  match l with
  | [] => true
  | x :: rest => negb (existsb (eqb x) rest) && all_distinct eqb rest
  end.

End Notions.
Import Notions.

(** * Properties *)

(** ** The ledger *)

Import Ledger Float Strategies Spec.

Lemma coalesce_sum (xs : list Z) : Sql.coalesce (Sql.sum xs) 0 = total xs.
Proof. destruct xs; reflexivity. Qed.

Lemma total_app (xs ys : list Z) : total (xs ++ ys) = total xs + total ys.
Proof. unfold total. induction xs as [|x xs IH]; simpl; [reflexivity | lia]. Qed.

Lemma total_perm (xs ys : list Z) : Permutation xs ys -> total xs = total ys.
Proof. unfold total. induction 1; simpl; lia. Qed.

Lemma get_current_position_total db pid tk dt :
  get_current_position db pid tk dt
  = total (map case_delta (position_rows db pid tk dt)).
Proof. apply coalesce_sum. Qed.

Lemma case_delta_else (d : deal) : else_delta d = case_delta d.
Proof. unfold else_delta, case_delta. destruct (type_operation d); reflexivity. Qed.

(** The position is the bought quantity minus the sold quantity. *)
Lemma total_case_delta (rows : list deal) :
  total (map case_delta rows)
  = total (map quantite (filter is_achat rows))
    - total (map quantite (filter is_vente rows)).
Proof.
  unfold total, is_achat, is_vente.
  induction rows as [|d rows IH]; simpl; [reflexivity|].
  unfold case_delta at 1. destruct (type_operation d); simpl; lia.
Qed.

Lemma position_rows_perm db db' pid tk dt :
  Products db = Products db' ->
  Permutation (Deals db) (Deals db') ->
  Permutation (position_rows db pid tk dt) (position_rows db' pid tk dt).
Proof.
  intros HP HD. unfold position_rows. rewrite <- HP.
  now apply Permutation_flat_map.
Qed.

(** The position read by the policies does not depend on the order in
    which the deals were inserted. *)
Lemma get_current_position_perm db db' pid tk dt :
  Products db = Products db' ->
  Permutation (Deals db) (Deals db') ->
  get_current_position db pid tk dt = get_current_position db' pid tk dt.
Proof.
  intros HP HD. rewrite !get_current_position_total.
  apply total_perm, Permutation_map, position_rows_perm; assumption.
Qed.

Lemma position_rows_app db pid tk dt (extra : list deal) :
  position_rows (with_deals db (Deals db ++ extra)) pid tk dt
  = position_rows db pid tk dt
    ++ flat_map (fun d =>
         flat_map (fun p => if matches d pid tk dt p then [d] else []) (Products db))
         extra.
Proof. unfold position_rows. simpl. now rewrite flat_map_app. Qed.

Lemma no_match_outside (d : deal) pid tk dt (ps : list product) :
  ~ In (produit_id d) (map p_id ps) ->
  flat_map (fun p => if matches d pid tk dt p then [d] else []) ps = [].
Proof.
  induction ps as [|p ps IH]; simpl; intros Hn; [reflexivity|].
  unfold matches at 1.
  destruct (Z.eqb_spec (produit_id d) (p_id p)) as [E|E]; simpl.
  - exfalso. apply Hn. now left.
  - apply IH. intros H. apply Hn. now right.
Qed.

(** With distinct product ids a deal joins with at most one product. *)
Lemma join_single (d : deal) pid tk dt (ps : list product) :
  NoDup (map p_id ps) ->
  flat_map (fun p => if matches d pid tk dt p then [d] else []) ps
  = match find (fun p => produit_id d =? p_id p) ps with
    | Some p => if matches d pid tk dt p then [d] else []
    | None => []
    end.
Proof.
  induction ps as [|p ps IH]; simpl; intros Hnd; [reflexivity|].
  inversion Hnd as [|? ? Hnotin Hnd']; subst.
  destruct (Z.eqb_spec (produit_id d) (p_id p)) as [E|E].
  - rewrite no_match_outside by (now rewrite E). now rewrite app_nil_r.
  - unfold matches at 1.
    destruct (Z.eqb_spec (produit_id d) (p_id p)); [contradiction|]. simpl.
    now apply IH.
Qed.

Lemma leb_refl (s : string) : String.leb s s = true.
Proof. destruct (String.leb_total s s); assumption. Qed.

Lemma same_id_same_product (ps : list product) (a b : product) :
  NoDup (map p_id ps) -> In a ps -> In b ps -> p_id a = p_id b -> a = b.
Proof.
  induction ps as [|p ps IH]; simpl; intros Hnd Ha Hb E; [contradiction|].
  inversion Hnd as [|? ? Hnotin Hnd']; subst.
  destruct Ha as [->|Ha], Hb as [->|Hb]; auto.
  - exfalso. apply Hnotin. rewrite E. now apply in_map.
  - exfalso. apply Hnotin. rewrite <- E. now apply in_map.
Qed.

Lemma position_rows_In db pid tk dt (d : deal) :
  In d (position_rows db pid tk dt) <->
  In d (Deals db)
  /\ portefeuille_id d = pid
  /\ String.leb (date d) dt = true
  /\ exists p, In p (Products db) /\ p_id p = produit_id d /\ ticker p = tk.
Proof.
  unfold position_rows. rewrite in_flat_map. split.
  - intros (d' & Hd' & Hin). apply in_flat_map in Hin.
    destruct Hin as (p & Hp & Hin).
    destruct (_ && _) eqn:Hc in Hin; [|destruct Hin].
    destruct Hin as [<-|[]].
    rewrite !andb_true_iff, !Z.eqb_eq, String.eqb_eq in Hc.
    destruct Hc as (((Hid & Hpid) & Htk) & Hdt).
    repeat split; auto. exists p. auto.
  - intros (Hd & Hpid & Hdt & p & Hp & Hid & Htk).
    exists d. split; [exact Hd|]. apply in_flat_map. exists p. split; [exact Hp|].
    rewrite Hid, Hpid, Htk, Hdt, !Z.eqb_refl, String.eqb_refl. now left.
Qed.

(** The position [get_current_position] reads is the quantity bought minus
    the quantity sold over the deals of the portfolio on the ticker dated no
    later than [dt], and it does not depend on the order in which the deals
    were inserted. *)
Theorem current_position_is_net_of_events (db : database) (pid : Z)
    (tk dt : string) :
  (forall d,
     In d (position_rows db pid tk dt) <->
     In d (Deals db)
     /\ portefeuille_id d = pid
     /\ String.leb (date d) dt = true
     /\ exists p, In p (Products db) /\ p_id p = produit_id d /\ ticker p = tk)
  /\ get_current_position db pid tk dt
     = total (map quantite (filter is_achat (position_rows db pid tk dt)))
       - total (map quantite (filter is_vente (position_rows db pid tk dt)))
  /\ (forall db',
        Products db = Products db' ->
        Permutation (Deals db) (Deals db') ->
        get_current_position db' pid tk dt = get_current_position db pid tk dt).
Proof.
  split; [|split].
  - intros d. apply position_rows_In.
  - rewrite get_current_position_total. apply total_case_delta.
  - intros db' HP HD. symmetry. now apply get_current_position_perm.
Qed.

(** ** The decisions of the policies *)

Lemma body_output_nil db pid dt tk : body_output db pid dt tk [].
Proof.
  repeat split; [constructor | intros d [] | simpl; lia].
Qed.

Lemma body_output_sell db pid dt tk (bound : Z) :
  0 < get_current_position db pid tk dt ->
  0 < bound ->
  body_output db pid dt tk
    [(pid, tk, vente, Z.min (get_current_position db pid tk dt) bound)].
Proof.
  intros Hpos Hb. repeat split.
  - constructor; [|constructor]. unfold safe_decision.
    unfold d_portfolio, d_quantity, d_operation, d_ticker; simpl.
    repeat split; [lia | intros _; lia].
  - intros d [<-|[]]. reflexivity.
  - simpl; lia.
Qed.

Lemma body_output_buy db pid dt tk (q : Z) :
  0 < q -> body_output db pid dt tk [(pid, tk, achat, q)].
Proof.
  intros Hq. repeat split.
  - constructor; [|constructor]. unfold safe_decision; simpl.
    repeat split; [assumption | discriminate].
  - intros d [<-|[]]. reflexivity.
  - simpl; lia.
Qed.

Lemma low_risk_body_output db pid dt tk df ds :
  low_risk_body db pid dt tk df = Ok ds -> body_output db pid dt tk ds.
Proof.
  unfold low_risk_body.
  destruct (negb (has_Returns df) || empty df).
  { intros [= <-]. apply body_output_nil. }
  destruct (fetch_type db tk) as [ty|]; simpl; [|discriminate].
  destruct (0 <? get_current_position db pid tk dt) eqn:Hpos.
  - apply Z.ltb_lt in Hpos.
    match goal with |- (if ?c then _ else _) = _ -> _ => destruct c end.
    + intros [= <-]. apply body_output_sell; lia.
    + intros [= <-]. apply body_output_nil.
  - match goal with |- (if ?c then _ else _) = _ -> _ => destruct c end.
    + unfold low_risk_position_size.
      destruct (int _) as [n|]; simpl; [|discriminate].
      intros [= <-]. apply body_output_buy. lia.
    + intros [= <-]. apply body_output_nil.
Qed.

Lemma high_yield_body_output db pid dt tk df ds :
  high_yield_body db pid dt tk df = Ok ds -> body_output db pid dt tk ds.
Proof.
  unfold high_yield_body.
  destruct (negb (has_Returns df) || empty df).
  { intros [= <-]. apply body_output_nil. }
  destruct (0 <? get_current_position db pid tk dt) eqn:Hpos.
  - apply Z.ltb_lt in Hpos.
    match goal with |- (if ?c then _ else _) = _ -> _ => destruct c end.
    + intros [= <-]. apply body_output_sell; lia.
    + intros [= <-]. apply body_output_nil.
  - match goal with |- (if ?c then _ else _) = _ -> _ => destruct c end.
    + unfold high_yield_position_size, max_position_size.
      destruct (int _) as [n|]; simpl; [|discriminate].
      intros [= <-]. apply body_output_buy. lia.
    + intros [= <-]. apply body_output_nil.
Qed.

Lemma policy_output_nil db pid dt data : policy_output db pid dt data [].
Proof.
  repeat split; [constructor | intros d [] | intros _; constructor].
Qed.

Lemma policy_output_cons db pid dt tk df data ds ds' :
  body_output db pid dt tk ds ->
  policy_output db pid dt data ds' ->
  policy_output db pid dt ((tk, df) :: data) (ds ++ ds').
Proof.
  intros (Hs & Ht & Hl) (Hs' & Ht' & Hn'). repeat split.
  - apply Forall_app; split; assumption.
  - intros d Hd. apply in_app_or in Hd. simpl. destruct Hd as [Hd|Hd].
    + left. symmetry. now apply Ht.
    + right. now apply Ht'.
  - simpl. intros Hnd. inversion Hnd as [|? ? Hnotin Hnd']; subst.
    destruct ds as [|d [|d' ds]]; simpl in *; [auto | | lia].
    constructor; [|auto].
    rewrite (Ht d (or_introl eq_refl)). intros Hin.
    apply in_map_iff in Hin. destruct Hin as (x & Hx & Hin).
    apply Hnotin. rewrite <- Hx. now apply Ht'.
Qed.

Lemma for_items_output db pid dt body data :
  (forall tk df ds, body tk df = Ok ds -> body_output db pid dt tk ds) ->
  forall ds, for_items body data = Ok ds -> policy_output db pid dt data ds.
Proof.
  intros Hbody. induction data as [|[tk df] data IH]; simpl; intros ds.
  - intros [= <-]. apply policy_output_nil.
  - destruct (body tk df) as [ds1|] eqn:E1; simpl; [|discriminate].
    destruct (for_items body data) as [ds2|]; simpl; [|discriminate].
    intros [= <-]. apply policy_output_cons; [now apply (Hbody tk df) | now apply IH].
Qed.

Lemma low_turnover_scan_output draw db pid dt data :
  15 <= draw <= 25 ->
  policy_output db pid dt data (low_turnover_scan draw db pid dt data).
Proof.
  intros Hdraw. induction data as [|[tk df] data IH]; simpl.
  - apply policy_output_nil.
  - assert (Hskip : policy_output db pid dt ((tk, df) :: data)
                      (low_turnover_scan draw db pid dt data)).
    { apply (policy_output_cons db pid dt tk df data [] _
               (body_output_nil db pid dt tk) IH). }
    assert (Hone : forall d, body_output db pid dt tk [d] ->
                     policy_output db pid dt ((tk, df) :: data) [d]).
    { intros d Hd.
      apply (policy_output_cons db pid dt tk df data [d] [] Hd
               (policy_output_nil db pid dt data)). }
    destruct (negb (has_Returns df) || empty df); [exact Hskip|].
    destruct (0 <? get_current_position db pid tk dt) eqn:Hpos.
    + apply Z.ltb_lt in Hpos.
      match goal with |- context [if ?c then _ else _] => destruct c end;
        [|exact Hskip].
      apply Hone, body_output_sell; lia.
    + match goal with |- context [if ?c then _ else _] => destruct c end;
        [|exact Hskip].
      apply Hone, body_output_buy; lia.
Qed.


Lemma low_risk_output db data pid dt ds :
  apply_low_risk_strategy db data pid dt = Ok ds ->
  policy_output db pid dt data ds.
Proof.
  apply for_items_output. intros tk df r. apply low_risk_body_output.
Qed.

Lemma high_yield_output db data pid dt ds :
  apply_high_yield_strategy db data pid dt = Ok ds ->
  policy_output db pid dt data ds.
Proof.
  apply for_items_output. intros tk df r. apply high_yield_body_output.
Qed.

Lemma low_turnover_output draw db data pid dt ds :
  15 <= draw <= 25 ->
  apply_low_turnover_strategy draw db data pid dt = Ok ds ->
  policy_output db pid dt data ds.
Proof.
  intros Hdraw. unfold apply_low_turnover_strategy.
  destruct (to_datetime dt) as [cd|]; simpl; [|discriminate].
  destruct (negb _); [intros [= <-]; apply policy_output_nil|].
  destruct (0 <? _); [intros [= <-]; apply policy_output_nil|].
  intros [= <-]. now apply low_turnover_scan_output.
Qed.

Lemma apply_strategy_output draw db data strategy pid dt ds :
  15 <= draw <= 25 ->
  apply_strategy draw db data strategy pid dt = Ok ds ->
  policy_output db pid dt data ds.
Proof.
  intros Hdraw. unfold apply_strategy.
  destruct data as [|item data'] eqn:Edata.
  { intros [= <-]. apply policy_output_nil. }
  rewrite <- Edata. clear Edata.
  destruct (String.eqb strategy "Low risk"); [apply low_risk_output|].
  destruct (String.eqb strategy "Low turnover");
    [now apply low_turnover_output|].
  destruct (String.eqb strategy "High yield equity"); [apply high_yield_output|].
  intros [= <-]. apply policy_output_nil.
Qed.

(** *** Recording the decisions *)

Lemma store_deal_Products dt db d : Products (store_deal dt db d) = Products db.
Proof.
  unfold store_deal. destruct d as [[[pid tk] op] q].
  destruct (fetch_produit_id db tk); [|reflexivity].
  destruct (_ =? 0); reflexivity.
Qed.

Lemma store_deals_Products deals : forall db dt,
  Products (store_deals db deals dt) = Products db.
Proof.
  unfold store_deals. induction deals as [|d deals IH]; simpl; intros db dt.
  - reflexivity.
  - rewrite IH. apply store_deal_Products.
Qed.

Lemma fetch_produit_id_some db tk produit :
  fetch_produit_id db tk = Some produit ->
  exists p, In p (Products db) /\ ticker p = tk /\ p_id p = produit.
Proof.
  unfold fetch_produit_id.
  destruct (find _ (Products db)) as [p|] eqn:E; simpl; [|discriminate].
  intros [= <-]. apply find_some in E. destruct E as [Hin Heq].
  apply String.eqb_eq in Heq. now exists p.
Qed.

(** Recording one decision changes the position of a ticker by the signed
    quantity of the decision, when it is a decision on that ticker for that
    portfolio and is inserted, and leaves it as it was otherwise. *)
Lemma store_deal_position dt db d pid tk :
  distinct_ids db ->
  get_current_position (store_deal dt db d) pid tk dt
  = get_current_position db pid tk dt
  \/ (d_ticker d = tk /\ d_portfolio d = pid
      /\ get_current_position (store_deal dt db d) pid tk dt
         = get_current_position db pid tk dt + decision_delta d).
Proof.
  intros Hids. destruct d as [[[pid' tk'] op] q]. unfold store_deal.
  destruct (fetch_produit_id db tk') as [produit|] eqn:Hfetch; [|now left].
  destruct (_ =? 0); [|now left].
  apply fetch_produit_id_some in Hfetch.
  destruct Hfetch as (p0 & Hin0 & Htk0 & Hid0).
  rewrite !get_current_position_total, position_rows_app, map_app, total_app.
  simpl flat_map. rewrite app_nil_r, join_single by exact Hids.
  simpl produit_id.
  destruct (find (fun p => produit =? p_id p) (Products db)) as [p1|] eqn:Hfind.
  - apply find_some in Hfind. destruct Hfind as [Hin1 Hid1].
    apply Z.eqb_eq in Hid1.
    assert (p1 = p0) as ->.
    { apply (same_id_same_product (Products db)); auto. congruence. }
    unfold matches; simpl.
    destruct (produit =? p_id p0); simpl; [|left; unfold total; simpl; lia].
    destruct (Z.eqb_spec pid' pid) as [Hp|Hp]; simpl;
      [|left; unfold total; simpl; lia].
    destruct (String.eqb_spec (ticker p0) tk) as [Ht|Ht]; simpl;
      [|left; unfold total; simpl; lia].
    rewrite leb_refl. right. repeat split.
    + unfold d_ticker; simpl. congruence.
    + exact Hp.
    + unfold decision_delta, d_operation, d_quantity, case_delta, total; simpl.
      destruct op; lia.
  - left. unfold total; simpl; lia.
Qed.

Lemma store_deals_position dt pid tk deals : forall db,
  distinct_ids db ->
  NoDup (map d_ticker deals) ->
  get_current_position (store_deals db deals dt) pid tk dt
  = get_current_position db pid tk dt
  \/ (exists d, In d deals /\ d_ticker d = tk /\ d_portfolio d = pid
      /\ get_current_position (store_deals db deals dt) pid tk dt
         = get_current_position db pid tk dt + decision_delta d).
Proof.
  induction deals as [|d deals IH]; intros db Hids Hnd.
  - now left.
  - inversion Hnd as [|? ? Hnotin Hnd']; subst.
    change (store_deals db (d :: deals) dt)
      with (store_deals (store_deal dt db d) deals dt).
    assert (Hids' : distinct_ids (store_deal dt db d)).
    { unfold distinct_ids. now rewrite store_deal_Products. }
    destruct (IH _ Hids' Hnd') as [Hrest|(d' & Hin' & Htk' & Hpid' & Hrest)];
      destruct (store_deal_position dt db d pid tk Hids)
        as [Hstep|(Htk & Hpid & Hstep)].
    + left. congruence.
    + right. exists d. repeat split; auto; [now left | congruence].
    + right. exists d'. repeat split; auto; [now right | congruence].
    + exfalso. apply Hnotin. rewrite Htk, <- Htk'. now apply in_map.
Qed.

(** ** Recording is idempotent *)

Lemma count_app {A : Type} (f : A -> bool) (l e : list A) :
  Sql.count (filter f (l ++ e)) = Sql.count (filter f l) + Sql.count (filter f e).
Proof.
  unfold Sql.count. rewrite filter_app, length_app. lia.
Qed.

Lemma count_nonneg {A : Type} (l : list A) : 0 <= Sql.count l.
Proof. unfold Sql.count. lia. Qed.

Lemma operation_eqb_eq (a b : operation) : operation_eqb a b = true <-> a = b.
Proof. destruct a, b; simpl; split; congruence. Qed.

Lemma same_key_own (pid produit : Z) (dt : string) (op : operation) q v r :
  same_key pid produit dt op (mk_deal pid produit op q dt v r) = true.
Proof.
  unfold same_key; simpl.
  rewrite !Z.eqb_refl, String.eqb_refl. simpl. now apply operation_eqb_eq.
Qed.

Lemma same_key_eq pid produit dt op d :
  same_key pid produit dt op d = true <->
  portefeuille_id d = pid /\ produit_id d = produit /\ date d = dt
  /\ type_operation d = op.
Proof.
  unfold same_key. rewrite !andb_true_iff, !Z.eqb_eq, String.eqb_eq,
    operation_eqb_eq. tauto.
Qed.

Lemma fetch_produit_id_Products db db' tk :
  Products db = Products db' -> fetch_produit_id db tk = fetch_produit_id db' tk.
Proof. unfold fetch_produit_id. now intros ->. Qed.

Lemma store_deal_extends dt db d :
  exists extra, Deals (store_deal dt db d) = Deals db ++ extra.
Proof.
  unfold store_deal. destruct d as [[[pid tk] op] q].
  destruct (fetch_produit_id db tk); [|exists []; now rewrite app_nil_r].
  destruct (_ =? 0); [|exists []; now rewrite app_nil_r].
  simpl. eexists. reflexivity.
Qed.

Lemma existing_store_deal dt db d pid produit dt' op :
  existing db pid produit dt' op
  <= existing (store_deal dt db d) pid produit dt' op.
Proof.
  unfold existing. destruct (store_deal_extends dt db d) as [extra ->].
  rewrite count_app. pose proof (count_nonneg (filter (same_key pid produit dt' op) extra)).
  lia.
Qed.

Lemma store_deal_recorded dt db d : recorded (store_deal dt db d) dt d.
Proof.
  unfold recorded.
  rewrite (fetch_produit_id_Products _ db) by apply store_deal_Products.
  destruct d as [[[pid tk] op] q].
  unfold d_ticker, d_portfolio, d_operation; simpl fst; simpl snd.
  destruct (fetch_produit_id db tk) as [produit|] eqn:Hfetch; [|exact I].
  unfold store_deal. rewrite Hfetch.
  destruct (Z.eqb_spec (existing db pid produit dt op) 0) as [E|E].
  - unfold existing; simpl. rewrite count_app; simpl.
    rewrite same_key_own.
    pose proof (count_nonneg (filter (same_key pid produit dt op) (Deals db))).
    unfold Sql.count at 2; simpl. lia.
  - pose proof (count_nonneg (filter (same_key pid produit dt op) (Deals db))).
    unfold existing in *. lia.
Qed.

Lemma recorded_store_deal dt db d d' :
  recorded db dt d -> recorded (store_deal dt db d') dt d.
Proof.
  unfold recorded.
  rewrite (fetch_produit_id_Products (store_deal dt db d') db)
    by apply store_deal_Products.
  destruct (fetch_produit_id db (d_ticker d)) as [produit|]; [|trivial].
  pose proof (existing_store_deal dt db d' (d_portfolio d) produit dt (d_operation d)).
  lia.
Qed.

Lemma recorded_store_deals dt deals : forall db d,
  recorded db dt d -> recorded (store_deals db deals dt) dt d.
Proof.
  unfold store_deals. induction deals as [|d' deals IH]; simpl; intros db d H.
  - exact H.
  - apply IH. now apply recorded_store_deal.
Qed.

(** After a run every decision of the list is recorded. *)
Lemma store_deals_recorded dt deals : forall db d,
  In d deals -> recorded (store_deals db deals dt) dt d.
Proof.
  induction deals as [|d' deals IH]; intros db d Hin; [destruct Hin|].
  change (store_deals db (d' :: deals) dt)
    with (store_deals (store_deal dt db d') deals dt).
  destruct Hin as [->|Hin].
  - apply recorded_store_deals, store_deal_recorded.
  - now apply IH.
Qed.

Lemma store_deal_skips dt db d : recorded db dt d -> store_deal dt db d = db.
Proof.
  unfold recorded, store_deal. destruct d as [[[pid tk] op] q].
  unfold d_ticker, d_portfolio, d_operation; simpl fst; simpl snd.
  destruct (fetch_produit_id db tk) as [produit|]; [|reflexivity].
  intros H. destruct (Z.eqb_spec (existing db pid produit dt op) 0); [lia|].
  reflexivity.
Qed.

Lemma store_deals_skips dt db deals :
  (forall d, In d deals -> recorded db dt d) -> store_deals db deals dt = db.
Proof.
  unfold store_deals. induction deals as [|d deals IH]; simpl; intros H.
  - reflexivity.
  - rewrite store_deal_skips by (apply H; now left).
    apply IH. intros d' Hd'. apply H. now right.
Qed.

Lemma store_deals_twice (db : database) (deals : list decision) (dt : string) :
  store_deals (store_deals db deals dt) deals dt = store_deals db deals dt.
Proof.
  apply store_deals_skips. intros d Hd. now apply store_deals_recorded.
Qed.

(** *** At most one deal per key *)

Lemma unique_keys_nil : unique_keys [].
Proof. intros pid produit dt op. unfold key_count, Sql.count; simpl. lia. Qed.

Lemma unique_keys_filter (keep : deal -> bool) (ds : list deal) :
  unique_keys ds -> unique_keys (filter keep ds).
Proof.
  intros H pid produit dt op. specialize (H pid produit dt op).
  unfold key_count, Sql.count in *.
  assert (Hle : (List.length (filter (same_key pid produit dt op) (filter keep ds))
                 <= List.length (filter (same_key pid produit dt op) ds))%nat).
  { clear H. induction ds as [|d ds IH]; simpl; [lia|].
    destruct (keep d); simpl; destruct (same_key pid produit dt op d); simpl; lia. }
  lia.
Qed.

Lemma store_deal_unique dt db d :
  unique_keys (Deals db) -> unique_keys (Deals (store_deal dt db d)).
Proof.
  intros H. unfold store_deal. destruct d as [[[pid tk] op] q].
  destruct (fetch_produit_id db tk) as [produit|]; [|exact H].
  destruct (Z.eqb_spec (existing db pid produit dt op) 0) as [E|E]; [|exact H].
  intros pid' produit' dt' op'. simpl. unfold key_count.
  rewrite count_app. simpl.
  destruct (same_key pid' produit' dt' op' _) eqn:K.
  - apply same_key_eq in K. simpl in K. destruct K as (<- & <- & <- & <-).
    unfold existing in E. rewrite E. unfold Sql.count; simpl. lia.
  - specialize (H pid' produit' dt' op'). unfold key_count in H.
    unfold Sql.count at 2; simpl. lia.
Qed.

Lemma store_deals_unique dt deals : forall db,
  unique_keys (Deals db) -> unique_keys (Deals (store_deals db deals dt)).
Proof.
  unfold store_deals. induction deals as [|d deals IH]; simpl; intros db H.
  - exact H.
  - apply IH. now apply store_deal_unique.
Qed.

Lemma reachable_unique (db : database) : reachable db -> unique_keys (Deals db).
Proof.
  induction 1; simpl.
  - apply unique_keys_nil.
  - now apply store_deals_unique.
  - now apply unique_keys_filter.
  - assumption.
Qed.

(** C3.  Recording a list of decisions for a date a second time changes
    nothing, whatever the ledger: a decision whose (portfolio, product, date,
    operation) some deal already carries is skipped, and after a run every
    decision of the list is in that case.  A run keeps at most one deal per
    key, so no reachable ledger ever holds two. *)
Theorem store_deals_idempotent :
  (forall (db : database) (deals : list decision) (dt : string),
     store_deals (store_deals db deals dt) deals dt = store_deals db deals dt)
  /\ (forall (db : database) (dt : string) (pid : Z) (tk : string)
             (op : operation) (q produit : Z),
        fetch_produit_id db tk = Some produit ->
        0 < existing db pid produit dt op ->
        store_deal dt db (pid, tk, op, q) = db)
  /\ (forall (db : database) (deals : list decision) (dt : string),
        unique_keys (Deals db) -> unique_keys (Deals (store_deals db deals dt)))
  /\ (forall db : database, reachable db -> unique_keys (Deals db)).
Proof.
  split; [|split; [|split]].
  - exact store_deals_twice.
  - intros db dt pid tk op q produit Hfetch Hex.
    apply store_deal_skips. unfold recorded.
    unfold d_ticker, d_portfolio, d_operation; simpl. now rewrite Hfetch.
  - intros db deals dt. apply store_deals_unique.
  - exact reachable_unique.
Qed.

(** ** The Low turnover policy *)

(** The week of the month the code computes is the ceiling of day/7. *)
Lemma week_number_ceiling (day : Z) : week_number day = Qceiling (day # 7).
Proof.
  unfold week_number, Qceiling, Qfloor; simpl.
  Z.to_euclidean_division_equations; lia.
Qed.

Lemma low_turnover_scan_length draw db pid dt data :
  (List.length (low_turnover_scan draw db pid dt data) <= 1)%nat.
Proof.
  induction data as [|[tk df] data IH]; simpl; [lia|].
  destruct (negb (has_Returns df) || empty df); [exact IH|].
  destruct (0 <? get_current_position db pid tk dt);
    match goal with |- context [if ?c then _ else _] => destruct c end;
    simpl; solve [lia | exact IH].
Qed.

Lemma count_positive {A : Type} (f : A -> bool) (l : list A) (x : A) :
  In x l -> f x = true -> 0 < Sql.count (filter f l).
Proof.
  intros Hin Hf.
  assert (Hx : In x (filter f l)) by (apply filter_In; now split).
  unfold Sql.count. destruct (filter f l); [destruct Hx | simpl; lia].
Qed.

(** C6.  On a valid date [dt] whose day is [d]: when the week of the month,
    the ceiling of d/7, is neither 1 nor 3, the Low turnover policy returns
    the empty list whatever the frames; so it does when the portfolio
    already has a deal dated [dt]; and in every case it returns, with at
    most one decision. *)
Theorem low_turnover_gates (draw : Z) (db : database) (data : market_data)
    (pid : Z) (dt : string) (y m d : Z) :
  to_datetime dt = Ok (y, m, d) ->
  (Qceiling (d # 7) <> 1 -> Qceiling (d # 7) <> 3 ->
   apply_low_turnover_strategy draw db data pid dt = Ok [])
  /\ ((exists t, In t (Deals db) /\ portefeuille_id t = pid /\ date t = dt) ->
      apply_low_turnover_strategy draw db data pid dt = Ok [])
  /\ (exists ds,
        apply_low_turnover_strategy draw db data pid dt = Ok ds
        /\ (List.length ds <= 1)%nat).
Proof.
  intros Hdate. unfold apply_low_turnover_strategy. rewrite Hdate. simpl.
  rewrite orb_false_r, week_number_ceiling.
  repeat split.
  - intros H1 H3.
    destruct (Z.eqb_spec (Qceiling (d # 7)) 1); [contradiction|].
    destruct (Z.eqb_spec (Qceiling (d # 7)) 3); [contradiction|].
    reflexivity.
  - intros (t & Hin & Hpid & Hdt).
    destruct (negb _); [reflexivity|].
    assert (Hcount : 0 < trades_this_week db pid dt).
    { unfold trades_this_week. apply (count_positive _ _ t Hin).
      rewrite Hpid, Hdt, Z.eqb_refl, String.eqb_refl. reflexivity. }
    apply Z.ltb_lt in Hcount. now rewrite Hcount.
  - destruct (negb _); [exists []; split; [reflexivity | simpl; lia]|].
    destruct (0 <? _); [exists []; split; [reflexivity | simpl; lia]|].
    eexists; split; [reflexivity | apply low_turnover_scan_length].
Qed.

(** ** Position sizing *)

Lemma Qltb_lt (x y : Q) : Qltb x y = true <-> (x < y)%Q.
Proof. unfold Qltb, Qlt. apply Z.ltb_lt. Qed.

Lemma Qtrunc_lower (x : Q) (k : Z) :
  0 <= k -> (inject_Z k <= x)%Q -> k <= Qtrunc x.
Proof.
  destruct x as [n d]. unfold Qle, Qtrunc; simpl. intros Hk Hle.
  assert (Hn : 0 <= n) by nia.
  rewrite Z.quot_div_nonneg by lia.
  apply Z.div_le_lower_bound; lia.
Qed.

Lemma Qis_zero_positive (x : Q) : (0 < x)%Q -> Qis_zero x = false.
Proof.
  destruct x as [n d]. unfold Qlt, Qis_zero; simpl. intros H.
  apply Z.eqb_neq. lia.
Qed.

(** The sizing quotient on a positive finite volatility. *)
Lemma sizing_quotient (c : Z) (v : Q) :
  (0 < v)%Q ->
  int (div (of_Z c) (mul (Fin v) (of_Z 100)))
  = Ok (Qtrunc (inject_Z c / (v * inject_Z 100))).
Proof.
  intros Hv. unfold of_Z, mul, div.
  rewrite Qis_zero_positive; [reflexivity|].
  apply Qmult_lt_0_compat; [exact Hv | reflexivity].
Qed.

Lemma sizing_lower_bound (c k : Z) (v bound : Q) :
  (0 < v)%Q -> (v < bound)%Q -> 0 <= k ->
  (inject_Z k * (bound * inject_Z 100) <= inject_Z c)%Q ->
  k <= Qtrunc (inject_Z c / (v * inject_Z 100)).
Proof.
  intros Hv Hb Hk Hc. apply Qtrunc_lower; [exact Hk|].
  apply Qle_shift_div_l.
  - apply Qmult_lt_0_compat; [exact Hv | reflexivity].
  - eapply Qle_trans; [|exact Hc].
    assert (Hk' : (0 <= inject_Z k)%Q).
    { unfold Qle; simpl. lia. }
    apply Qmult_le_compat_nonneg.
    + split; [exact Hk' | apply Qle_refl].
    + split.
      * apply Qlt_le_weak, Qmult_lt_0_compat; [exact Hv | reflexivity].
      * apply Qmult_le_compat_r; [now apply Qlt_le_weak | discriminate].
Qed.

Lemma low_risk_size_saturates (v : Q) :
  (0 < v)%Q -> (v < 12 # 100)%Q ->
  exists n,
    int (div (of_Z 10000) (mul (Fin v) (of_Z 100))) = Ok n
    /\ 20 < n
    /\ low_risk_position_size (Fin v) = Ok 20.
Proof.
  intros Hv Hb.
  assert (Hn : 833 <= Qtrunc (inject_Z 10000 / (v * inject_Z 100))).
  { apply (sizing_lower_bound 10000 833 v (12 # 100)); try assumption; [lia|].
    vm_compute. discriminate. }
  eexists. split; [now apply sizing_quotient|]. split; [lia|].
  unfold low_risk_position_size. rewrite sizing_quotient by exact Hv. simpl.
  f_equal. lia.
Qed.

Lemma high_yield_size_saturates (v : Q) :
  (0 < v)%Q -> (v < 40 # 100)%Q ->
  exists n,
    int (div (of_Z 15000) (mul (Fin v) (of_Z 100))) = Ok n
    /\ 375 <= n
    /\ high_yield_position_size (Fin v) = Ok 25.
Proof.
  intros Hv Hb.
  assert (Hn : 375 <= Qtrunc (inject_Z 15000 / (v * inject_Z 100))).
  { apply (sizing_lower_bound 15000 375 v (40 # 100)); try assumption; [lia|].
    vm_compute. discriminate. }
  eexists. split; [now apply sizing_quotient|]. split; [lia|].
  unfold high_yield_position_size, max_position_size.
  rewrite sizing_quotient by exact Hv. simpl.
  f_equal. lia.
Qed.

(** A Buy of the Low risk policy passed [volatility < target * 1.2]. *)
Lemma low_risk_buy_gate db pid dt tk df ds d :
  low_risk_body db pid dt tk df = Ok ds -> In d ds -> d_operation d = achat ->
  ltb (volatility df) (mul target_volatility (Fin (12 # 10))) = true
  /\ exists n, low_risk_position_size (volatility df) = Ok n /\ d_quantity d = n.
Proof.
  unfold low_risk_body.
  destruct (negb (has_Returns df) || empty df); [intros [= <-] []|].
  destruct (fetch_type db tk) as [ty|]; cbn [bind]; [|discriminate].
  destruct (0 <? get_current_position db pid tk dt).
  - match goal with |- (if ?c then _ else _) = _ -> _ => destruct c end.
    + simpl. intros [= <-] [<-|[]]. discriminate.
    + intros [= <-] [].
  - destruct (gtb (returns_10d df) (of_Z 0) && gtb (returns_30d df) (of_Z 0));
      cbn [andb]; [|intros [= <-] []].
    destruct (ltb (volatility df) _) eqn:Hgate; [|intros [= <-] []].
    destruct (low_risk_position_size (volatility df)) as [n|]; cbn [bind];
      [|discriminate].
    intros [= <-] [<-|[]] _. split; [reflexivity|]. now exists n.
Qed.

(** A Buy of the High yield policy passed [volatility < 0.40]. *)
Lemma high_yield_buy_gate db pid dt tk df ds d :
  high_yield_body db pid dt tk df = Ok ds -> In d ds -> d_operation d = achat ->
  ltb (volatility df) (Fin (40 # 100)) = true
  /\ exists n, high_yield_position_size (volatility df) = Ok n /\ d_quantity d = n.
Proof.
  unfold high_yield_body.
  destruct (negb (has_Returns df) || empty df); [intros [= <-] []|].
  destruct (0 <? get_current_position db pid tk dt).
  - match goal with |- (if ?c then _ else _) = _ -> _ => destruct c end.
    + simpl. intros [= <-] [<-|[]]. discriminate.
    + intros [= <-] [].
  - destruct (gtb (returns_5d df) (of_Z 0) && gtb (returns_10d df) (of_Z 0)
              && gtb (returns_30d df) (of_Z 0));
      cbn [andb]; [|intros [= <-] []].
    destruct (ltb (volatility df) _) eqn:Hgate; [|intros [= <-] []].
    destruct (high_yield_position_size (volatility df)) as [n|]; cbn [bind];
      [|discriminate].
    intros [= <-] [<-|[]] _. split; [reflexivity|]. now exists n.
Qed.

(** C10.  For a volatility [v] with 0 < v < 0.12, [int(10000 / (v * 100))]
    is above 20 and the Low risk sizing returns 20; with 0 < v < 0.40,
    [int(15000 / (v * 100))] is at least 375 and the High yield sizing
    returns 25.  So every Buy either policy emits for a ticker of positive
    volatility has the quantity 20, respectively 25, whatever the
    volatility. *)
Theorem buy_size_saturates (v : Q) :
  (0 < v)%Q ->
  ((v < 12 # 100)%Q ->
   exists n,
     int (div (of_Z 10000) (mul (Fin v) (of_Z 100))) = Ok n
     /\ 20 < n
     /\ low_risk_position_size (Fin v) = Ok 20)
  /\ ((v < 40 # 100)%Q ->
      exists n,
        int (div (of_Z 15000) (mul (Fin v) (of_Z 100))) = Ok n
        /\ 375 <= n
        /\ high_yield_position_size (Fin v) = Ok 25)
  /\ (forall db pid dt tk df ds d,
        volatility df = Fin v ->
        low_risk_body db pid dt tk df = Ok ds ->
        In d ds -> d_operation d = achat -> d_quantity d = 20)
  /\ (forall db pid dt tk df ds d,
        volatility df = Fin v ->
        high_yield_body db pid dt tk df = Ok ds ->
        In d ds -> d_operation d = achat -> d_quantity d = 25).
Proof.
  intros Hv. split; [|split; [|split]].
  - now apply low_risk_size_saturates.
  - now apply high_yield_size_saturates.
  - intros db pid dt tk df ds d Hvol Hrun Hin Hop.
    destruct (low_risk_buy_gate db pid dt tk df ds d Hrun Hin Hop)
      as (Hgate & n & Hsize & ->).
    rewrite Hvol in Hgate, Hsize. simpl in Hgate. apply Qltb_lt in Hgate.
    destruct (low_risk_size_saturates v Hv) as (n' & _ & _ & Hsat).
    { eapply Qlt_le_trans; [exact Hgate|]. vm_compute. discriminate. }
    congruence.
  - intros db pid dt tk df ds d Hvol Hrun Hin Hop.
    destruct (high_yield_buy_gate db pid dt tk df ds d Hrun Hin Hop)
      as (Hgate & n & Hsize & ->).
    rewrite Hvol in Hgate, Hsize. simpl in Hgate. apply Qltb_lt in Hgate.
    destruct (high_yield_size_saturates v Hv Hgate) as (n' & _ & _ & Hsat).
    congruence.
Qed.

(** ** The scenarios of the specification, on the code *)

(** C1, on the code.  After a Buy of 10 AAPL on 2024-01-01 and a Sell of 10
    AAPL on 2024-01-08, the position as of 2024-01-08 is 10 - 10 = 0, which
    is what [get_current_position] returns; [get_portfolio_positions] still
    emits AAPL, with quantity 10, the running position of the first row of
    its group.  An engine keeping the last row of each group would emit
    nothing. *)
Theorem positions_query_reports_first_running_position :
  get_current_position Scenario.round_trip 1 "AAPL" "2024-01-08" = 0
  /\ get_portfolio_positions Scenario.round_trip 1 "2024-01-08"
     = [("AAPL"%string, Stock, 10)]
  /\ positions_query last_row Scenario.round_trip 1 "2024-01-08" = [].
Proof. repeat split; vm_compute; reflexivity. Qed.

(** C4, on the code.  No position, 10-day and 30-day mean returns of +0.5%
    and +0.3%, volatility 8%, target 10%: the Low risk policy buys 20, not
    12.  The volatility is a fraction, so [10000 / (0.08 * 100)] is 1250,
    which the clamp brings down to 20. *)
Theorem conservative_buy_is_20 :
  int (div (of_Z 10000) (mul (Fin (8 # 100)) (of_Z 100))) = Ok 1250
  /\ apply_low_risk_strategy Scenario.no_deal
       [("TLT"%string, Scenario.rising (Fin (8 # 100)))] 1 "2024-01-08"
     = Ok [(1, "TLT"%string, achat, 20)].
Proof. split; vm_compute; reflexivity. Qed.

(** C5, on the code.  With no position, positive mean returns and a
    volatility of exactly 0 (a constant return), the buy branch of the Low
    risk policy and of the High yield policy is taken, [10000 / (0 * 100)]
    (resp. [15000 / (0 * 100)]) is evaluated to an infinity, and [int]
    raises OverflowError out of the policy.  A NaN volatility fails the gate
    and the ticker is skipped. *)
Theorem zero_volatility_raises :
  apply_low_risk_strategy Scenario.no_deal
    [("TLT"%string, Scenario.steady (Fin 0))] 1 "2024-01-08"
  = Raise OverflowError
  /\ apply_high_yield_strategy Scenario.no_deal
       [("AAPL"%string, Scenario.steady (Fin 0))] 1 "2024-01-08"
     = Raise OverflowError
  /\ apply_low_risk_strategy Scenario.no_deal
       [("TLT"%string, Scenario.steady NaN)] 1 "2024-01-08"
     = Ok []
  /\ apply_high_yield_strategy Scenario.no_deal
       [("AAPL"%string, Scenario.steady NaN)] 1 "2024-01-08"
     = Ok [].
Proof. repeat split; vm_compute; reflexivity. Qed.

(** The stop-loss scenario: 20 AAPL held and a 30-day mean return of -8%;
    the High yield policy sells min(20, max(5, int(20 * 0.75))) = 15. *)
Theorem high_yield_stop_loss_sells_15 :
  get_current_position Scenario.holding_20 1 "AAPL" "2024-01-08" = 20
  /\ apply_high_yield_strategy Scenario.holding_20
       [("AAPL"%string, Scenario.falling)] 1 "2024-01-08"
     = Ok [(1, "AAPL"%string, vente, 15)].
Proof. split; vm_compute; reflexivity. Qed.

(** ** Instances *)

(** C6 on Monday 8 January 2024, in the second week of the month. *)
Lemma low_turnover_gates_witness :
  to_datetime "2024-01-08" = Ok (2024, 1, 8)
  /\ Qceiling (8 # 7) = 2
  /\ apply_low_turnover_strategy 17 Scenario.holding_20
       [("AAPL"%string, Scenario.falling)] 1 "2024-01-08"
     = Ok [].
Proof.
  split; [reflexivity|]. split; [reflexivity|].
  destruct (low_turnover_gates 17 Scenario.holding_20
              [("AAPL"%string, Scenario.falling)] 1 "2024-01-08" 2024 1 8)
    as (Hinactive & _ & _).
  - reflexivity.
  - apply Hinactive; intros H; vm_compute in H; discriminate H.
Defined.

(** C10 at a volatility of 8%. *)
Lemma buy_size_saturates_witness :
  (0 < 8 # 100)%Q
  /\ low_risk_position_size (Fin (8 # 100)) = Ok 20
  /\ high_yield_position_size (Fin (8 # 100)) = Ok 25.
Proof.
  assert (Hv : (0 < 8 # 100)%Q) by reflexivity.
  destruct (buy_size_saturates (8 # 100) Hv) as (Hlow & Hhigh & _).
  destruct Hlow as (n & _ & _ & Hlow); [reflexivity|].
  destruct Hhigh as (n' & _ & _ & Hhigh); [reflexivity|].
  repeat split; assumption.
Defined.

(** ** The performance engine *)

Import Performance.

Section PerformanceFacts.
Local Open Scope R_scope.

Lemma clip_bounds (x lo hi : R) : lo <= hi -> lo <= clip x lo hi <= hi.
Proof.
  intros H. unfold clip. split.
  - apply Rmin_glb; [apply Rmax_r | exact H].
  - apply Rmin_r.
Qed.

Lemma weekly_loop_clipped (value_at : string -> R) (mondays : list string) :
  forall previous_value,
    Forall MetricsSpec.clipped_sample (weekly_loop value_at previous_value mondays).
Proof.
  induction mondays as [|monday rest IH]; intros previous_value; simpl.
  - constructor.
  - apply Forall_app. split; [|apply IH].
    destruct previous_value as [previous|]; [|constructor].
    destruct (Rlt_dec 0 previous) as [Hpos|]; [|constructor].
    constructor; [|constructor]. split.
    + exists previous. split; [exact Hpos | reflexivity].
    + simpl. apply clip_bounds. lra.
Qed.

Lemma fold_left_Rmult (xs : list R) : forall a,
  fold_left Rmult xs a = a * fold_right Rmult 1 xs.
Proof.
  induction xs as [|x xs IH]; intros a; simpl; [lra|].
  rewrite IH. lra.
Qed.

Lemma fold_left_Rplus (xs : list R) : forall a,
  fold_left Rplus xs a = a + fold_right Rplus 0 xs.
Proof.
  induction xs as [|x xs IH]; intros a; simpl; [lra|].
  rewrite IH. lra.
Qed.

Lemma prod_compounded (rs : list R) :
  prod (map (fun r => 1 + r) rs) = MetricsSpec.compounded rs.
Proof.
  unfold prod. rewrite fold_left_Rmult, Rmult_1_l.
  induction rs as [|r rs IH]; simpl; [reflexivity|]. now rewrite IH.
Qed.

Lemma total_sum (xs : list R) : Performance.total xs = MetricsSpec.sum xs.
Proof.
  unfold Performance.total, MetricsSpec.sum. rewrite fold_left_Rplus. lra.
Qed.

Lemma compounded_positive (rs : list R) :
  Forall (fun r => -1 < r) rs -> 0 < MetricsSpec.compounded rs.
Proof.
  induction 1 as [|r rs Hr _ IH]; simpl; [lra|].
  apply Rmult_lt_0_compat; [lra | exact IH].
Qed.

Lemma std_stdev (rs : list R) :
  (2 <= List.length rs)%nat -> std rs = Some (MetricsSpec.stdev rs).
Proof.
  intros Hlen. unfold std.
  destruct (Nat.ltb_spec (List.length rs) 2) as [Hlt|_]; [lia|].
  unfold MetricsSpec.stdev, Performance.mean, MetricsSpec.average.
  now rewrite !total_sum.
Qed.

End PerformanceFacts.

(** C8.  Every sample [get_weekly_returns] produces holds the ratio of the
    portfolio value to the previous positive value, minus one, clipped to
    [-0.10, 0.10]; its return lies in that interval. *)
Theorem weekly_returns_clipped (mk : market) (db : database) (pid : Z)
    (mondays : list string) :
  Forall (fun w =>
            (exists previous,
                (0 < previous)%R
                /\ wr_return w
                   = clip (wr_value w / previous - 1) (- (10 / 100)) (10 / 100))
            /\ (- (10 / 100) <= wr_return w <= 10 / 100)%R)
    (get_weekly_returns mk db pid mondays).
Proof.
  unfold get_weekly_returns. apply weekly_loop_clipped.
Qed.

(** C9.  When the range yields fewer than two weekly samples the metrics are
    the all-zero record: total return, annualised return, annualised
    volatility, Sharpe ratio and maximum drawdown are 0.  The function is
    total, it raises nothing. *)
Theorem metrics_zero_below_two_samples (mk : market) (db : database)
    (pid : Z) (mondays : list string) :
  (List.length (get_weekly_returns mk db pid mondays) < 2)%nat ->
  calculate_performance_metrics mk db pid mondays = zero_metrics
  /\ rendement_total zero_metrics = 0%R
  /\ rendement_annualise zero_metrics = 0%R
  /\ volatilite_annualisee zero_metrics = 0%R
  /\ ratio_sharpe zero_metrics = 0%R
  /\ drawdown_max zero_metrics = 0%R.
Proof.
  intros Hlen. unfold calculate_performance_metrics, metrics_of.
  destruct (Nat.ltb_spec (List.length (get_weekly_returns mk db pid mondays)) 2)
    as [_|Hge]; [|lia].
  repeat split.
Qed.

(** C7.  With at least two weekly samples, of returns [rs]: the total return
    is the product of the (1 + r) minus 1; the annualised return is
    (1 + total) to the power 52/n, minus 1, with a positive base; the
    annualised volatility is the standard deviation of [rs] times the square
    root of 52; the Sharpe ratio is (annualised return - 0.02) over the
    volatility when that is not 0, and 0 when it is. *)
Theorem metrics_formulas (mk : market) (db : database) (pid : Z)
    (mondays : list string) :
  (2 <= List.length (get_weekly_returns mk db pid mondays))%nat ->
  let rs := map wr_return (get_weekly_returns mk db pid mondays) in
  let n := INR (List.length (get_weekly_returns mk db pid mondays)) in
  let m := calculate_performance_metrics mk db pid mondays in
  rendement_total m = (MetricsSpec.compounded rs - 1)%R
  /\ (0 < 1 + rendement_total m)%R
  /\ rendement_annualise m = (Rpower (1 + rendement_total m) (52 / n) - 1)%R
  /\ volatilite_annualisee m = (MetricsSpec.stdev rs * sqrt 52)%R
  /\ (volatilite_annualisee m <> 0%R ->
      ratio_sharpe m
      = ((rendement_annualise m - 2 / 100) / volatilite_annualisee m)%R)
  /\ (volatilite_annualisee m = 0%R -> ratio_sharpe m = 0%R).
Proof.
  intros Hlen rs n m. subst m.
  unfold calculate_performance_metrics, metrics_of.
  destruct (Nat.ltb_spec (List.length (get_weekly_returns mk db pid mondays)) 2)
    as [Hlt|_]; [lia|].
  cbn [rendement_total rendement_annualise volatilite_annualisee ratio_sharpe].
  fold rs. fold n.
  rewrite prod_compounded, std_stdev by (unfold rs; now rewrite length_map).
  repeat split.
  - assert (Hpos : (0 < MetricsSpec.compounded rs)%R).
    { apply compounded_positive. unfold rs. apply Forall_map.
      eapply Forall_impl; [|apply weekly_loop_clipped].
      intros w (_ & Hw). lra. }
    lra.
  - intros Hvol. destruct (Req_dec_T _ 0%R); [contradiction | reflexivity].
  - intros Hvol. destruct (Req_dec_T _ 0%R); [reflexivity | contradiction].
Qed.

(** *** Instances *)

Lemma flat_value (monday : string) :
  get_portfolio_positions Scenario.holding_20 1 monday
  = [("AAPL"%string, Stock, 20)] ->
  fst (get_portfolio_value_and_return Scenario.flat_market Scenario.holding_20
         1 monday)
  = (0 + 100 * 20)%R.
Proof.
  intros H. unfold get_portfolio_value_and_return. rewrite H. reflexivity.
Qed.

Lemma three_mondays_samples :
  List.length
    (get_weekly_returns Scenario.flat_market Scenario.holding_20 1
       Scenario.three_mondays)
  = 2%nat.
Proof.
  unfold get_weekly_returns, Scenario.three_mondays. cbn [weekly_loop].
  rewrite !flat_value by (vm_compute; reflexivity).
  assert (Hpos : forall (A : Type) (a b : A),
             (if Rlt_dec 0 (0 + 100 * 20) then a else b) = a).
  { intros A a b. destruct (Rlt_dec 0 (0 + 100 * 20)) as [_|Hn];
      [reflexivity | exfalso; apply Hn; lra]. }
  rewrite !Hpos. cbn iota. rewrite ?Hpos. reflexivity.
Qed.

(** C9 on a single Monday. *)
Lemma metrics_zero_below_two_samples_witness :
  (List.length
     (get_weekly_returns Scenario.flat_market Scenario.holding_20 1
        ["2024-01-08"%string]) < 2)%nat
  /\ calculate_performance_metrics Scenario.flat_market Scenario.holding_20 1
       ["2024-01-08"%string]
     = zero_metrics.
Proof.
  assert (Hlen : (List.length
                    (get_weekly_returns Scenario.flat_market Scenario.holding_20 1
                       ["2024-01-08"%string]) < 2)%nat).
  { unfold get_weekly_returns. cbn [weekly_loop app List.length]. lia. }
  split; [exact Hlen|].
  apply (metrics_zero_below_two_samples _ _ _ _ Hlen).
Defined.

(** C7 on three Mondays of a portfolio holding 20 AAPL. *)
Lemma metrics_formulas_witness :
  (2 <= List.length
          (get_weekly_returns Scenario.flat_market Scenario.holding_20 1
             Scenario.three_mondays))%nat
  /\ rendement_total
       (calculate_performance_metrics Scenario.flat_market Scenario.holding_20 1
          Scenario.three_mondays)
     = (MetricsSpec.compounded
          (map wr_return
             (get_weekly_returns Scenario.flat_market Scenario.holding_20 1
                Scenario.three_mondays)) - 1)%R.
Proof.
  assert (Hlen : (2 <= List.length
                         (get_weekly_returns Scenario.flat_market
                            Scenario.holding_20 1 Scenario.three_mondays))%nat).
  { rewrite three_mondays_samples. lia. }
  split; [exact Hlen|].
  apply (metrics_formulas _ _ _ _ Hlen).
Defined.

(** * The rest of the code *)

(** ** Dates as strings: the order *)

Lemma string_compare_trans (a : string) : forall b c,
  String.compare a b <> Gt -> String.compare b c <> Gt ->
  String.compare a c <> Gt.
Proof.
  induction a as [|x a IH]; intros [|y b] [|z c]; simpl; try congruence.
  unfold Ascii.compare.
  destruct (N.compare_spec (N_of_ascii x) (N_of_ascii y)),
           (N.compare_spec (N_of_ascii y) (N_of_ascii z)),
           (N.compare_spec (N_of_ascii x) (N_of_ascii z));
    try congruence; try lia; eauto.
Qed.

Lemma leb_not_gt (a b : string) :
  String.leb a b = true <-> String.compare a b <> Gt.
Proof.
  unfold String.leb. destruct (String.compare a b); split; congruence.
Qed.

Lemma leb_trans (a b c : string) :
  String.leb a b = true -> String.leb b c = true -> String.leb a c = true.
Proof.
  rewrite !leb_not_gt. apply string_compare_trans.
Qed.

Lemma leb_false_flip (a b : string) :
  String.leb a b = false -> String.leb b a = true.
Proof.
  intros H. destruct (String.leb_total a b) as [H'|H']; congruence.
Qed.

Lemma ltb_lt (a b : string) :
  String.ltb a b = true <-> String.compare a b = Lt.
Proof.
  unfold String.ltb. destruct (String.compare a b); split; congruence.
Qed.

Lemma compare_refl (a : string) : String.compare a a = Eq.
Proof.
  pose proof (String.compare_antisym a a) as H.
  destruct (String.compare a a); simpl in H; congruence.
Qed.

Lemma lt_trans_string (a b c : string) :
  String.compare a b = Lt -> String.compare b c = Lt -> String.compare a c = Lt.
Proof.
  intros Hab Hbc.
  assert (Hn : String.compare a c <> Gt)
    by (apply (string_compare_trans a b c); congruence).
  destruct (String.compare a c) eqn:Hac; [|reflexivity|congruence].
  apply String.compare_eq_iff in Hac. subst c.
  rewrite String.compare_antisym, Hab in Hbc. discriminate.
Qed.

(** ** [ORDER BY] *)

Section OrderByFacts.
Context {A : Type} (le : A -> A -> bool).
Hypothesis le_total : forall x y, le x y = false -> le y x = true.
Hypothesis le_trans : forall x y z, le x y = true -> le y z = true -> le x z = true.

Lemma insert_sorted_perm (x : A) (l : list A) :
  Permutation (x :: l) (Sql.insert_sorted le x l).
Proof.
  induction l as [|y l IH]; simpl; [reflexivity|].
  destruct (le x y); [reflexivity|].
  rewrite perm_swap. now apply perm_skip.
Qed.

Lemma order_by_perm (l : list A) : Permutation l (Sql.order_by le l).
Proof.
  induction l as [|x l IH]; simpl; [reflexivity|].
  rewrite <- insert_sorted_perm. now apply perm_skip.
Qed.

Lemma order_by_In (l : list A) (x : A) : In x (Sql.order_by le l) <-> In x l.
Proof.
  split; apply Permutation_in; [symmetry|]; apply order_by_perm.
Qed.

Lemma insert_sorted_sorted (x : A) (l : list A) :
  StronglySorted (fun a b => le a b = true) l ->
  StronglySorted (fun a b => le a b = true) (Sql.insert_sorted le x l).
Proof.
  induction 1 as [|y l Hs IH Hy]; simpl.
  - repeat constructor.
  - destruct (le x y) eqn:Hxy.
    + constructor; [now constructor|].
      constructor; [exact Hxy|].
      rewrite Forall_forall in *. intros z Hz. eapply le_trans; eauto.
    + constructor; [exact IH|].
      rewrite Forall_forall in *. intros z Hz.
      apply (Permutation_in _ (Permutation_sym (insert_sorted_perm x l))) in Hz.
      destruct Hz as [<-|Hz]; [now apply le_total | now apply Hy].
Qed.

Lemma order_by_sorted (l : list A) :
  StronglySorted (fun a b => le a b = true) (Sql.order_by le l).
Proof.
  induction l as [|x l IH]; simpl; [constructor|].
  now apply insert_sorted_sorted.
Qed.

Lemma filter_sorted (keep : A -> bool) (l : list A) :
  StronglySorted (fun a b => le a b = true) l ->
  StronglySorted (fun a b => le a b = true) (filter keep l).
Proof.
  induction 1 as [|y m Hs IH Hy]; simpl; [constructor|].
  destruct (keep y); [|exact IH].
  constructor; [exact IH|].
  rewrite Forall_forall in *. intros z Hz. apply filter_In in Hz.
  now apply Hy.
Qed.

(** The first row of a filtered, ordered list is a least kept row. *)
Lemma first_of_sorted (keep : A -> bool) (l : list A) (r : A) (rest : list A) :
  (forall x, le x x = true) ->
  filter keep (Sql.order_by le l) = r :: rest ->
  In r l /\ keep r = true
  /\ forall x, In x l -> keep x = true -> le r x = true.
Proof.
  intros le_refl Hf.
  assert (Hin : In r (filter keep (Sql.order_by le l)))
    by (rewrite Hf; now left).
  apply filter_In in Hin. destruct Hin as [Hin Hk].
  split; [now apply order_by_In|]. split; [exact Hk|].
  intros x Hx Hkx.
  pose proof (filter_sorted keep _ (order_by_sorted l)) as Hs.
  rewrite Hf in Hs. inversion Hs as [|? ? _ Hall]; subst.
  assert (Hx' : In x (r :: rest)).
  { rewrite <- Hf. apply filter_In. split; [now apply order_by_In | exact Hkx]. }
  destruct Hx' as [<-|Hx']; [apply le_refl|].
  rewrite Forall_forall in Hall. now apply Hall.
Qed.

End OrderByFacts.

(** ** What [store_deals] writes *)

Lemma store_deal_Returns dt db d : Returns (store_deal dt db d) = Returns db.
Proof.
  unfold store_deal. destruct d as [[[pid tk] op] q].
  destruct (fetch_produit_id db tk); [|reflexivity].
  destruct (_ =? 0); reflexivity.
Qed.

Lemma store_deal_appends dt db d :
  exists added,
    Deals (store_deal dt db d) = Deals db ++ added
    /\ (List.length added <= 1)%nat
    /\ Forall (copies db [d] dt) added.
Proof.
  unfold store_deal. destruct d as [[[pid tk] op] q].
  destruct (fetch_produit_id db tk) as [produit|] eqn:Hfetch.
  2: { exists []. rewrite app_nil_r. repeat split; [simpl; lia | constructor]. }
  destruct (_ =? 0).
  2: { exists []. rewrite app_nil_r. repeat split; [simpl; lia | constructor]. }
  eexists. split; [reflexivity|]. split; [simpl; lia|].
  constructor; [|constructor]. split; [reflexivity|].
  exists (pid, tk, op, q). repeat split; [now left | exact Hfetch].
Qed.

Lemma copies_weaken db db' deals deals' dt t :
  Products db = Products db' ->
  (forall d, In d deals -> In d deals') ->
  copies db deals dt t -> copies db' deals' dt t.
Proof.
  intros HP Hincl (Hd & d & Hin & H1 & H2 & H3 & H4).
  split; [exact Hd|]. exists d. repeat split; auto.
  now rewrite <- (fetch_produit_id_Products db db').
Qed.

Lemma store_deals_appends dt deals : forall db,
  exists added,
    Deals (store_deals db deals dt) = Deals db ++ added
    /\ (List.length added <= List.length deals)%nat
    /\ Forall (copies db deals dt) added.
Proof.
  induction deals as [|d deals IH]; intros db.
  - exists []. simpl. rewrite app_nil_r. repeat split; [lia | constructor].
  - change (store_deals db (d :: deals) dt)
      with (store_deals (store_deal dt db d) deals dt).
    destruct (IH (store_deal dt db d)) as (rest & Hrest & Hlen & Hcopies).
    destruct (store_deal_appends dt db d) as (first & Hfirst & Hlen1 & Hcopy1).
    exists (first ++ rest). split; [|split].
    + rewrite Hrest, Hfirst. now rewrite app_assoc.
    + rewrite length_app. simpl. lia.
    + apply Forall_app. split.
      * eapply Forall_impl; [|exact Hcopy1]. intros t Ht.
        eapply copies_weaken; [reflexivity| |exact Ht].
        intros x [<-|[]]. now left.
      * eapply Forall_impl; [|exact Hcopies]. intros t Ht.
        eapply copies_weaken; [apply store_deal_Products| |exact Ht].
        intros x Hx. now right.
Qed.

Lemma deal_after_not_joined (t : deal) pid tk dt' (ps : list product) :
  String.leb (date t) dt' = false ->
  flat_map (fun p =>
              if (produit_id t =? p_id p) && (portefeuille_id t =? pid)
                 && String.eqb (ticker p) tk && String.leb (date t) dt'
              then [t] else []) ps
  = [].
Proof.
  intros H. induction ps as [|p ps IH]; simpl; [reflexivity|].
  rewrite IH, app_nil_r, H, andb_false_r. reflexivity.
Qed.

Lemma store_deals_Returns deals : forall db dt,
  Returns (store_deals db deals dt) = Returns db.
Proof.
  unfold store_deals. induction deals as [|d deals IH]; simpl; intros db dt.
  - reflexivity.
  - rewrite IH. apply store_deal_Returns.
Qed.

(** [store_deals] only appends to [Deals]: the other tables and the deals
    already there are left as they are; each decision adds at most one deal;
    an added deal is dated [dt] and carries the portfolio, operation and
    quantity of a decision whose ticker the catalogue resolves to its
    product.  Positions as of a date before [dt] are therefore unchanged. *)
Theorem store_deals_only_appends (db : database) (deals : list decision)
    (dt : string) :
  Products (store_deals db deals dt) = Products db
  /\ Returns (store_deals db deals dt) = Returns db
  /\ (exists added,
        Deals (store_deals db deals dt) = Deals db ++ added
        /\ (List.length added <= List.length deals)%nat
        /\ Forall (fun t =>
                     date t = dt
                     /\ exists d, In d deals
                          /\ portefeuille_id t = d_portfolio d
                          /\ type_operation t = d_operation d
                          /\ quantite t = d_quantity d
                          /\ fetch_produit_id db (d_ticker d) = Some (produit_id t))
             added)
  /\ (forall pid tk dt',
        String.leb dt dt' = false ->
        get_current_position (store_deals db deals dt) pid tk dt'
        = get_current_position db pid tk dt').
Proof.
  destruct (store_deals_appends dt deals db) as (added & Hadd & Hlen & Hcopies).
  assert (HP : Products (store_deals db deals dt) = Products db)
    by apply store_deals_Products.
  split; [exact HP|]. split; [apply store_deals_Returns|].
  split; [exists added; auto|].
  intros pid tk dt' Hbefore. rewrite !get_current_position_total.
  assert (Hrows : position_rows (store_deals db deals dt) pid tk dt'
                  = position_rows db pid tk dt').
  { unfold position_rows at 1. rewrite HP, Hadd, flat_map_app.
    fold (position_rows db pid tk dt').
    rewrite <- (app_nil_r (position_rows db pid tk dt')) at 2. f_equal.
    clear Hadd Hlen. induction Hcopies as [|t added (Hdt & _) _ IH]; simpl;
      [reflexivity|].
    rewrite IH, app_nil_r. apply deal_after_not_joined. now rewrite Hdt. }
  now rewrite Hrows.
Qed.

(** ** Dicts *)

Section DictFacts.
Context {K V : Type} (eqb : K -> K -> bool).
Hypothesis eqb_eq : forall a b, eqb a b = true <-> a = b.

Lemma dict_set_keys (k : K) (v : V) (d : list (K * V)) :
  map fst (Dict.set eqb k v d)
  = if existsb (eqb k) (map fst d) then map fst d else map fst d ++ [k].
Proof.
  induction d as [|[k' v'] d IH]; simpl; [reflexivity|].
  destruct (eqb k k') eqn:E; simpl.
  - apply eqb_eq in E. now subst.
  - rewrite IH. now destruct (existsb (eqb k) (map fst d)).
Qed.

Lemma dict_set_In_keys (k k' : K) (v : V) (d : list (K * V)) :
  In k' (map fst (Dict.set eqb k v d)) <-> k' = k \/ In k' (map fst d).
Proof.
  rewrite dict_set_keys.
  destruct (existsb (eqb k) (map fst d)) eqn:E.
  - apply existsb_exists in E. destruct E as (x & Hx & Hk).
    apply eqb_eq in Hk. subst x. split; [auto|]. intros [->|H]; auto.
  - rewrite in_app_iff. simpl. intuition.
Qed.

Lemma dict_set_NoDup (k : K) (v : V) (d : list (K * V)) :
  NoDup (map fst d) -> NoDup (map fst (Dict.set eqb k v d)).
Proof.
  intros Hnd. rewrite dict_set_keys.
  destruct (existsb (eqb k) (map fst d)) eqn:E; [exact Hnd|].
  apply NoDup_app; [exact Hnd | repeat constructor; intros [] |].
  intros x Hx [<-|[]].
  assert (existsb (eqb k) (map fst d) = true); [|congruence].
  apply existsb_exists. exists k. split; [exact Hx | now apply eqb_eq].
Qed.

Lemma dict_get_set (k k' : K) (v : V) (d : list (K * V)) :
  Dict.get eqb k' (Dict.set eqb k v d)
  = if eqb k' k then Some v else Dict.get eqb k' d.
Proof.
  induction d as [|[k0 v0] d IH]; simpl.
  - reflexivity.
  - destruct (eqb k k0) eqn:E; simpl.
    + apply eqb_eq in E. subst k0. now destruct (eqb k' k).
    + rewrite IH. destruct (eqb k' k0) eqn:E0; [|reflexivity].
      apply eqb_eq in E0. subst k0.
      destruct (eqb k' k) eqn:E1; [|reflexivity].
      apply eqb_eq in E1. subst k'.
      assert (eqb k k = true) by now apply eqb_eq. congruence.
Qed.

Lemma dict_get_In (k : K) (v : V) (d : list (K * V)) :
  Dict.get eqb k d = Some v -> In (k, v) d.
Proof.
  induction d as [|[k0 v0] d IH]; simpl; [discriminate|].
  destruct (eqb k k0) eqn:E.
  - apply eqb_eq in E. subst k0. intros [= ->]. now left.
  - intros H. right. now apply IH.
Qed.

Lemma dict_get_None (k : K) (d : list (K * V)) :
  Dict.get eqb k d = None <-> ~ In k (map fst d).
Proof.
  induction d as [|[k0 v0] d IH]; simpl; [tauto|].
  destruct (eqb k k0) eqn:E.
  - apply eqb_eq in E. subst k0. split; [discriminate | intros H; exfalso; auto].
  - rewrite IH. split.
    + intros H [->|H']; [|auto].
      assert (eqb k k = true) by now apply eqb_eq. congruence.
    + intros H H'. apply H. now right.
Qed.

Lemma dict_In_get (k : K) (v : V) (d : list (K * V)) :
  NoDup (map fst d) -> In (k, v) d -> Dict.get eqb k d = Some v.
Proof.
  induction d as [|[k0 v0] d IH]; simpl; intros Hnd Hin; [destruct Hin|].
  inversion Hnd as [|? ? Hnotin Hnd']; subst.
  destruct Hin as [[= -> ->]|Hin].
  - assert (eqb k k = true) as -> by now apply eqb_eq. reflexivity.
  - destruct (eqb k k0) eqn:E.
    + apply eqb_eq in E. subst k0. exfalso. apply Hnotin.
      apply in_map_iff. now exists (k, v).
    + now apply IH.
Qed.

End DictFacts.

(** ** The eligible products and the full run of a policy *)

Lemma get_market_data_keys (load : string -> string -> option DataFrame)
    (dt : string) (tickers : list string) : forall md,
  NoDup (map fst md) ->
  NoDup (map fst
           (fold_left (fun market_data tk =>
                         match load tk dt with
                         | Some df => Dict.set String.eqb tk df market_data
                         | None => market_data
                         end) tickers md))
  /\ forall tk,
       In tk (map fst
                (fold_left (fun market_data tk =>
                              match load tk dt with
                              | Some df => Dict.set String.eqb tk df market_data
                              | None => market_data
                              end) tickers md)) ->
       In tk (map fst md) \/ (In tk tickers /\ load tk dt <> None).
Proof.
  induction tickers as [|t tickers IH]; simpl; intros md Hnd.
  - split; [exact Hnd | auto].
  - destruct (load t dt) as [df|] eqn:Hload.
    + destruct (IH (Dict.set String.eqb t df md)) as [Hn Hk].
      { apply dict_set_NoDup; [apply String.eqb_eq | exact Hnd]. }
      split; [exact Hn|]. intros tk Htk.
      destruct (Hk tk Htk) as [H|[H H']]; [|now right; split; [right|]].
      apply (dict_set_In_keys _ String.eqb_eq) in H.
      destruct H as [->|H]; [right|now left].
      split; [now left | congruence].
    + destruct (IH md Hnd) as [Hn Hk].
      split; [exact Hn|]. intros tk Htk.
      destruct (Hk tk Htk) as [H|[H H']]; [now left | right; split; [now right|exact H']].
Qed.

(** The frames [get_market_data] returns are those of distinct tickers
    among the ones asked for. *)
Lemma get_market_data_dict (load : string -> string -> option DataFrame)
    (tickers : list string) (dt : string) :
  NoDup (map fst (Engine.get_market_data load tickers dt))
  /\ forall tk,
       In tk (map fst (Engine.get_market_data load tickers dt)) ->
       In tk tickers /\ load tk dt <> None.
Proof.
  unfold Engine.get_market_data.
  destruct (get_market_data_keys load dt tickers []) as [Hn Hk];
    [constructor|].
  split; [exact Hn|]. intros tk Htk. destruct (Hk tk Htk) as [[]|H]; exact H.
Qed.

Lemma eligible_cases (strategy : string) (ty : asset_type) :
  Engine.eligible strategy ty = true ->
  strategy = "Low risk"%string
  \/ (strategy = "Low turnover"%string /\ (ty = Stock \/ ty = ETF))
  \/ (strategy = "High yield equity"%string /\ ty = Stock).
Proof.
  unfold Engine.eligible.
  destruct (String.eqb_spec strategy "Low risk"); [auto|].
  destruct (String.eqb_spec strategy "Low turnover"); simpl.
  - destruct ty; simpl; auto.
    destruct (String.eqb_spec strategy "High yield equity"); simpl;
      [congruence | discriminate].
  - destruct (String.eqb_spec strategy "High yield equity"); simpl;
      [|discriminate].
    destruct ty; simpl; auto; discriminate.
Qed.

(** Every ticker [get_products_by_strategy] returns is an asset allocated to
    the client of the portfolio and the ticker of a product of the
    catalogue whose type the strategy admits: any type for "Low risk",
    Stock or ETF for "Low turnover", Stock only for "High yield equity";
    another strategy name gets no ticker.  The "High yield equity" tickers
    are among the "Low turnover" ones, which are among the "Low risk"
    ones. *)
Theorem products_by_strategy_are_eligible (acc : tables) (db : database)
    (strategy : string) (pid : Z) :
  Forall (fun tk =>
            exists a po p,
              In a (Allocations acc) /\ In po (Portfolios acc)
              /\ In p (Products db)
              /\ po_id po = pid /\ a_client_id a = po_client_id po
              /\ actif a = tk /\ ticker p = tk
              /\ (strategy = "Low risk"%string
                  \/ (strategy = "Low turnover"%string
                      /\ (p_type p = Stock \/ p_type p = ETF))
                  \/ (strategy = "High yield equity"%string
                      /\ p_type p = Stock)))
    (Engine.get_products_by_strategy acc db strategy pid)
  /\ incl (Engine.get_products_by_strategy acc db "High yield equity" pid)
          (Engine.get_products_by_strategy acc db "Low turnover" pid)
  /\ incl (Engine.get_products_by_strategy acc db "Low turnover" pid)
          (Engine.get_products_by_strategy acc db "Low risk" pid).
Proof.
  unfold Engine.get_products_by_strategy. split; [|split].
  - apply Forall_forall. intros tk Htk.
    apply in_map_iff in Htk. destruct Htk as ([tk' ty] & <- & Hin).
    apply filter_In in Hin. destruct Hin as [Hin Hel]. simpl in *.
    unfold Engine.allocations_of in Hin.
    apply in_flat_map in Hin. destruct Hin as (a & Ha & Hin).
    apply in_flat_map in Hin. destruct Hin as (po & Hpo & Hin).
    apply in_flat_map in Hin. destruct Hin as (p & Hp & Hin).
    destruct (_ && _) eqn:Hc in Hin; [|destruct Hin].
    destruct Hin as [[= <- <-]|[]].
    rewrite !andb_true_iff, !Z.eqb_eq, String.eqb_eq in Hc.
    destruct Hc as ((Hcl & Htk) & Hpid).
    exists a, po, p. repeat split; auto.
    now apply eligible_cases.
  - intros tk Htk. apply in_map_iff in Htk. destruct Htk as (row & <- & Hin).
    apply filter_In in Hin. destruct Hin as [Hin Hel].
    apply in_map. apply filter_In. split; [exact Hin|].
    apply eligible_cases in Hel.
    destruct Hel as [H|[[H _]|[_ H]]]; try discriminate.
    unfold Engine.eligible. simpl. now rewrite H.
  - intros tk Htk. apply in_map_iff in Htk. destruct Htk as (row & <- & Hin).
    apply filter_In in Hin. destruct Hin as [Hin Hel].
    apply in_map. apply filter_In. split; [exact Hin | reflexivity].
Qed.

Lemma engine_run_output
    (load : string -> string -> option DataFrame) (draw : Z) (acc : tables)
    (db : database) (strategy : string) (pid : Z) (dt : string)
    (ds : list decision) :
  15 <= draw <= 25 ->
  Engine.apply_strategy load draw acc db strategy pid dt = Ok ds ->
  Forall (safe_decision db pid dt) ds
  /\ NoDup (map d_ticker ds)
  /\ (forall d, In d ds ->
        In (d_ticker d) (Engine.get_products_by_strategy acc db strategy pid)
        /\ load (d_ticker d) dt <> None).
Proof.
  intros Hdraw. unfold Engine.apply_strategy.
  destruct (Engine.get_products_by_strategy acc db strategy pid)
    as [|t tickers] eqn:Htickers.
  { intros [= <-]. split; [constructor|]. split; [constructor|]. intros d []. }
  rewrite <- Htickers. intros Hrun.
  pose proof (apply_strategy_output draw db _ strategy pid dt ds Hdraw Hrun)
    as (Hsafe & Hin & Hnd).
  destruct (get_market_data_dict load
              (Engine.get_products_by_strategy acc db strategy pid) dt)
    as [Hnd' Hkeys].
  split; [exact Hsafe|]. split; [now apply Hnd|].
  intros d Hd. apply Hkeys. now apply Hin.
Qed.

Lemma safe_run_keeps_positions db pid dt ds :
  Forall (safe_decision db pid dt) ds ->
  NoDup (map d_ticker ds) ->
  distinct_ids db ->
  forall tk,
    0 <= get_current_position db pid tk dt ->
    0 <= get_current_position (store_deals db ds dt) pid tk dt.
Proof.
  intros Hsafe Hnd Hids tk Hpos.
  destruct (store_deals_position dt pid tk ds db Hids Hnd)
    as [->|(d & Hin & Htk & Hpid & ->)]; [exact Hpos|].
  rewrite Forall_forall in Hsafe.
  destruct (Hsafe d Hin) as (_ & Hq & Hs).
  unfold decision_delta. rewrite Htk in Hs.
  destruct (d_operation d); [lia|]. specialize (Hs eq_refl). lia.
Qed.

(** A run of [apply_strategy] trades only tickers the strategy makes
    eligible for the portfolio and for which a frame was loaded, at most
    once each, with a positive quantity, a Sell within the position held;
    recorded in a catalogue with distinct product ids, it leaves every
    position that was not negative at the date not negative.  [draw] is the
    value [random.randint(15, 25)] returns. *)
Theorem apply_strategy_trades_eligible
    (load : string -> string -> option DataFrame) (draw : Z) (acc : tables)
    (db : database) (strategy : string) (pid : Z) (dt : string)
    (ds : list decision) :
  15 <= draw <= 25 ->
  Engine.apply_strategy load draw acc db strategy pid dt = Ok ds ->
  Forall (fun d =>
            d_portfolio d = pid
            /\ In (d_ticker d) (Engine.get_products_by_strategy acc db strategy pid)
            /\ load (d_ticker d) dt <> None
            /\ 0 < d_quantity d
            /\ (d_operation d = vente ->
                d_quantity d <= get_current_position db pid (d_ticker d) dt))
    ds
  /\ NoDup (map d_ticker ds)
  /\ (distinct_ids db ->
      forall tk,
        0 <= get_current_position db pid tk dt ->
        0 <= get_current_position (store_deals db ds dt) pid tk dt).
Proof.
  intros Hdraw Hrun.
  destruct (engine_run_output load draw acc db strategy pid dt ds Hdraw Hrun)
    as (Hsafe & Hnd & Hel).
  split; [|split; [exact Hnd|]].
  - rewrite Forall_forall in *. intros d Hd.
    destruct (Hsafe d Hd) as (Hp & Hq & Hs).
    destruct (Hel d Hd) as [He Hl]. repeat split; auto.
  - intros Hids. now apply safe_run_keeps_positions.
Qed.

(** ** [execute_strategies] *)

Lemma store_deals_position_pairs dt pid tk deals : forall db,
  distinct_ids db ->
  NoDup (map pair_of deals) ->
  get_current_position (store_deals db deals dt) pid tk dt
  = get_current_position db pid tk dt
  \/ (exists d, In d deals /\ d_ticker d = tk /\ d_portfolio d = pid
      /\ get_current_position (store_deals db deals dt) pid tk dt
         = get_current_position db pid tk dt + decision_delta d).
Proof.
  induction deals as [|d deals IH]; intros db Hids Hnd.
  - now left.
  - inversion Hnd as [|? ? Hnotin Hnd']; subst.
    change (store_deals db (d :: deals) dt)
      with (store_deals (store_deal dt db d) deals dt).
    assert (Hids' : distinct_ids (store_deal dt db d)).
    { unfold distinct_ids. now rewrite store_deal_Products. }
    destruct (IH _ Hids' Hnd') as [Hrest|(d' & Hin' & Htk' & Hpid' & Hrest)];
      destruct (store_deal_position dt db d pid tk Hids)
        as [Hstep|(Htk & Hpid & Hstep)].
    + left. congruence.
    + right. exists d. repeat split; auto; [now left | congruence].
    + right. exists d'. repeat split; auto; [now right | congruence].
    + exfalso. apply Hnotin.
      replace (pair_of d) with (pair_of d')
        by (unfold pair_of; congruence).
      now apply in_map.
Qed.

Lemma one_client_per_portfolio (p : portfolio) (cs : list client) :
  NoDup (map c_id cs) ->
  (List.length
     (flat_map (fun c =>
                  if (po_client_id p =? c_id c)%Z
                  then [(po_id p, profil_risque c)] else []) cs) <= 1)%nat.
Proof.
  induction cs as [|c cs IH]; simpl; intros Hnd; [lia|].
  inversion Hnd as [|? ? Hnotin Hnd']; subst.
  destruct (Z.eqb_spec (po_client_id p) (c_id c)) as [E|E]; [|now apply IH].
  assert (Hnone : flat_map (fun c0 =>
                    if po_client_id p =? c_id c0
                    then [(po_id p, profil_risque c0)] else []) cs = []).
  { clear IH Hnd' Hnd. induction cs as [|c' cs IH]; simpl; [reflexivity|].
    destruct (Z.eqb_spec (po_client_id p) (c_id c')) as [E'|E'].
    - exfalso. apply Hnotin. left. congruence.
    - apply IH. intros H. apply Hnotin. now right. }
  rewrite Hnone. simpl. lia.
Qed.

Lemma portfolios_with_profile_distinct (acc : tables) :
  NoDup (map po_id (Portfolios acc)) ->
  NoDup (map c_id (Clients acc)) ->
  NoDup (map fst (Engine.portfolios_with_profile acc)).
Proof.
  unfold Engine.portfolios_with_profile. intros Hpo Hc.
  induction (Portfolios acc) as [|p ps IH]; simpl; [constructor|].
  inversion Hpo as [|? ? Hnotin Hpo']; subst.
  rewrite map_app. apply NoDup_app.
  - pose proof (one_client_per_portfolio p (Clients acc) Hc) as Hlen.
    destruct (flat_map _ (Clients acc)) as [|x [|y l]]; simpl in *;
      [constructor | repeat constructor; intros [] | lia].
  - now apply IH.
  - intros k Hk1 Hk2.
    apply in_map_iff in Hk1. destruct Hk1 as ([k' s] & <- & Hin1).
    apply in_flat_map in Hin1. destruct Hin1 as (c & _ & Hin1).
    destruct (_ =? _) in Hin1; [|destruct Hin1].
    destruct Hin1 as [[= <- <-]|[]]. simpl in Hk2.
    apply in_map_iff in Hk2. destruct Hk2 as ([k'' s'] & Hk & Hin2).
    apply in_flat_map in Hin2. destruct Hin2 as (p' & Hp' & Hin2).
    apply in_flat_map in Hin2. destruct Hin2 as (c' & _ & Hin2).
    destruct (_ =? _) in Hin2; [|destruct Hin2].
    destruct Hin2 as [[= <- <-]|[]]. simpl in Hk.
    apply Hnotin. rewrite <- Hk. now apply in_map.
Qed.

Lemma gather_decisions_output
    (load : string -> string -> option DataFrame) (draw : Z -> Z)
    (acc : tables) (db : database) (dt : string)
    (portfolios : list (Z * string)) :
  (forall pid, 15 <= draw pid <= 25) ->
  NoDup (map fst portfolios) ->
  forall ds,
    Engine.gather_decisions load draw acc db dt portfolios = Ok ds ->
    Forall (fun d => safe_decision db (d_portfolio d) dt d) ds
    /\ (forall d, In d ds -> In (d_portfolio d) (map fst portfolios))
    /\ NoDup (map pair_of ds).
Proof.
  intros Hdraw. induction portfolios as [|[pid profil] rest IH];
    simpl; intros Hnd ds.
  - intros [= <-]. split; [constructor|]. split; [intros d []|constructor].
  - inversion Hnd as [|? ? Hnotin Hnd']; subst.
    destruct (Engine.apply_strategy load (draw pid) acc db profil pid dt)
      as [ds1|] eqn:E1; simpl; [|discriminate].
    destruct (Engine.gather_decisions load draw acc db dt rest)
      as [ds2|]; simpl; [|discriminate].
    intros [= <-].
    destruct (engine_run_output load (draw pid) acc db profil pid dt ds1
                (Hdraw pid) E1) as (Hsafe1 & Hnd1 & _).
    destruct (IH Hnd' ds2 eq_refl) as (Hsafe2 & Hin2 & Hnd2).
    assert (Hpid1 : forall d, In d ds1 -> d_portfolio d = pid).
    { rewrite Forall_forall in Hsafe1. intros d Hd. now apply Hsafe1. }
    split; [|split].
    + apply Forall_app. split; [|exact Hsafe2].
      rewrite Forall_forall in *. intros d Hd.
      rewrite (Hpid1 d Hd). now apply Hsafe1.
    + intros d Hd. apply in_app_or in Hd. destruct Hd as [Hd|Hd].
      * left. symmetry. now apply Hpid1.
      * right. now apply Hin2.
    + rewrite map_app. apply NoDup_app; [|exact Hnd2|].
      * clear - Hnd1 Hpid1.
        induction ds1 as [|d ds1 IHd]; simpl in *; [constructor|].
        inversion Hnd1 as [|? ? Hn Hnd1']; subst.
        constructor; [|apply IHd; auto].
        intros Hin. apply Hn. apply in_map_iff in Hin.
        destruct Hin as (d' & Hpair & Hd').
        apply in_map_iff. exists d'. split; [|exact Hd'].
        unfold pair_of in Hpair. congruence.
      * intros k Hk1 Hk2.
        apply in_map_iff in Hk1. destruct Hk1 as (d1 & <- & Hd1).
        apply in_map_iff in Hk2. destruct Hk2 as (d2 & Hpair & Hd2).
        apply Hnotin. rewrite <- (Hpid1 d1 Hd1).
        unfold pair_of in Hpair. injection Hpair as Hp _. rewrite <- Hp.
        now apply Hin2.
Qed.

(** [execute_strategies] decides for every portfolio on the ledger as it
    stands and records all the decisions at once: with distinct product,
    portfolio and client ids, every position of every portfolio that was not
    negative at the date is not negative afterwards, and the run only
    appends deals dated [dt].  [draw] gives the value of
    [random.randint(15, 25)] in the run of each portfolio. *)
Theorem execute_strategies_keeps_positions
    (load : string -> string -> option DataFrame) (draw : Z -> Z)
    (acc : tables) (db db' : database) (dt : string) :
  (forall pid, 15 <= draw pid <= 25) ->
  distinct_ids db ->
  NoDup (map po_id (Portfolios acc)) ->
  NoDup (map c_id (Clients acc)) ->
  Engine.execute_strategies load draw acc db dt = Ok db' ->
  (forall pid tk,
     0 <= get_current_position db pid tk dt ->
     0 <= get_current_position db' pid tk dt)
  /\ Products db' = Products db
  /\ exists added,
       Deals db' = Deals db ++ added /\ Forall (fun t => date t = dt) added.
Proof.
  intros Hdraw Hids Hpo Hc. unfold Engine.execute_strategies.
  pose proof (portfolios_with_profile_distinct acc Hpo Hc) as Hnd.
  destruct (Engine.portfolios_with_profile acc) as [|row rows] eqn:Hrows.
  { intros [= <-]. split; [auto|]. split; [reflexivity|].
    exists []. now rewrite app_nil_r. }
  destruct (Engine.gather_decisions load draw acc db dt (row :: rows))
    as [ds|] eqn:Hgather; simpl; [|discriminate].
  intros [= <-].
  destruct (gather_decisions_output load draw acc db dt (row :: rows) Hdraw
              Hnd ds Hgather) as (Hsafe & _ & Hpairs).
  split; [|split].
  - intros pid tk Hpos.
    destruct (store_deals_position_pairs dt pid tk ds db Hids Hpairs)
      as [->|(d & Hin & Htk & Hpid & ->)]; [exact Hpos|].
    rewrite Forall_forall in Hsafe.
    destruct (Hsafe d Hin) as (_ & Hq & Hs).
    unfold decision_delta. rewrite Htk, Hpid in Hs.
    destruct (d_operation d); [lia|]. specialize (Hs eq_refl). lia.
  - apply store_deals_Products.
  - destruct (store_deals_appends dt ds db) as (added & Hadd & _ & Hcopies).
    exists added. split; [exact Hadd|].
    eapply Forall_impl; [|exact Hcopies]. intros t Ht. apply Ht.
Qed.

(** ** [update_portfolios] *)

Import Updater.

Lemma track_tracked (cp : current_positions) (row : deal * string) p tk :
  tracked (track cp row) p tk
  = if row_of p tk row
    then Some (mk_details
                 (match tracked cp p tk with
                  | Some e => quantity e
                  | None => 0
                  end + else_delta (fst row))
                 (match tracked cp p tk with
                  | Some e => det_produit_id e
                  | None => produit_id (fst row)
                  end))
    else tracked cp p tk.
Proof.
  destruct row as [d tk']. unfold track, tracked, row_of. simpl fst; simpl snd.
  rewrite (dict_get_set Z.eqb Z.eqb_eq).
  rewrite (Z.eqb_sym p (portefeuille_id d)).
  destruct (Z.eqb_spec (portefeuille_id d) p) as [Hp|Hp]; simpl; [|reflexivity].
  subst p. rewrite (dict_get_set String.eqb String.eqb_eq).
  rewrite (String.eqb_sym tk tk').
  destruct (String.eqb_spec tk' tk) as [Ht|Ht]; simpl.
  - subst tk'.
    destruct (Dict.get Z.eqb (portefeuille_id d) cp) as [ps|]; simpl.
    + destruct (Dict.get String.eqb tk ps) as [e|];
        unfold else_delta; destruct (type_operation d); simpl; f_equal; f_equal; lia.
    + unfold else_delta; destruct (type_operation d); simpl; f_equal; f_equal; lia.
  - destruct (Dict.get Z.eqb (portefeuille_id d) cp) as [ps|]; reflexivity.
Qed.

Lemma set_well_formed (cp : current_positions) (p : Z) (ps : positions) :
  well_formed cp -> NoDup (map fst ps) ->
  well_formed (Dict.set Z.eqb p ps cp).
Proof.
  intros [Hk Hin] Hps. split.
  - apply dict_set_NoDup; [apply Z.eqb_eq | exact Hk].
  - intros p' ps' Hp.
    assert (Hget : Dict.get Z.eqb p' (Dict.set Z.eqb p ps cp) = Some ps').
    { apply (dict_In_get Z.eqb Z.eqb_eq); [|exact Hp].
      apply dict_set_NoDup; [apply Z.eqb_eq | exact Hk]. }
    rewrite (dict_get_set Z.eqb Z.eqb_eq) in Hget.
    destruct (Z.eqb_spec p' p) as [E|E].
    + now injection Hget as <-.
    + apply (Hin p'). now apply (dict_get_In Z.eqb Z.eqb_eq).
Qed.

Lemma track_well_formed (cp : current_positions) (row : deal * string) :
  well_formed cp -> well_formed (track cp row).
Proof.
  intros Hwf. destruct row as [d tk]. unfold track.
  apply set_well_formed; [exact Hwf|].
  apply dict_set_NoDup; [apply String.eqb_eq|].
  destruct (Dict.get Z.eqb (portefeuille_id d) cp) as [ps0|] eqn:E0;
    [|constructor].
  destruct Hwf as [_ Hin]. apply (Hin (portefeuille_id d)).
  now apply (dict_get_In Z.eqb Z.eqb_eq).
Qed.

Lemma fold_track_well_formed (rows : list (deal * string)) : forall cp,
  well_formed cp -> well_formed (fold_left track rows cp).
Proof.
  induction rows as [|row rows IH]; simpl; intros cp H; [exact H|].
  apply IH. now apply track_well_formed.
Qed.

Lemma well_formed_nil : well_formed [].
Proof. split; [constructor | intros p ps []]. Qed.

Lemma net_cons (row : deal * string) rows p tk :
  net (row :: rows) p tk
  = (if row_of p tk row then else_delta (fst row) else 0) + net rows p tk.
Proof.
  unfold net, Spec.total. simpl. destruct (row_of p tk row); simpl; lia.
Qed.

(** After the first loop the entry of a portfolio and a ticker exists when
    some row is theirs, and holds the net quantity of their rows. *)
Lemma fold_track_tracked (rows : list (deal * string)) p tk : forall cp,
  match tracked (fold_left track rows cp) p tk with
  | Some e =>
      quantity e
      = match tracked cp p tk with Some e0 => quantity e0 | None => 0 end
        + net rows p tk
      /\ (tracked cp p tk <> None \/ existsb (row_of p tk) rows = true)
  | None => tracked cp p tk = None /\ existsb (row_of p tk) rows = false
  end.
Proof.
  induction rows as [|row rows IH]; simpl; intros cp.
  - destruct (tracked cp p tk) as [e|]; [|auto].
    split; [unfold net, Spec.total; simpl; lia | left; discriminate].
  - specialize (IH (track cp row)). rewrite track_tracked in IH.
    rewrite net_cons.
    destruct (tracked (fold_left track rows (track cp row)) p tk) as [e|].
    + destruct IH as [Hq Hex]. destruct (row_of p tk row) eqn:Hrow; simpl.
      * simpl in Hq. split; [lia | now right].
      * split; [lia|]. destruct Hex as [H|H]; [now left | now right].
    + destruct IH as [Hnone Hex].
      destruct (row_of p tk row); [discriminate|]. simpl. now split.
Qed.

Lemma fold_track_produit (rows : list (deal * string)) p tk : forall cp e,
  tracked (fold_left track rows cp) p tk = Some e ->
  (exists e0, tracked cp p tk = Some e0 /\ det_produit_id e0 = det_produit_id e)
  \/ (exists row, In row rows /\ row_of p tk row = true
        /\ produit_id (fst row) = det_produit_id e).
Proof.
  induction rows as [|row rows IH]; simpl; intros cp e He.
  - left. now exists e.
  - destruct (IH _ _ He) as [(e0 & He0 & Hid)|(r & Hr & Hm & Hid)].
    + rewrite track_tracked in He0.
      destruct (row_of p tk row) eqn:Hrow.
      * injection He0 as <-. simpl in Hid.
        destruct (tracked cp p tk) as [e1|].
        -- left. now exists e1.
        -- right. exists row. repeat split; auto.
      * left. now exists e0.
    + right. exists r. repeat split; auto.
Qed.

Lemma inserted_portfolio (item : Z * positions) (h : holding) :
  In h (inserted item) -> h_portefeuille_id h = fst item.
Proof.
  unfold inserted. intros H. apply in_flat_map in H.
  destruct H as (p & _ & H). destruct (0 <? _); [|destruct H].
  destruct H as [<-|[]]. reflexivity.
Qed.

Lemma filter_all_true {A : Type} (l : list A) :
  filter (fun _ => true) l = l.
Proof. induction l as [|x l IH]; simpl; [reflexivity | now rewrite IH]. Qed.

Lemma filter_all {A : Type} (f : A -> bool) (l : list A) :
  (forall x, In x l -> f x = true) -> filter f l = l.
Proof.
  induction l as [|x l IH]; simpl; intros H; [reflexivity|].
  rewrite H by now left. f_equal. apply IH. intros y Hy. apply H. now right.
Qed.

Lemma rewrite_holdings_eq (hs : list holding) (item : Z * positions) :
  rewrite_holdings hs item
  = filter (fun h => negb (h_portefeuille_id h =? fst item)) hs
    ++ inserted item.
Proof. destruct item. reflexivity. Qed.

(** The second loop in closed form: the rows of the portfolios of the dict
    are replaced, the others stay. *)
Lemma fold_rewrite_holdings (items : current_positions) : forall hs,
  NoDup (map fst items) ->
  fold_left rewrite_holdings items hs
  = filter (untouched (map fst items)) hs ++ flat_map inserted items.
Proof.
  induction items as [|item items IH]; intros hs Hnd.
  - simpl. rewrite app_nil_r. symmetry. apply filter_all_true.
  - simpl in Hnd. inversion Hnd as [|? ? Hnotin Hnd']; subst.
    cbn [fold_left flat_map map].
    rewrite IH by exact Hnd'. rewrite rewrite_holdings_eq.
    rewrite filter_app, <- app_assoc. f_equal.
    + clear. induction hs as [|h hs IHh]; [reflexivity|].
      cbn [filter]. unfold untouched at 2. cbn [existsb].
      destruct (h_portefeuille_id h =? fst item); cbn [negb orb filter];
        [exact IHh|].
      fold (untouched (map fst items) h).
      destruct (untouched (map fst items) h); [f_equal|]; exact IHh.
    + f_equal. apply filter_all. intros h Hh.
      apply inserted_portfolio in Hh.
      unfold untouched. rewrite Hh.
      destruct (existsb (Z.eqb (fst item)) (map fst items)) eqn:E;
        [|reflexivity].
      apply existsb_exists in E. destruct E as (x & Hx & Hpx).
      apply Z.eqb_eq in Hpx. subst x. contradiction.
Qed.

Lemma all_deals_perm (db : database) :
  Permutation (joined_deals db) (all_deals db).
Proof. unfold all_deals. apply order_by_perm. Qed.

Lemma all_deals_In (db : database) (row : deal * string) :
  In row (all_deals db) <->
  exists pr, In (fst row) (Deals db) /\ In pr (Products db)
    /\ produit_id (fst row) = p_id pr /\ snd row = ticker pr.
Proof.
  unfold all_deals. rewrite order_by_In, in_flat_map. split.
  - intros (d & Hd & Hin). apply in_flat_map in Hin.
    destruct Hin as (pr & Hpr & Hin).
    destruct (Z.eqb_spec (produit_id d) (p_id pr)); [|destruct Hin].
    destruct Hin as [<-|[]]. exists pr. auto.
  - intros (pr & Hd & Hpr & Hid & Htk). exists (fst row). split; [exact Hd|].
    apply in_flat_map. exists pr. split; [exact Hpr|].
    rewrite Hid, Z.eqb_refl. left. destruct row; simpl in *. congruence.
Qed.

Lemma filter_perm {A : Type} (f : A -> bool) (l l' : list A) :
  Permutation l l' -> Permutation (filter f l) (filter f l').
Proof.
  induction 1 as [|x l l' _ IH|x y l|l l' l'' _ IH1 _ IH2]; simpl.
  - constructor.
  - destruct (f x); [now constructor | exact IH].
  - destruct (f x), (f y); try reflexivity. apply perm_swap.
  - now transitivity (filter f l').
Qed.

Lemma net_perm (rows rows' : list (deal * string)) p tk :
  Permutation rows rows' -> net rows p tk = net rows' p tk.
Proof.
  intros H. unfold net. apply total_perm, Permutation_map, filter_perm, H.
Qed.

Lemma net_app (rows rows' : list (deal * string)) p tk :
  net (rows ++ rows') p tk = net rows p tk + net rows' p tk.
Proof. unfold net. now rewrite filter_app, map_app, total_app. Qed.

Lemma net_of_one_deal (d : deal) (ps : list product) (dt : string) p tk :
  String.leb (date d) dt = true ->
  net (flat_map (fun pr =>
                   if produit_id d =? p_id pr then [(d, ticker pr)] else [])
         ps) p tk
  = Spec.total
      (map case_delta
         (flat_map (fun p0 =>
                      if (produit_id d =? p_id p0) && (portefeuille_id d =? p)
                         && String.eqb (ticker p0) tk && String.leb (date d) dt
                      then [d] else [])
            ps)).
Proof.
  intros Hdt. induction ps as [|pr ps IHp]; simpl; [reflexivity|].
  rewrite net_app, map_app, total_app, IHp. f_equal.
  rewrite Hdt, andb_true_r.
  destruct (produit_id d =? p_id pr); simpl; [|reflexivity].
  unfold net, row_of; simpl.
  destruct ((portefeuille_id d =? p) && String.eqb (ticker pr) tk); simpl;
    [|reflexivity].
  now rewrite case_delta_else.
Qed.

(** The net quantity over all the deals is the position as of a date no
    deal is after. *)
Lemma net_is_position (db : database) (dt : string) p tk :
  (forall d, In d (Deals db) -> String.leb (date d) dt = true) ->
  net (all_deals db) p tk = get_current_position db p tk dt.
Proof.
  intros Hdt. rewrite <- (net_perm _ _ p tk (all_deals_perm db)).
  rewrite get_current_position_total.
  unfold joined_deals, position_rows.
  induction (Deals db) as [|d ds IH]; simpl; [reflexivity|].
  rewrite net_app, map_app, total_app, IH
    by (intros d' Hd'; apply Hdt; now right).
  f_equal. apply net_of_one_deal. apply Hdt. now left.
Qed.

Lemma fold_track_keys (rows : list (deal * string)) p : forall cp,
  In p (map fst (fold_left track rows cp)) <->
  In p (map fst cp)
  \/ exists row, In row rows /\ portefeuille_id (fst row) = p.
Proof.
  induction rows as [|row rows IH]; simpl; intros cp.
  - split; [auto | intros [H|(r & [] & _)]; exact H].
  - rewrite IH. destruct row as [d tk]. unfold track at 1.
    rewrite (dict_set_In_keys Z.eqb Z.eqb_eq). split.
    + intros [[->|H]|(r & Hr & Hp)].
      * right. exists (d, tk). auto.
      * now left.
      * right. exists r. auto.
    + intros [H|(r & [<-|Hr] & Hp)].
      * left. now right.
      * left. left. now symmetry.
      * right. exists r. auto.
Qed.

Lemma tracked_In (cp : current_positions) p tk e :
  well_formed cp ->
  tracked cp p tk = Some e <->
  exists ps, In (p, ps) cp /\ In (tk, e) ps.
Proof.
  intros [Hk Hin]. unfold tracked. split.
  - destruct (Dict.get Z.eqb p cp) as [ps|] eqn:E; [|discriminate].
    intros H. exists ps. split.
    + now apply (dict_get_In Z.eqb Z.eqb_eq).
    + now apply (dict_get_In String.eqb String.eqb_eq).
  - intros (ps & Hp & He).
    rewrite (dict_In_get Z.eqb Z.eqb_eq p ps cp Hk Hp).
    apply (dict_In_get String.eqb String.eqb_eq); [|exact He].
    now apply (Hin p).
Qed.

Lemma has_deals_rows (db : database) (p : Z) :
  has_deals db p <->
  exists row, In row (all_deals db) /\ portefeuille_id (fst row) = p.
Proof.
  unfold has_deals. split.
  - intros (d & pr & Hd & Hpr & Hid & Hp). exists (d, ticker pr).
    split; [|exact Hp]. apply all_deals_In. exists pr. auto.
  - intros (row & Hrow & Hp). apply all_deals_In in Hrow.
    destruct Hrow as (pr & Hd & Hpr & Hid & _). exists (fst row), pr. auto.
Qed.

Lemma or_iff_both (A A' B B' : Prop) :
  (A <-> A') -> (B <-> B') -> (A \/ B <-> A' \/ B').
Proof. tauto. Qed.

(** The holdings after [update_portfolios], row by row. *)
Lemma update_portfolios_In (acc : tables) (db : database) (h : holding) :
  In h (Portfolios_Holdings (update_portfolios acc db)) <->
  (In h (Portfolios_Holdings acc) /\ ~ has_deals db (h_portefeuille_id h))
  \/ (exists tk e,
        tracked (fold_left track (all_deals db) []) (h_portefeuille_id h) tk
        = Some e
        /\ 0 < quantity e
        /\ h = mk_holding (h_portefeuille_id h) (det_produit_id e)
                 (quantity e) None None).
Proof.
  unfold update_portfolios.
  destruct (all_deals db) as [|row rows] eqn:Hrows.
  { split; [|intros [[H _]|(tk & e & H & _)]; [exact H | discriminate]].
    intros H. left. split; [exact H|]. rewrite has_deals_rows, Hrows.
    intros (r & [] & _). }
  rewrite <- Hrows.
  assert (Hwf : well_formed (fold_left track (all_deals db) []))
    by apply fold_track_well_formed, well_formed_nil.
  simpl Portfolios_Holdings.
  rewrite fold_rewrite_holdings by apply Hwf.
  rewrite in_app_iff, filter_In, in_flat_map. apply or_iff_both.
  - split.
    + intros [Hin Hu]. split; [exact Hin|]. rewrite has_deals_rows.
      intros Hd.
      assert (Hd' : In (h_portefeuille_id h)
                      (map fst (fold_left track (all_deals db) [])))
        by (apply fold_track_keys; now right).
      unfold untouched in Hu. apply negb_true_iff in Hu.
      assert (existsb (Z.eqb (h_portefeuille_id h))
                (map fst (fold_left track (all_deals db) [])) = true);
        [|congruence].
      apply existsb_exists. eexists. split; [exact Hd' | apply Z.eqb_refl].
    + intros [Hin Hn]. split; [exact Hin|].
      unfold untouched. apply negb_true_iff.
      destruct (existsb _ _) eqn:E; [|reflexivity].
      apply existsb_exists in E. destruct E as (x & Hx & Hpx).
      apply Z.eqb_eq in Hpx. subst x. exfalso. apply Hn.
      apply has_deals_rows. apply fold_track_keys in Hx.
      destruct Hx as [[]|Hx]. exact Hx.
  - split.
    + intros ([p ps] & Hitem & Hin). unfold inserted in Hin. simpl in Hin.
      apply in_flat_map in Hin. destruct Hin as ([tk e] & He & Hin).
      simpl in Hin. destruct (0 <? quantity e) eqn:Hq; [|destruct Hin].
      destruct Hin as [<-|[]]. simpl. exists tk, e.
      split; [|split; [now apply Z.ltb_lt | reflexivity]].
      apply tracked_In; [exact Hwf|]. now exists ps.
    + intros (tk & e & He & Hq & Hh).
      apply tracked_In in He; [|exact Hwf]. destruct He as (ps & Hp & He).
      exists (h_portefeuille_id h, ps). split; [exact Hp|].
      unfold inserted. simpl. apply in_flat_map. exists (tk, e).
      split; [exact He|]. simpl. apply Z.ltb_lt in Hq. rewrite Hq.
      left. now symmetry.
Qed.

Lemma tracked_nil p tk : tracked [] p tk = None.
Proof. reflexivity. Qed.

Lemma net_no_row (rows : list (deal * string)) p tk :
  existsb (row_of p tk) rows = false -> net rows p tk = 0.
Proof.
  intros H. unfold net.
  replace (filter (row_of p tk) rows) with (@nil (deal * string));
    [reflexivity|].
  induction rows as [|row rows IH]; simpl in *; [reflexivity|].
  apply orb_false_iff in H. destruct H as [H1 H2]. rewrite H1. now apply IH.
Qed.

(** [update_portfolios] rebuilds the holdings from the whole ledger.  With
    [dt] a date no deal is after: a row of the result is either a former row
    of a portfolio that has no deal, or a row of a portfolio that has deals,
    with the product id of a product of some ticker and, as quantity, the
    position of the portfolio on that ticker, which is positive; every
    positive position has its row; the former rows of the portfolios
    without deals are all kept. *)
Theorem update_portfolios_rebuilds (acc : tables) (db : database)
    (dt : string) :
  (forall d, In d (Deals db) -> String.leb (date d) dt = true) ->
  (forall h,
     In h (Portfolios_Holdings (update_portfolios acc db)) ->
     (In h (Portfolios_Holdings acc) /\ ~ has_deals db (h_portefeuille_id h))
     \/ (has_deals db (h_portefeuille_id h)
         /\ 0 < h_quantite h
         /\ exists pr,
              In pr (Products db) /\ p_id pr = h_produit_id h
              /\ h_quantite h
                 = get_current_position db (h_portefeuille_id h) (ticker pr) dt))
  /\ (forall p tk,
        0 < get_current_position db p tk dt ->
        exists h,
          In h (Portfolios_Holdings (update_portfolios acc db))
          /\ h_portefeuille_id h = p
          /\ h_quantite h = get_current_position db p tk dt)
  /\ (forall h,
        In h (Portfolios_Holdings acc) ->
        ~ has_deals db (h_portefeuille_id h) ->
        In h (Portfolios_Holdings (update_portfolios acc db))).
Proof.
  intros Hdt. split; [|split].
  - intros h Hh. apply update_portfolios_In in Hh.
    destruct Hh as [H|(tk & e & He & Hq & Hh)]; [now left|]. right.
    pose proof (fold_track_tracked (all_deals db) (h_portefeuille_id h) tk [])
      as Hnet.
    rewrite He, tracked_nil in Hnet. destruct Hnet as [Hnet Hex].
    destruct (fold_track_produit _ _ _ _ _ He)
      as [(e0 & He0 & _)|(row & Hrow & Hof & Hid)]; [discriminate|].
    unfold row_of in Hof. apply andb_true_iff in Hof.
    destruct Hof as [Hp Htk]. apply Z.eqb_eq in Hp. apply String.eqb_eq in Htk.
    split; [apply has_deals_rows; now exists row|].
    rewrite Hh. simpl. split; [exact Hq|].
    apply all_deals_In in Hrow. destruct Hrow as (pr & _ & Hpr & Hid' & Htk').
    exists pr. split; [exact Hpr|]. split; [congruence|].
    rewrite Hnet, (net_is_position db dt) by exact Hdt.
    simpl. f_equal. congruence.
  - intros p tk Hpos.
    pose proof (fold_track_tracked (all_deals db) p tk []) as Hnet.
    rewrite tracked_nil in Hnet.
    destruct (tracked (fold_left track (all_deals db) []) p tk) as [e|] eqn:He.
    + destruct Hnet as [Hnet _].
      rewrite (net_is_position db dt) in Hnet by exact Hdt. simpl in Hnet.
      exists (mk_holding p (det_produit_id e) (quantity e) None None).
      split; [|split; [reflexivity | exact Hnet]].
      apply update_portfolios_In. right. exists tk, e.
      split; [exact He|]. split; [simpl; lia | reflexivity].
    + destruct Hnet as [_ Hex]. apply net_no_row in Hex.
      rewrite (net_is_position db dt) in Hex by exact Hdt. lia.
  - intros h Hh Hn. apply update_portfolios_In. now left.
Qed.

Lemma filter_untouched_inserted (items : current_positions) :
  filter (untouched (map fst items)) (flat_map inserted items) = [].
Proof.
  assert (H : forall h, In h (flat_map inserted items) ->
                untouched (map fst items) h = false).
  { intros h Hh. apply in_flat_map in Hh. destruct Hh as (item & Hitem & Hh).
    apply inserted_portfolio in Hh. unfold untouched.
    apply negb_false_iff, existsb_exists. exists (fst item).
    split; [now apply in_map | rewrite Hh; apply Z.eqb_refl]. }
  induction (flat_map inserted items) as [|h l IH]; simpl; [reflexivity|].
  rewrite H by now left. apply IH. intros h' Hh'. apply H. now right.
Qed.

Lemma filter_twice {A : Type} (f : A -> bool) (l : list A) :
  filter f (filter f l) = filter f l.
Proof.
  apply filter_all. intros x Hx. now apply filter_In in Hx.
Qed.

(** Running [update_portfolios] again on the same ledger changes nothing:
    the holdings table is the same, row for row and in the same order. *)
Theorem update_portfolios_idempotent (acc : tables) (db : database) :
  update_portfolios (update_portfolios acc db) db = update_portfolios acc db.
Proof.
  unfold update_portfolios.
  destruct (all_deals db) as [|row rows] eqn:Hrows; [reflexivity|].
  set (cp := fold_left track (row :: rows) []).
  assert (Hwf : NoDup (map fst cp))
    by apply fold_track_well_formed, well_formed_nil.
  unfold with_holdings. simpl. f_equal.
  rewrite !fold_rewrite_holdings by exact Hwf.
  rewrite filter_app, filter_twice, filter_untouched_inserted, app_nil_r.
  reflexivity.
Qed.

(** ** Instances of the runs *)

(** The run of the High yield client of [Fund] holding 20 AAPL: it sells
    15. *)
Lemma apply_strategy_trades_eligible_witness :
  Engine.apply_strategy Fund.frames 20 Fund.accounts Scenario.holding_20
    "High yield equity" 1 "2024-01-08"
  = Ok [(1, "AAPL"%string, vente, 15)]
  /\ NoDup (map d_ticker [(1, "AAPL"%string, vente, 15)])
  /\ Forall (fun d =>
               In (d_ticker d)
                 (Engine.get_products_by_strategy Fund.accounts
                    Scenario.holding_20 "High yield equity" 1)
               /\ 0 < d_quantity d)
       [(1, "AAPL"%string, vente, 15)].
Proof.
  assert (Hrun : Engine.apply_strategy Fund.frames 20 Fund.accounts
                   Scenario.holding_20 "High yield equity" 1 "2024-01-08"
                 = Ok [(1, "AAPL"%string, vente, 15)])
    by (vm_compute; reflexivity).
  destruct (apply_strategy_trades_eligible Fund.frames 20 Fund.accounts
              Scenario.holding_20 "High yield equity" 1 "2024-01-08"
              [(1, "AAPL"%string, vente, 15)])
    as (Hall & Hnd & _).
  - lia.
  - exact Hrun.
  - split; [exact Hrun|]. split; [exact Hnd|].
    eapply Forall_impl; [|exact Hall].
    intros d (_ & Hel & _ & Hq & _). now split.
Defined.

(** [execute_strategies] on the same fund: the position in AAPL stays
    non-negative. *)
Lemma execute_strategies_keeps_positions_witness :
  Engine.execute_strategies Fund.frames Fund.draws Fund.accounts
    Scenario.holding_20 "2024-01-08"
  = Ok (store_deals Scenario.holding_20 [(1, "AAPL"%string, vente, 15)]
          "2024-01-08")
  /\ 0 <= get_current_position
            (store_deals Scenario.holding_20 [(1, "AAPL"%string, vente, 15)]
               "2024-01-08")
            1 "AAPL" "2024-01-08".
Proof.
  assert (Hrun : Engine.execute_strategies Fund.frames Fund.draws Fund.accounts
                   Scenario.holding_20 "2024-01-08"
                 = Ok (store_deals Scenario.holding_20
                         [(1, "AAPL"%string, vente, 15)] "2024-01-08"))
    by (vm_compute; reflexivity).
  split; [exact Hrun|].
  destruct (execute_strategies_keeps_positions Fund.frames Fund.draws
              Fund.accounts Scenario.holding_20
              (store_deals Scenario.holding_20 [(1, "AAPL"%string, vente, 15)]
                 "2024-01-08")
              "2024-01-08")
    as (Hkeep & _ & _).
  - intros pid. unfold Fund.draws. lia.
  - unfold distinct_ids; simpl. repeat constructor; simpl; intuition discriminate.
  - simpl. repeat constructor; simpl; intuition.
  - simpl. repeat constructor; simpl; intuition.
  - exact Hrun.
  - apply Hkeep. vm_compute. discriminate.
Defined.

(** [update_portfolios] on a ledger of one purchase of 20 AAPL: the holding
    of the portfolio is its position. *)
Lemma update_portfolios_rebuilds_witness :
  exists h,
    In h (Portfolios_Holdings
            (update_portfolios Fund.accounts Scenario.holding_20))
    /\ h_portefeuille_id h = 1
    /\ h_quantite h
       = get_current_position Scenario.holding_20 1 "AAPL" "2024-01-01".
Proof.
  destruct (update_portfolios_rebuilds Fund.accounts Scenario.holding_20
              "2024-01-01")
    as (_ & Hall & _).
  - intros d [<-|[]]. reflexivity.
  - apply Hall. vm_compute. reflexivity.
Defined.

(** ** What the policies decide, by the position held *)

Lemma for_items_Forall (P : decision -> Prop)
    (body : string -> DataFrame -> result (list decision))
    (data : market_data) :
  (forall tk df ds, body tk df = Ok ds -> Forall P ds) ->
  forall ds, for_items body data = Ok ds -> Forall P ds.
Proof.
  intros Hbody. induction data as [|[tk df] data IH]; simpl; intros ds.
  - intros [= <-]. constructor.
  - destruct (body tk df) as [ds1|] eqn:E1; simpl; [|discriminate].
    destruct (for_items body data) as [ds2|]; simpl; [|discriminate].
    intros [= <-]. apply Forall_app. split; [now apply (Hbody tk df) | now apply IH].
Qed.

Lemma scaled_position (pos n : Z) :
  0 < pos -> 0 <= n ->
  Qtrunc (inject_Z pos * (n # 100)) = n * pos / 100.
Proof.
  intros Hpos Hn. unfold Qtrunc. simpl.
  rewrite Z.quot_div_nonneg by nia. now rewrite Z.mul_comm.
Qed.

Lemma low_risk_body_follows db pid dt tk df ds :
  low_risk_body db pid dt tk df = Ok ds ->
  Forall (follows_position db dt 25 20) ds.
Proof.
  unfold low_risk_body.
  destruct (negb (has_Returns df) || empty df).
  { intros [= <-]. constructor. }
  destruct (fetch_type db tk) as [ty|]; cbn [bind]; [|discriminate].
  destruct (0 <? get_current_position db pid tk dt) eqn:Hpos.
  - apply Z.ltb_lt in Hpos.
    match goal with |- (if ?c then _ else _) = _ -> _ => destruct c end.
    + intros [= <-]. constructor; [|constructor].
      unfold follows_position, d_operation, d_portfolio, d_ticker, d_quantity.
      cbn [fst snd]. split; [exact Hpos|]. unfold sale_size.
      now rewrite (scaled_position _ 25) by lia.
    + intros [= <-]. constructor.
  - apply Z.ltb_ge in Hpos.
    match goal with |- (if ?c then _ else _) = _ -> _ => destruct c end.
    + unfold low_risk_position_size.
      destruct (int _) as [n|]; cbn [bind]; [|discriminate].
      intros [= <-]. constructor; [|constructor].
      unfold follows_position, d_operation, d_portfolio, d_ticker, d_quantity.
      cbn [fst snd]. split; [exact Hpos | lia].
    + intros [= <-]. constructor.
Qed.

Lemma high_yield_body_follows db pid dt tk df ds :
  high_yield_body db pid dt tk df = Ok ds ->
  Forall (follows_position db dt 75 25) ds.
Proof.
  unfold high_yield_body.
  destruct (negb (has_Returns df) || empty df).
  { intros [= <-]. constructor. }
  destruct (0 <? get_current_position db pid tk dt) eqn:Hpos.
  - apply Z.ltb_lt in Hpos.
    match goal with |- (if ?c then _ else _) = _ -> _ => destruct c end.
    + intros [= <-]. constructor; [|constructor].
      unfold follows_position, d_operation, d_portfolio, d_ticker, d_quantity.
      cbn [fst snd]. split; [exact Hpos|]. unfold sale_size.
      now rewrite (scaled_position _ 75) by lia.
    + intros [= <-]. constructor.
  - apply Z.ltb_ge in Hpos.
    match goal with |- (if ?c then _ else _) = _ -> _ => destruct c end.
    + unfold high_yield_position_size, max_position_size.
      destruct (int _) as [n|]; cbn [bind]; [|discriminate].
      intros [= <-]. constructor; [|constructor].
      unfold follows_position, d_operation, d_portfolio, d_ticker, d_quantity.
      cbn [fst snd]. split; [exact Hpos | lia].
    + intros [= <-]. constructor.
Qed.

Lemma low_turnover_scan_follows draw db pid dt data :
  Forall (follows_draw db dt draw) (low_turnover_scan draw db pid dt data)
  /\ (List.length (low_turnover_scan draw db pid dt data) <= 1)%nat.
Proof.
  induction data as [|[tk df] data IH]; simpl.
  - split; [constructor | lia].
  - destruct (negb (has_Returns df) || empty df); [exact IH|].
    destruct (0 <? get_current_position db pid tk dt) eqn:Hpos.
    + apply Z.ltb_lt in Hpos.
      match goal with |- context [if ?c then _ else _] => destruct c end;
        [|exact IH].
      split; [|simpl; lia]. constructor; [|constructor].
      unfold follows_draw, d_operation, d_portfolio, d_ticker, d_quantity.
      cbn [fst snd]. now split.
    + apply Z.ltb_ge in Hpos.
      match goal with |- context [if ?c then _ else _] => destruct c end;
        [|exact IH].
      split; [|simpl; lia]. constructor; [|constructor].
      unfold follows_draw, d_operation, d_portfolio, d_ticker, d_quantity.
      cbn [fst snd]. now split.
Qed.

(** What a policy decides on a ticker depends on the position held on the
    date.  Low risk and High yield buy only what is not held, between 5 and
    20 (Low risk) or 25 (High yield) units, and sell only what is held, the
    quantity min(position, max(5, 25% of it)) for Low risk and
    min(position, max(5, 75% of it)) for High yield, rounded down; Low
    turnover makes at most one decision, a purchase of the drawn quantity of
    what is not held or a sale of min(position, draw).  Hence a Low risk or
    High yield sale of a position of at most 5 closes it, and a Low risk or
    High yield sale of a larger one sells at least 5 and leaves at least 1;
    a Low turnover sale follows the draw instead, and closes every position
    of at most the draw. *)
Theorem decisions_follow_position (db : database) (data : market_data)
    (pid : Z) (dt : string) :
  (forall ds,
     apply_low_risk_strategy db data pid dt = Ok ds ->
     Forall (follows_position db dt 25 20) ds)
  /\ (forall ds,
        apply_high_yield_strategy db data pid dt = Ok ds ->
        Forall (follows_position db dt 75 25) ds)
  /\ (forall draw ds,
        apply_low_turnover_strategy draw db data pid dt = Ok ds ->
        Forall (follows_draw db dt draw) ds /\ (List.length ds <= 1)%nat)
  /\ (forall share pos,
        0 <= share < 100 -> 0 < pos ->
        (pos <= 5 -> sale_size share pos = pos)
        /\ (5 < pos -> 5 <= sale_size share pos < pos)).
Proof.
  split; [|split; [|split]].
  - intros ds. apply for_items_Forall. intros tk df. apply low_risk_body_follows.
  - intros ds. apply for_items_Forall. intros tk df. apply high_yield_body_follows.
  - intros draw ds. unfold apply_low_turnover_strategy.
    destruct (to_datetime dt) as [cd|]; cbn [bind]; [|discriminate].
    destruct (negb _); [intros [= <-]; split; [constructor | simpl; lia]|].
    destruct (0 <? _); [intros [= <-]; split; [constructor | simpl; lia]|].
    intros [= <-]. apply low_turnover_scan_follows.
  - intros share pos Hshare Hpos. unfold sale_size.
    assert (Hlt : share * pos / 100 < pos)
      by (apply Z.div_lt_upper_bound; nia).
    split; intros H; lia.
Qed.

(** * The valuator and the metrics *)

(** ** The price look-up *)

(** [get_asset_price_and_return] reads a latest quote: when some row of the
    ticker's table is dated [dt] or before, the price and the return are
    those of such a row that no other such row is dated after, a NULL return
    read as 0; when none is, there is no price. *)
Theorem price_is_latest_quote (rows : list Valuation.price_row) (dt : string) :
  match Valuation.get_asset_price_and_return rows dt with
  | Some (price, daily_return) =>
      exists r,
        In r rows
        /\ String.leb (Valuation.pr_Date r) dt = true
        /\ (forall r',
              In r' rows -> String.leb (Valuation.pr_Date r') dt = true ->
              String.leb (Valuation.pr_Date r') (Valuation.pr_Date r) = true)
        /\ price = Valuation.Close r
        /\ daily_return
           = match Valuation.pr_Returns r with Some x => x | None => 0%R end
  | None =>
      forall r, In r rows -> String.leb (Valuation.pr_Date r) dt = false
  end.
Proof.
  unfold Valuation.get_asset_price_and_return.
  set (le := fun a b : Valuation.price_row =>
               String.leb (Valuation.pr_Date b) (Valuation.pr_Date a)).
  set (kept := filter (fun r => String.leb (Valuation.pr_Date r) dt) rows).
  assert (le_total : forall x y, le x y = false -> le y x = true)
    by (intros x y; apply leb_false_flip).
  assert (le_trans : forall x y z,
             le x y = true -> le y z = true -> le x z = true)
    by (intros x y z Hxy Hyz; eapply leb_trans; eassumption).
  destruct (Sql.order_by le kept) as [|r rest] eqn:Hsorted.
  - intros r Hr.
    destruct (String.leb (Valuation.pr_Date r) dt) eqn:Hd; [|reflexivity].
    assert (Hin : In r (Sql.order_by le kept)).
    { apply order_by_In. apply filter_In. now split. }
    rewrite Hsorted in Hin. destruct Hin.
  - rewrite <- (filter_all_true (Sql.order_by le kept)) in Hsorted.
    destruct (first_of_sorted le le_total le_trans (fun _ => true) kept r rest
                (fun x => leb_refl _) Hsorted)
      as (Hin & _ & Hfirst).
    apply filter_In in Hin. destruct Hin as [Hin Hd].
    exists r. split; [exact Hin|]. split; [exact Hd|].
    split; [|split; reflexivity].
    intros r' Hr' Hd'. apply (Hfirst r'); [|reflexivity].
    apply filter_In. now split.
Qed.

(** ** The value and the return of a portfolio *)

Lemma positions_query_positive
    (bare_row : list daily_position -> option daily_position)
    (db : database) (pid : Z) (dt : string) :
  Forall (fun position => 0 < snd position)
    (positions_query bare_row db pid dt).
Proof.
  apply Forall_forall. intros position Hin. unfold positions_query in Hin.
  apply in_flat_map in Hin. destruct Hin as (k & _ & Hin).
  destruct (bare_row _) as [r|]; [|destruct Hin].
  destruct (0 <? running_position r) eqn:Hpos; [|destruct Hin].
  destruct Hin as [<-|[]]. simpl. now apply Z.ltb_lt.
Qed.

Section ValueFacts.
Local Open Scope R_scope.
Variable mk : market.
Variable dt : string.

Lemma value_fold (positions : list (string * asset_type * Z)) :
  forall acc : R * R,
    fold_left (fun acc position =>
                 let '(tk, _, quantity) := position in
                 match mk tk dt with
                 | Some (price, daily_return) =>
                     let position_value := price * IZR quantity in
                     (fst acc + position_value,
                      snd acc + position_value * daily_return)
                 | None => acc
                 end)
      positions acc
    = (fst acc + MetricsSpec.sum (map (position_value mk dt) positions),
       snd acc + MetricsSpec.sum (map (position_gain mk dt) positions)).
Proof.
  induction positions as [|[[tk ty] q] positions IH]; intros [v g]; simpl.
  - f_equal; lra.
  - rewrite IH. unfold position_value, position_gain. simpl.
    destruct (mk tk dt) as [[price r]|]; simpl; f_equal; lra.
Qed.

Lemma value_nonneg (positions : list (string * asset_type * Z)) :
  Forall (fun position => (0 < snd position)%Z) positions ->
  (forall tk price r, mk tk dt = Some (price, r) -> 0 <= price) ->
  Forall (fun position => 0 <= position_value mk dt position) positions.
Proof.
  intros Hq Hprice. eapply Forall_impl; [|exact Hq].
  intros [[tk ty] q] Hpos. unfold position_value. simpl in *.
  destruct (mk tk dt) as [[price r]|] eqn:Hmk; [|lra].
  apply Rmult_le_pos; [now apply (Hprice tk price r)|].
  apply IZR_le. lia.
Qed.

Lemma sum_nonneg (xs : list R) :
  Forall (fun x => 0 <= x) xs -> 0 <= MetricsSpec.sum xs.
Proof.
  induction 1 as [|x xs Hx _ IH]; simpl; lra.
Qed.

Lemma gain_bounds (lo hi : R) (positions : list (string * asset_type * Z)) :
  Forall (fun position => 0 <= position_value mk dt position) positions ->
  (forall tk ty q price r,
     In (tk, ty, q) positions -> mk tk dt = Some (price, r) -> lo <= r <= hi) ->
  lo * MetricsSpec.sum (map (position_value mk dt) positions)
  <= MetricsSpec.sum (map (position_gain mk dt) positions)
  <= hi * MetricsSpec.sum (map (position_value mk dt) positions).
Proof.
  induction 1 as [|[[tk ty] q] positions Hv _ IH]; intros Hr; simpl.
  - lra.
  - assert (IH' := IH (fun tk ty q price r Hin =>
                         Hr tk ty q price r (or_intror Hin))).
    assert (Hone : lo * position_value mk dt (tk, ty, q)
                   <= position_gain mk dt (tk, ty, q)
                   <= hi * position_value mk dt (tk, ty, q)).
    { unfold position_value, position_gain in *. simpl in *.
      destruct (mk tk dt) as [[price r]|] eqn:Hmk; [|lra].
      pose proof (Hr tk ty q price r (or_introl eq_refl) Hmk) as Hb.
      split; nra. }
    lra.
Qed.

End ValueFacts.

(** The value [get_portfolio_value_and_return] reports is the sum of price
    times quantity over the reported positions that have a price; the
    return is the average of their daily returns weighted by those market
    values when the value is positive, and 0 otherwise.  With prices that
    are not negative the value is not negative, and the return lies between
    any two bounds of the daily returns of the priced positions. *)
Theorem portfolio_return_is_weighted_average (mk : market) (db : database)
    (pid : Z) (dt : string) :
  let positions := get_portfolio_positions db pid dt in
  let value := fst (get_portfolio_value_and_return mk db pid dt) in
  let ret := snd (get_portfolio_value_and_return mk db pid dt) in
  value = MetricsSpec.sum (map (position_value mk dt) positions)
  /\ ((0 < value)%R ->
      (ret * value)%R = MetricsSpec.sum (map (position_gain mk dt) positions))
  /\ (~ (0 < value)%R -> ret = 0%R)
  /\ ((forall tk price r, mk tk dt = Some (price, r) -> (0 <= price)%R) ->
      (0 <= value)%R
      /\ forall lo hi,
           (forall tk ty q price r,
              In (tk, ty, q) positions -> mk tk dt = Some (price, r) ->
              (lo <= r <= hi)%R) ->
           (0 < value)%R -> (lo <= ret <= hi)%R).
Proof.
  intros positions value ret.
  assert (Hq : Forall (fun position => 0 < snd position) positions)
    by apply positions_query_positive.
  assert (Hrun : get_portfolio_value_and_return mk db pid dt
                 = (MetricsSpec.sum (map (position_value mk dt) positions),
                    if Rlt_dec 0 (MetricsSpec.sum (map (position_value mk dt) positions))
                    then (MetricsSpec.sum (map (position_gain mk dt) positions)
                          / MetricsSpec.sum (map (position_value mk dt) positions))%R
                    else 0%R)).
  { unfold get_portfolio_value_and_return. fold positions.
    destruct positions as [|position rest] eqn:Hpositions.
    - simpl. destruct (Rlt_dec 0 0); [lra | reflexivity].
    - rewrite value_fold. cbn [fst snd]. rewrite !Rplus_0_l. reflexivity. }
  subst value ret. rewrite Hrun. cbn [fst snd].
  set (v := MetricsSpec.sum (map (position_value mk dt) positions)).
  set (g := MetricsSpec.sum (map (position_gain mk dt) positions)).
  split; [reflexivity|].
  split; [intros Hv; destruct (Rlt_dec 0 v); [field; lra | contradiction]|].
  split; [intros Hv; destruct (Rlt_dec 0 v); [contradiction | reflexivity]|].
  intros Hprice.
  pose proof (value_nonneg mk dt positions Hq Hprice) as Hvs.
  split; [apply sum_nonneg, Forall_map; exact Hvs|].
  intros lo hi Hr Hv. destruct (Rlt_dec 0 v) as [_|]; [|contradiction].
  pose proof (gain_bounds mk dt lo hi positions Hvs Hr) as Hb.
  fold v g in Hb. split.
  - apply Rmult_le_reg_r with v; [exact Hv|].
    replace (g / v * v)%R with g by (field; lra). lra.
  - apply Rmult_le_reg_r with v; [exact Hv|].
    replace (g / v * v)%R with g by (field; lra). lra.
Qed.

(** ** The composition of a portfolio *)

Section CompositionFacts.
Local Open Scope R_scope.
Import Valuation.
Variable mk : market.
Variable dt : string.

Lemma priced_rows_positions (positions : list (string * asset_type * Z)) :
  map position_of (priced_rows mk dt positions)
  = filter (priced mk dt) positions.
Proof.
  induction positions as [|[[tk ty] q] positions IH]; simpl; [reflexivity|].
  unfold priced at 1. simpl.
  destruct (mk tk dt) as [[price r]|]; simpl; [f_equal|]; exact IH.
Qed.

Lemma priced_rows_values (positions : list (string * asset_type * Z)) :
  Forall (fun r =>
            (exists daily_return,
                mk (cr_ticker r) dt = Some (prix r, daily_return))
            /\ valeur_marche r = prix r * IZR (cr_quantite r)
            /\ poids r = None)
    (priced_rows mk dt positions).
Proof.
  induction positions as [|[[tk ty] q] positions IH]; simpl; [constructor|].
  destruct (mk tk dt) as [[price r]|] eqn:Hmk; simpl; [|exact IH].
  constructor; [|exact IH]. simpl. split; [now exists r | now split].
Qed.

Lemma sum_scaled (c : R) (xs : list R) :
  MetricsSpec.sum (map (fun x => x / c * 100) xs)
  = MetricsSpec.sum xs / c * 100.
Proof.
  induction xs as [|x xs IH]; simpl; [unfold Rdiv; lra|].
  rewrite IH. unfold Rdiv. lra.
Qed.

End CompositionFacts.

(** The rows of [get_portfolio_composition] are the reported positions that
    have a price on the date, in their order, each valued at price times
    quantity.  When their total value is positive every row carries its
    weight, its share of the total in percent, and the weights add up to
    100; when it is not, no row has a weight. *)
Theorem composition_weights_sum_to_100 (mk : market) (db : database)
    (pid : Z) (dt : string) :
  let rows := Valuation.get_portfolio_composition mk db pid dt in
  let total_value := MetricsSpec.sum (map Valuation.valeur_marche rows) in
  map position_of rows
  = filter (priced mk dt) (get_portfolio_positions db pid dt)
  /\ Forall (fun r =>
               (exists daily_return,
                   mk (Valuation.cr_ticker r) dt
                   = Some (Valuation.prix r, daily_return))
               /\ Valuation.valeur_marche r
                  = (Valuation.prix r * IZR (Valuation.cr_quantite r))%R)
       rows
  /\ ((0 < total_value)%R ->
      Forall (fun r =>
                Valuation.poids r
                = Some (Valuation.valeur_marche r / total_value * 100)%R)
        rows
      /\ MetricsSpec.sum (map weight rows) = 100%R)
  /\ (~ (0 < total_value)%R ->
      Forall (fun r => Valuation.poids r = None) rows).
Proof.
  intros rows total_value. subst rows total_value.
  unfold Valuation.get_portfolio_composition.
  change (flat_map _ (get_portfolio_positions db pid dt))
    with (priced_rows mk dt (get_portfolio_positions db pid dt)).
  set (result := priced_rows mk dt (get_portfolio_positions db pid dt)).
  change (fold_left Rplus (map Valuation.valeur_marche result) 0%R)
    with (Performance.total (map Valuation.valeur_marche result)).
  rewrite total_sum.
  set (T := MetricsSpec.sum (map Valuation.valeur_marche result)).
  pose proof (priced_rows_positions mk dt (get_portfolio_positions db pid dt))
    as Hpos.
  pose proof (priced_rows_values mk dt (get_portfolio_positions db pid dt))
    as Hval.
  fold result in Hpos, Hval.
  destruct (Rlt_dec 0 T) as [HT|HT].
  - set (g := fun r => Valuation.mk_composition_row _ _ _ _ _ _).
    assert (Hv : map Valuation.valeur_marche (map g result)
                 = map Valuation.valeur_marche result)
      by (rewrite map_map; reflexivity).
    rewrite Hv. fold T.
    split; [rewrite map_map; exact Hpos|].
    split.
    { apply Forall_map. eapply Forall_impl; [|exact Hval].
      intros r (Hmk & Hvm & _). now split. }
    split; [|intros Hn; contradiction].
    intros _. split.
    + apply Forall_map. apply Forall_forall. intros r _. reflexivity.
    + rewrite map_map.
      change (map (fun r => weight (g r)) result)
        with (map (fun r => (Valuation.valeur_marche r / T * 100)%R) result).
      rewrite <- (map_map Valuation.valeur_marche
                    (fun x => (x / T * 100)%R)).
      rewrite sum_scaled. fold T. field. lra.
  - fold T. split; [exact Hpos|].
    split.
    { eapply Forall_impl; [|exact Hval]. intros r (Hmk & Hvm & _). now split. }
    split; [intros Hp; contradiction|].
    intros _. eapply Forall_impl; [|exact Hval]. intros r (_ & _ & Hw). exact Hw.
Qed.

(** ** The weekly samples *)

Section WeeklyFacts.
Local Open Scope R_scope.
Variable value_at : string -> R.

Lemma weekly_loop_dates_some (mondays : list string) :
  forall previous,
    0 < previous ->
    map wr_date (weekly_loop value_at (Some previous) mondays) = mondays.
Proof.
  induction mondays as [|monday rest IH]; intros previous Hpos; simpl;
    [reflexivity|].
  destruct (Rlt_dec 0 previous) as [_|]; [|contradiction].
  simpl. f_equal.
  destruct (Rlt_dec 0 (value_at monday)) as [Hv|_]; now apply IH.
Qed.

Lemma weekly_loop_dates_none (mondays : list string) :
  map wr_date (weekly_loop value_at None mondays)
  = after_first_positive value_at mondays.
Proof.
  induction mondays as [|monday rest IH]; simpl; [reflexivity|].
  destruct (Rlt_dec 0 (value_at monday)) as [Hv|_]; [|exact IH].
  now apply weekly_loop_dates_some.
Qed.

Lemma weekly_loop_values (mondays : list string) :
  forall previous_value,
    Forall (fun w => wr_value w = value_at (wr_date w))
      (weekly_loop value_at previous_value mondays).
Proof.
  induction mondays as [|monday rest IH]; intros previous_value; simpl;
    [constructor|].
  apply Forall_app. split; [|apply IH].
  destruct previous_value as [previous|]; [|constructor].
  destruct (Rlt_dec 0 previous); constructor; [reflexivity | constructor].
Qed.

Lemma after_first_positive_length (mondays : list string) :
  (List.length (after_first_positive value_at mondays)
   <= List.length mondays - 1)%nat.
Proof.
  induction mondays as [|monday rest IH]; simpl; [lia|].
  destruct (Rlt_dec 0 (value_at monday)); lia.
Qed.

Lemma clip_of_loss (value previous : R) :
  0 < previous -> value <= 0 ->
  clip (value / previous - 1) (- (10 / 100)) (10 / 100) = - (10 / 100).
Proof.
  intros Hp Hv. unfold clip.
  assert (Hx : value / previous <= 0).
  { pose proof (Rinv_0_lt_compat previous Hp) as Hi. unfold Rdiv. nra. }
  rewrite Rmax_right by lra. apply Rmin_left. lra.
Qed.

End WeeklyFacts.

(** [get_weekly_returns] yields no sample up to and including the first
    Monday on which the portfolio has a positive value, and one sample for
    every Monday after it, in order: hence at most one fewer than there are
    Mondays.  A sample carries the value of the portfolio on its Monday; a
    Monday on which that value is 0 is recorded as a return of -10%. *)
Theorem weekly_samples_follow_first_value (mk : market) (db : database)
    (pid : Z) (mondays : list string) :
  let value_at :=
    fun monday => fst (get_portfolio_value_and_return mk db pid monday) in
  let samples := get_weekly_returns mk db pid mondays in
  map wr_date samples = after_first_positive value_at mondays
  /\ (List.length samples <= List.length mondays - 1)%nat
  /\ Forall (fun w =>
               wr_value w = value_at (wr_date w)
               /\ ((wr_value w <= 0)%R -> wr_return w = (- (10 / 100))%R))
       samples.
Proof.
  intros value_at samples. subst samples. unfold get_weekly_returns.
  fold value_at.
  assert (Hdates : map wr_date (weekly_loop value_at None mondays)
                   = after_first_positive value_at mondays)
    by apply weekly_loop_dates_none.
  split; [exact Hdates|]. split.
  - rewrite <- (length_map wr_date), Hdates.
    apply after_first_positive_length.
  - pose proof (weekly_loop_values value_at mondays None) as Hv.
    pose proof (weekly_loop_clipped value_at mondays None) as Hc.
    rewrite Forall_forall in *. intros w Hw. split; [now apply Hv|].
    intros Hle. destruct (Hc w Hw) as ((previous & Hp & Hr) & _).
    rewrite Hr. now apply clip_of_loss.
Qed.

(** ** The drawdown and the other figures *)

Section MetricsFacts.
Local Open Scope R_scope.

Lemma cumulative_pairs (xs : list R) :
  Forall (fun x => 0 < x) xs ->
  forall acc m,
    0 < acc ->
    Forall (fun cm => 0 < fst cm <= snd cm)
      (combine (cumprod_from acc xs)
         (expanding_max_from m (cumprod_from acc xs))).
Proof.
  induction 1 as [|x xs Hx _ IH]; intros acc m Hacc; simpl; [constructor|].
  assert (Hax : 0 < acc * x) by now apply Rmult_lt_0_compat.
  constructor; [|now apply IH].
  simpl. split; [exact Hax | apply Rmax_r].
Qed.

Lemma drawdowns_bounds (xs : list R) :
  Forall (fun x => 0 < x) xs ->
  Forall (fun d => -1 < d <= 0)
    (map (fun cm => fst cm / snd cm - 1)
       (combine (cumprod xs) (expanding_max (cumprod xs)))).
Proof.
  intros Hxs. apply Forall_map.
  assert (Hpairs : Forall (fun cm => 0 < fst cm <= snd cm)
                     (combine (cumprod xs) (expanding_max (cumprod xs)))).
  { unfold cumprod. destruct Hxs as [|x xs Hx Hxs]; simpl; [constructor|].
    assert (H1x : 0 < 1 * x) by lra.
    constructor; [simpl; lra|]. now apply cumulative_pairs. }
  eapply Forall_impl; [|exact Hpairs].
  intros [c m] [Hc Hm]. simpl in *.
  assert (Hm0 : 0 < m) by lra.
  pose proof (Rinv_0_lt_compat m Hm0) as Hi.
  assert (Hq : 0 < c / m <= 1).
  { unfold Rdiv. split; [nra|].
    apply Rmult_le_reg_r with m; [exact Hm0|].
    rewrite Rmult_assoc, Rinv_l by lra. lra. }
  lra.
Qed.

Lemma fold_left_Rmin_In (rest : list R) :
  forall x, In (fold_left Rmin rest x) (x :: rest).
Proof.
  induction rest as [|y rest IH]; intros x; simpl; [now left|].
  destruct (IH (Rmin x y)) as [H|H]; [|now right; right].
  rewrite <- H. unfold Rmin. destruct (Rle_dec x y); [now left | right; now left].
Qed.

Lemma minimum_bounds (ds : list R) :
  Forall (fun d => -1 < d <= 0) ds -> -1 < minimum ds <= 0.
Proof.
  intros Hds. destruct ds as [|d ds]; simpl; [lra|].
  rewrite Forall_forall in Hds. apply Hds. apply fold_left_Rmin_In.
Qed.

Lemma compounded_bounds (rs : list R) :
  Forall (fun r => - (10 / 100) <= r <= 10 / 100) rs ->
  (9 / 10) ^ List.length rs <= MetricsSpec.compounded rs
  <= (11 / 10) ^ List.length rs.
Proof.
  induction 1 as [|r rs Hr _ IH]; simpl; [lra|].
  assert (Hlo : 0 < (9 / 10) ^ List.length rs) by (apply pow_lt; lra).
  assert (Hhi : 0 < (11 / 10) ^ List.length rs) by (apply pow_lt; lra).
  split; nra.
Qed.

Lemma after_first_positive_last (value_at : string -> R)
    (mondays : list string) (d : string) :
  after_first_positive value_at mondays <> [] ->
  last (after_first_positive value_at mondays) d = last mondays d.
Proof.
  induction mondays as [|monday rest IH]; simpl; [congruence|].
  destruct (Rlt_dec 0 (value_at monday)) as [_|_]; intros Hne.
  - destruct rest; [congruence | reflexivity].
  - rewrite (IH Hne). destruct rest; [simpl in Hne; congruence | reflexivity].
Qed.

Lemma last_value (value_at : string -> R) (ws : list weekly_return)
    (d : string) :
  ws <> [] ->
  Forall (fun w => wr_value w = value_at (wr_date w)) ws ->
  last (map wr_value ws) 0 = value_at (last (map wr_date ws) d).
Proof.
  intros Hne Hall. induction Hall as [|w ws Hw Hall IH]; [congruence|].
  destruct ws as [|w' ws]; [exact Hw|].
  change (last (map wr_value (w' :: ws)) 0
          = value_at (last (map wr_date (w' :: ws)) d)).
  apply IH. discriminate.
Qed.

Lemma positive_count (rs : list R) :
  (List.length (filter (fun r => if Rlt_dec 0 r then true else false) rs)
   <= List.length rs)%nat.
Proof.
  induction rs as [|r rs IH]; simpl; [lia|].
  destruct (Rlt_dec 0 r); simpl; lia.
Qed.

End MetricsFacts.

(** With at least two weekly samples: the maximum drawdown lies in (-1, 0];
    the total return over n weeks lies between 0.9^n - 1 and 1.1^n - 1; the
    annualised volatility is not negative; the count of positive weeks is at
    most n; the final value is the value of the portfolio on the last
    Monday of the range; the samples are returned as they were computed. *)
Theorem metrics_bounds (mk : market) (db : database) (pid : Z)
    (mondays : list string) :
  (2 <= List.length (get_weekly_returns mk db pid mondays))%nat ->
  let n := List.length (get_weekly_returns mk db pid mondays) in
  let m := calculate_performance_metrics mk db pid mondays in
  (-1 < drawdown_max m <= 0)%R
  /\ ((9 / 10) ^ n - 1 <= rendement_total m <= (11 / 10) ^ n - 1)%R
  /\ (0 <= volatilite_annualisee m)%R
  /\ 0 <= nb_semaines_positives m <= Z.of_nat n
  /\ valeur_finale m
     = fst (get_portfolio_value_and_return mk db pid (last mondays ""%string))
  /\ weekly_returns m = get_weekly_returns mk db pid mondays.
Proof.
  intros Hlen n m. subst m.
  unfold calculate_performance_metrics, metrics_of.
  destruct (Nat.ltb_spec (List.length (get_weekly_returns mk db pid mondays)) 2)
    as [Hlt|_]; [lia|].
  cbn [drawdown_max rendement_total volatilite_annualisee
       nb_semaines_positives valeur_finale weekly_returns].
  set (ws := get_weekly_returns mk db pid mondays) in *.
  assert (Hclip : Forall (fun r => (- (10 / 100) <= r <= 10 / 100)%R)
                    (map wr_return ws)).
  { apply Forall_map. eapply Forall_impl; [|apply weekly_loop_clipped].
    intros w (_ & Hw). exact Hw. }
  split; [|split; [|split; [|split; [|split]]]].
  - apply minimum_bounds, drawdowns_bounds. apply Forall_map.
    eapply Forall_impl; [|exact Hclip]. intros r Hr. simpl in Hr. lra.
  - rewrite prod_compounded.
    pose proof (compounded_bounds _ Hclip) as Hb.
    rewrite length_map in Hb. fold n in Hb. lra.
  - rewrite std_stdev by now rewrite length_map.
    apply Rmult_le_pos; apply sqrt_pos.
  - split; [lia|]. apply inj_le.
    etransitivity; [apply positive_count|]. rewrite length_map. reflexivity.
  - assert (Hne : ws <> []) by (intros E; rewrite E in Hlen; simpl in Hlen; lia).
    rewrite (last_value
               (fun monday => fst (get_portfolio_value_and_return mk db pid monday))
               ws ""%string Hne)
      by apply (weekly_loop_values
                  (fun monday =>
                     fst (get_portfolio_value_and_return mk db pid monday))
                  mondays None).
    do 2 f_equal. unfold ws, get_weekly_returns.
    rewrite weekly_loop_dates_none. apply after_first_positive_last.
    rewrite <- weekly_loop_dates_none. intros E.
    apply map_eq_nil in E. now apply Hne.
  - reflexivity.
Qed.

(** The bounds on three Mondays of a portfolio holding 20 AAPL. *)
Lemma metrics_bounds_witness :
  (2 <= List.length
          (get_weekly_returns Scenario.flat_market Scenario.holding_20 1
             Scenario.three_mondays))%nat
  /\ (-1 < drawdown_max
             (calculate_performance_metrics Scenario.flat_market
                Scenario.holding_20 1 Scenario.three_mondays) <= 0)%R.
Proof.
  assert (Hlen : (2 <= List.length
                         (get_weekly_returns Scenario.flat_market
                            Scenario.holding_20 1 Scenario.three_mondays))%nat).
  { rewrite three_mondays_samples. lia. }
  split; [exact Hlen|].
  destruct (metrics_bounds _ _ _ _ Hlen) as (Hdd & _). exact Hdd.
Defined.

(** * Runs over several Mondays *)

(** ** Positions and the dates of the deals *)

Lemma flat_map_ext_In {A B : Type} (f g : A -> list B) (l : list A) :
  (forall x, In x l -> f x = g x) -> flat_map f l = flat_map g l.
Proof.
  induction l as [|x l IH]; simpl; intros H; [reflexivity|].
  rewrite (H x) by now left. f_equal. apply IH. intros y Hy. apply H. now right.
Qed.

Lemma flat_map_nil {A B : Type} (f : A -> list B) (l : list A) :
  (forall x, In x l -> f x = []) -> flat_map f l = [].
Proof.
  induction l as [|x l IH]; simpl; intros H; [reflexivity|].
  rewrite (H x) by now left. apply IH. intros y Hy. apply H. now right.
Qed.

Lemma store_deals_before (db : database) (deals : list decision)
    (dt dt' : string) (pid : Z) (tk : string) :
  String.leb dt dt' = false ->
  get_current_position (store_deals db deals dt) pid tk dt'
  = get_current_position db pid tk dt'.
Proof.
  intros Hbefore.
  destruct (store_deals_appends dt deals db) as (added & Hadd & _ & Hcopies).
  rewrite !get_current_position_total. f_equal. f_equal.
  unfold position_rows at 1.
  rewrite store_deals_Products, Hadd, flat_map_app.
  fold (position_rows db pid tk dt').
  rewrite <- (app_nil_r (position_rows db pid tk dt')) at 2. f_equal.
  apply flat_map_nil. intros t Ht.
  rewrite Forall_forall in Hcopies. destruct (Hcopies t Ht) as (Hdt & _).
  apply deal_after_not_joined. now rewrite Hdt.
Qed.

(** Once every deal of the portfolio is dated [m] or before, the position
    is the same on every date from [m] on. *)
Lemma position_settled (db : database) (pid : Z) (tk m dt' : string) :
  (forall d, In d (Deals db) -> portefeuille_id d = pid ->
             String.leb (date d) m = true) ->
  String.leb m dt' = true ->
  get_current_position db pid tk dt' = get_current_position db pid tk m.
Proof.
  intros Hdeals Hm. rewrite !get_current_position_total. f_equal. f_equal.
  unfold position_rows. apply flat_map_ext_In. intros d Hd.
  apply flat_map_ext_In. intros p _.
  destruct (Z.eqb_spec (portefeuille_id d) pid) as [Hpid|Hpid].
  - rewrite (Hdeals d Hd Hpid).
    now rewrite (leb_trans _ _ _ (Hdeals d Hd Hpid) Hm).
  - now rewrite !andb_false_r.
Qed.

(** ** The loop of [generate_transactions_for_client] *)

Lemma for_days_never_short
    (load : string -> string -> option DataFrame) (draw : string -> Z)
    (acc : tables) (strategy : string) (pid : Z) (mondays : list string) :
  (forall dt, 15 <= draw dt <= 25) ->
  StronglySorted (fun a b => String.leb a b = true) mondays ->
  forall db db',
    distinct_ids db ->
    (forall d m, In d (Deals db) -> portefeuille_id d = pid ->
                 In m mondays -> String.leb (date d) m = true) ->
    (forall tk dt', 0 <= get_current_position db pid tk dt') ->
    App.for_days load draw acc strategy pid mondays db = Ok db' ->
    (forall tk dt', 0 <= get_current_position db' pid tk dt')
    /\ Products db' = Products db
    /\ exists added,
         Deals db' = Deals db ++ added
         /\ Forall (fun t => portefeuille_id t = pid /\ In (date t) mondays)
              added.
Proof.
  intros Hdraw Hsorted.
  induction Hsorted as [|m rest Hsorted IH Hm]; intros db db' Hids Hdates Hpos;
    simpl.
  - intros [= <-]. split; [exact Hpos|]. split; [reflexivity|].
    exists []. rewrite app_nil_r. split; [reflexivity | constructor].
  - destruct (Engine.apply_strategy load (draw m) acc db strategy pid m)
      as [ds|] eqn:Hrun; cbn [bind]; [|discriminate].
    intros Hloop.
    destruct (engine_run_output load (draw m) acc db strategy pid m ds
                (Hdraw m) Hrun) as (Hsafe & Hnd & _).
    destruct (store_deals_appends m ds db) as (first & Hfirst & _ & Hcopies).
    assert (Hnew : Forall (fun t => portefeuille_id t = pid /\ date t = m) first).
    { eapply Forall_impl; [|exact Hcopies].
      intros t (Hdt & d & Hd & Hp & _). split; [|exact Hdt].
      rewrite Forall_forall in Hsafe. destruct (Hsafe d Hd) as (Hpid & _).
      congruence. }
    rewrite Forall_forall in Hm, Hnew.
    assert (Hsettled : forall d, In d (Deals (store_deals db ds m)) ->
                         portefeuille_id d = pid ->
                         String.leb (date d) m = true).
    { intros d Hd Hpid. rewrite Hfirst in Hd. apply in_app_or in Hd.
      destruct Hd as [Hd|Hd].
      - apply Hdates; [exact Hd | exact Hpid | now left].
      - destruct (Hnew d Hd) as (_ & ->). apply leb_refl. }
    destruct (IH (store_deals db ds m) db') as (Hpos' & HP & added & Hadd & Hall).
    + unfold distinct_ids. now rewrite store_deals_Products.
    + intros d m' Hd Hpid Hm'.
      apply leb_trans with m; [now apply Hsettled | now apply Hm].
    + intros tk dt'. destruct (String.leb m dt') eqn:Hcmp.
      * rewrite (position_settled _ pid tk m dt' Hsettled Hcmp).
        apply safe_run_keeps_positions; auto.
      * rewrite store_deals_before by exact Hcmp. apply Hpos.
    + exact Hloop.
    + split; [exact Hpos'|]. split; [now rewrite HP, store_deals_Products|].
      exists (first ++ added). split; [now rewrite Hadd, Hfirst, app_assoc|].
      apply Forall_app. split.
      * apply Forall_forall. intros t Ht. destruct (Hnew t Ht) as (Hp & Hd).
        split; [exact Hp | left; now rewrite Hd].
      * eapply Forall_impl; [|exact Hall]. intros t (Hp & Hd).
        split; [exact Hp | now right].
Qed.

(** ** The deletion of a period *)

Lemma latest_before (dates : list string) (start : string) :
  (forall x, In x dates -> String.leb start x = true)
  \/ (exists s,
        In s dates /\ String.leb start s = false
        /\ forall x, In x dates -> String.leb start x = false ->
                     String.leb x s = true).
Proof.
  induction dates as [|x dates IH]; [left; intros x []|].
  destruct (String.leb start x) eqn:Hx.
  - destruct IH as [IH|(s & Hs & Hlt & Hmax)].
    + left. intros y [<-|Hy]; [exact Hx | now apply IH].
    + right. exists s. split; [now right|]. split; [exact Hlt|].
      intros y [<-|Hy] Hy'; [congruence | now apply Hmax].
  - right. destruct IH as [IH|(s & Hs & Hlt & Hmax)].
    + exists x. split; [now left|]. split; [exact Hx|].
      intros y [<-|Hy] Hy'; [apply leb_refl|].
      rewrite (IH y Hy) in Hy'. discriminate.
    + destruct (String.leb x s) eqn:Hxs.
      * exists s. split; [now right|]. split; [exact Hlt|].
        intros y [<-|Hy] Hy'; [exact Hxs | now apply Hmax].
      * exists x. split; [now left|]. split; [exact Hx|].
        intros y [<-|Hy] Hy'; [apply leb_refl|].
        apply leb_trans with s; [now apply Hmax | now apply leb_false_flip].
Qed.

Lemma flat_map_filter {A B : Type} (f : A -> list B) (keep : A -> bool)
    (l : list A) :
  flat_map f (filter keep l)
  = flat_map (fun x => if keep x then f x else []) l.
Proof.
  induction l as [|x l IH]; simpl; [reflexivity|].
  destruct (keep x); simpl; now rewrite IH.
Qed.

Lemma other_portfolio_not_joined (d : deal) pid tk dt (ps : list product) :
  portefeuille_id d <> pid ->
  flat_map (fun p =>
              if (produit_id d =? p_id p) && (portefeuille_id d =? pid)
                 && String.eqb (ticker p) tk && String.leb (date d) dt
              then [d] else []) ps
  = [].
Proof.
  intros H. apply flat_map_nil. intros p _.
  destruct (Z.eqb_spec (portefeuille_id d) pid); [contradiction|].
  now rewrite andb_false_r.
Qed.

Lemma delete_deals_never_short (db : database) (pid : Z)
    (start_date end_date : string) :
  (forall d, In d (Deals db) -> portefeuille_id d = pid ->
             String.leb (date d) end_date = true) ->
  (forall tk dt', 0 <= get_current_position db pid tk dt') ->
  forall tk dt',
    0 <= get_current_position
           (Engine.delete_deals db pid start_date end_date) pid tk dt'.
Proof.
  intros Hend Hpos tk dt'.
  set (keep := fun d : deal =>
                 negb ((portefeuille_id d =? pid)
                       && String.leb start_date (date d)
                       && String.leb (date d) end_date)).
  assert (Hrows : forall dt,
            position_rows (Engine.delete_deals db pid start_date end_date)
              pid tk dt
            = flat_map (fun d =>
                          if keep d
                          then flat_map (fun p =>
                                 if (produit_id d =? p_id p)
                                    && (portefeuille_id d =? pid)
                                    && String.eqb (ticker p) tk
                                    && String.leb (date d) dt
                                 then [d] else []) (Products db)
                          else [])
                (Deals db)).
  { intros dt. unfold position_rows, Engine.delete_deals. simpl.
    apply flat_map_filter. }
  assert (Hkeep : forall d, In d (Deals db) -> portefeuille_id d = pid ->
            keep d = negb (String.leb start_date (date d))).
  { intros d Hd Hp. unfold keep.
    rewrite (Hend d Hd Hp), Hp, Z.eqb_refl. now rewrite andb_true_r. }
  assert (Hother : forall d, portefeuille_id d <> pid -> keep d = true).
  { intros d Hp. unfold keep.
    destruct (Z.eqb_spec (portefeuille_id d) pid); [contradiction | reflexivity]. }
  destruct (String.leb start_date dt') eqn:Hcmp.
  - destruct (latest_before (map date (Deals db)) start_date)
      as [Hnone|(s & Hs & Hlt & Hmax)].
    + rewrite get_current_position_total, Hrows.
      rewrite flat_map_nil; [simpl; lia|].
      intros d Hd.
      destruct (Z.eq_dec (portefeuille_id d) pid) as [Hp|Hp].
      * rewrite (Hkeep d Hd Hp), (Hnone (date d)) by now apply in_map.
        reflexivity.
      * rewrite (Hother d Hp). now apply other_portfolio_not_joined.
    + specialize (Hpos tk s).
      rewrite get_current_position_total in *. rewrite Hrows.
      replace (flat_map _ (Deals db)) with (position_rows db pid tk s);
        [exact Hpos|].
      unfold position_rows. apply flat_map_ext_In. intros d Hd.
      destruct (Z.eq_dec (portefeuille_id d) pid) as [Hp|Hp].
      * rewrite (Hkeep d Hd Hp).
        destruct (String.leb start_date (date d)) eqn:Hd'; simpl.
        -- apply deal_after_not_joined.
           destruct (String.leb (date d) s) eqn:Hds; [|reflexivity].
           rewrite (leb_trans _ _ _ Hd' Hds) in Hlt. discriminate.
        -- apply flat_map_ext_In. intros p _.
           rewrite (Hmax (date d)) by (auto using in_map).
           rewrite (leb_trans _ _ _ (leb_false_flip _ _ Hd') Hcmp).
           reflexivity.
      * rewrite (Hother d Hp).
        rewrite !other_portfolio_not_joined by exact Hp. reflexivity.
  - specialize (Hpos tk dt').
    rewrite get_current_position_total in *. rewrite Hrows.
    replace (flat_map _ (Deals db)) with (position_rows db pid tk dt');
      [exact Hpos|].
    unfold position_rows. apply flat_map_ext_In. intros d Hd.
    destruct (Z.eq_dec (portefeuille_id d) pid) as [Hp|Hp].
    + rewrite (Hkeep d Hd Hp).
      destruct (String.leb start_date (date d)) eqn:Hd'; simpl; [|reflexivity].
      apply deal_after_not_joined.
      destruct (String.leb (date d) dt') eqn:Hdd; [|reflexivity].
      rewrite (leb_trans _ _ _ Hd' Hdd) in Hcmp. discriminate.
    + now rewrite (Hother d Hp).
Qed.

Lemma delete_deals_before_start (db : database) (pid : Z)
    (start_date end_date : string) (d : deal) :
  (forall d, In d (Deals db) -> portefeuille_id d = pid ->
             String.leb (date d) end_date = true) ->
  In d (Deals (Engine.delete_deals db pid start_date end_date)) ->
  portefeuille_id d = pid ->
  String.leb start_date (date d) = false.
Proof.
  intros Hend Hd Hp. unfold Engine.delete_deals in Hd. simpl in Hd.
  apply filter_In in Hd. destruct Hd as [Hd Hk].
  rewrite (Hend d Hd Hp), Hp, Z.eqb_refl in Hk. simpl in Hk.
  rewrite andb_true_r in Hk. now apply negb_true_iff in Hk.
Qed.

Lemma delete_deals_others (db : database) (pid : Z)
    (start_date end_date : string) :
  filter (fun d => negb (portefeuille_id d =? pid))
    (Deals (Engine.delete_deals db pid start_date end_date))
  = filter (fun d => negb (portefeuille_id d =? pid)) (Deals db).
Proof.
  unfold Engine.delete_deals. simpl.
  induction (Deals db) as [|d ds IH]; simpl; [reflexivity|].
  destruct (Z.eqb_spec (portefeuille_id d) pid) as [Hp|Hp]; simpl.
  - destruct (negb _); simpl; [|exact IH].
    destruct (Z.eqb_spec (portefeuille_id d) pid); [exact IH | contradiction].
  - destruct (Z.eqb_spec (portefeuille_id d) pid); [contradiction|].
    simpl. now rewrite IH.
Qed.

(** [generate_transactions_for_client] runs the Mondays of the period in
    chronological order on a ledger cleared of the deals of the period, so
    it never leaves the portfolio short: when no deal of the client's
    portfolio is dated after the period and no position of the portfolio
    was negative on any date, no position of it is negative on any date
    afterwards.  The deals of the other portfolios and the catalogue are
    left as they are, and the holdings are rebuilt from the final ledger. *)
Theorem generate_transactions_never_short
    (load : string -> string -> option DataFrame) (draw : string -> Z)
    (acc acc' : tables) (db db' : database) (client_id : Z)
    (start_date end_date : string) (mondays : list string)
    (pid : Z) (strategy : string) :
  (forall dt, 15 <= draw dt <= 25) ->
  distinct_ids db ->
  StronglySorted (fun a b => String.leb a b = true) mondays ->
  Forall (fun m => String.leb start_date m = true) mondays ->
  App.portfolio_of_client acc client_id = Some (pid, strategy) ->
  (forall d, In d (Deals db) -> portefeuille_id d = pid ->
             String.leb (date d) end_date = true) ->
  (forall tk dt, 0 <= get_current_position db pid tk dt) ->
  App.generate_transactions_for_client load draw acc db client_id
    start_date end_date mondays = Ok (acc', db') ->
  (forall tk dt, 0 <= get_current_position db' pid tk dt)
  /\ filter (fun d => negb (portefeuille_id d =? pid)) (Deals db')
     = filter (fun d => negb (portefeuille_id d =? pid)) (Deals db)
  /\ Products db' = Products db
  /\ acc' = update_portfolios acc db'.
Proof.
  intros Hdraw Hids Hsorted Hstart Hclient Hend Hpos.
  unfold App.generate_transactions_for_client. rewrite Hclient.
  set (db1 := Engine.delete_deals db pid start_date end_date).
  destruct (App.for_days load draw acc strategy pid mondays db1)
    as [db2|] eqn:Hloop; cbn [bind]; [|discriminate].
  intros [= <- <-].
  destruct (for_days_never_short load draw acc strategy pid mondays Hdraw
              Hsorted db1 db2)
    as (Hpos' & HP & added & Hadd & Hall).
  - exact Hids.
  - intros d m Hd Hp Hm.
    pose proof (delete_deals_before_start db pid start_date end_date d
                  Hend Hd Hp) as Hbefore.
    rewrite Forall_forall in Hstart.
    apply leb_trans with start_date;
      [now apply leb_false_flip | now apply Hstart].
  - now apply delete_deals_never_short.
  - exact Hloop.
  - split; [exact Hpos'|]. split; [|split; [exact HP | reflexivity]].
    rewrite Hadd, filter_app.
    replace (filter _ added) with (@nil deal).
    + rewrite app_nil_r. apply delete_deals_others.
    + symmetry. clear Hadd.
      induction Hall as [|t added (Hp & _) _ IH]; simpl; [reflexivity|].
      rewrite Hp, Z.eqb_refl. exact IH.
Qed.

(** The client of [Fund] holding 20 AAPL, over three Mondays of a falling
    market: 15 are sold, then the 5 left, then nothing. *)
Lemma generate_transactions_never_short_witness :
  App.generate_transactions_for_client Fund.frames (fun _ => 20) Fund.accounts
    Scenario.holding_20 1 "2024-01-08" "2024-01-22" Scenario.three_mondays
  = Ok (update_portfolios Fund.accounts Fund.sold_out, Fund.sold_out)
  /\ 0 <= get_current_position Fund.sold_out 1 "AAPL" "2024-01-22".
Proof.
  assert (Hrun :
    App.generate_transactions_for_client Fund.frames (fun _ => 20)
      Fund.accounts Scenario.holding_20 1 "2024-01-08" "2024-01-22"
      Scenario.three_mondays
    = Ok (update_portfolios Fund.accounts Fund.sold_out, Fund.sold_out))
    by (vm_compute; reflexivity).
  split; [exact Hrun|].
  destruct (generate_transactions_never_short Fund.frames (fun _ => 20)
              Fund.accounts (update_portfolios Fund.accounts Fund.sold_out)
              Scenario.holding_20 Fund.sold_out 1
              "2024-01-08" "2024-01-22" Scenario.three_mondays
              1 "High yield equity")
    as (Hpos & _).
  - intros dt. lia.
  - unfold distinct_ids; simpl. repeat constructor; simpl; intuition discriminate.
  - repeat constructor.
  - repeat constructor.
  - reflexivity.
  - intros d [<-|[]] _. reflexivity.
  - intros tk dt. unfold get_current_position, position_rows.
    cbn -[String.eqb String.leb].
    destruct (String.eqb "AAPL" tk); destruct (String.leb "2024-01-01" dt);
      cbn; lia.
  - exact Hrun.
  - apply Hpos.
Defined.

(** ** The loop of [BaseUpdater.store_deals] *)

(** [BaseUpdater.store_deals] runs the Mondays the newest first, and the run
    of a Monday does not see the deals already stored for the Mondays after
    it: it does not keep positions from going negative.  There is a fund
    whose positions are not negative on any date, five units held in a
    falling market, that a run over four Mondays leaves short. *)
Theorem newest_first_run_can_go_short :
  exists (load : string -> string -> option DataFrame) (draw : string -> Z -> Z)
         (acc : tables) (db : database) (mondays : list string)
         (db' : database),
    (forall dt pid, 15 <= draw dt pid <= 25)
    /\ distinct_ids db
    /\ NoDup (map po_id (Portfolios acc))
    /\ NoDup (map c_id (Clients acc))
    /\ StronglySorted (fun a b => String.ltb b a = true) mondays
    /\ (forall pid tk dt, 0 <= get_current_position db pid tk dt)
    /\ BaseUpdater.store_deals load draw acc db mondays = Ok db'
    /\ exists pid tk dt, get_current_position db' pid tk dt < 0.
Proof.
  exists Fund.frames, (fun _ _ => 20), Fund.accounts, Fund.holding_5,
    Fund.four_mondays.
  eexists.
  split; [intros dt pid; lia|].
  split; [unfold distinct_ids; simpl; repeat constructor; simpl;
          intuition discriminate|].
  split; [simpl; repeat constructor; simpl; intuition|].
  split; [simpl; repeat constructor; simpl; intuition|].
  split; [repeat constructor|].
  split.
  { intros pid tk dt. unfold get_current_position, position_rows.
    cbn -[String.eqb String.leb Z.eqb].
    destruct (1 =? pid); destruct (String.eqb "AAPL" tk);
      destruct (String.leb "2024-01-01" dt); cbn; lia. }
  split; [vm_compute; reflexivity|].
  exists 1, "AAPL"%string, "2024-01-29"%string. vm_compute. reflexivity.
Qed.

Lemma distinct_In (rows : list (Z * string)) (row : Z * string) :
  In row (BaseUpdater.distinct rows) -> In row rows.
Proof.
  induction rows as [|r rows IH]; simpl; [auto|].
  intros [->|Hin]; [now left|]. right. apply IH.
  apply filter_In in Hin. apply Hin.
Qed.

Lemma appended_after (db db' : database) (added : list deal)
    (pid : Z) (tk dt' : string) :
  Products db' = Products db ->
  Deals db' = Deals db ++ added ->
  Forall (fun t => String.leb (date t) dt' = false) added ->
  get_current_position db' pid tk dt' = get_current_position db pid tk dt'.
Proof.
  intros HP Hadd Hafter. rewrite !get_current_position_total. f_equal. f_equal.
  unfold position_rows at 1. rewrite HP, Hadd, flat_map_app.
  fold (position_rows db pid tk dt').
  rewrite <- (app_nil_r (position_rows db pid tk dt')) at 2. f_equal.
  apply flat_map_nil. intros t Ht. rewrite Forall_forall in Hafter.
  now apply deal_after_not_joined, Hafter.
Qed.

Lemma for_portfolios_appends
    (load : string -> string -> option DataFrame) (draw : string -> Z -> Z)
    (acc : tables) (dt : string) (portfolios : list (Z * string)) :
  (forall dt pid, 15 <= draw dt pid <= 25) ->
  forall db db',
    BaseUpdater.for_portfolios load draw acc dt portfolios db = Ok db' ->
    Products db' = Products db
    /\ Returns db' = Returns db
    /\ exists added,
         Deals db' = Deals db ++ added
         /\ Forall (fun t =>
                      date t = dt
                      /\ In (portefeuille_id t) (map fst portfolios)
                      /\ 0 < quantite t)
              added.
Proof.
  intros Hdraw. induction portfolios as [|[pid strategy] rest IH];
    intros db db'; simpl.
  - intros [= <-]. split; [reflexivity|]. split; [reflexivity|].
    exists []. rewrite app_nil_r. split; [reflexivity | constructor].
  - destruct (Engine.apply_strategy load (draw dt pid) acc db strategy pid dt)
      as [ds|] eqn:Hrun; cbn [bind]; [|discriminate].
    intros Hloop.
    destruct (engine_run_output load (draw dt pid) acc db strategy pid dt ds
                (Hdraw dt pid) Hrun) as (Hsafe & _ & _).
    destruct (store_deals_appends dt ds db) as (first & Hfirst & _ & Hcopies).
    destruct (IH _ _ Hloop) as (HP & HR & added & Hadd & Hall).
    split; [now rewrite HP, store_deals_Products|].
    split; [now rewrite HR, store_deals_Returns|].
    exists (first ++ added). split; [now rewrite Hadd, Hfirst, app_assoc|].
    apply Forall_app. split.
    + eapply Forall_impl; [|exact Hcopies].
      intros t (Hdt & d & Hd & Hp & _ & Hq & _).
      rewrite Forall_forall in Hsafe. destruct (Hsafe d Hd) as (Hpid & Hpos & _).
      split; [exact Hdt|]. split; [left; congruence | congruence].
    + eapply Forall_impl; [|exact Hall]. intros t (Hdt & Hp & Hq).
      split; [exact Hdt|]. split; [now right | exact Hq].
Qed.

Lemma for_mondays_appends
    (load : string -> string -> option DataFrame) (draw : string -> Z -> Z)
    (acc : tables) (portfolios : list (Z * string)) (mondays : list string) :
  (forall dt pid, 15 <= draw dt pid <= 25) ->
  forall db db',
    BaseUpdater.for_mondays load draw acc portfolios mondays db = Ok db' ->
    Products db' = Products db
    /\ Returns db' = Returns db
    /\ exists added,
         Deals db' = Deals db ++ added
         /\ Forall (fun t =>
                      In (date t) mondays
                      /\ In (portefeuille_id t) (map fst portfolios)
                      /\ 0 < quantite t)
              added.
Proof.
  intros Hdraw. induction mondays as [|dt rest IH]; intros db db'; simpl.
  - intros [= <-]. split; [reflexivity|]. split; [reflexivity|].
    exists []. rewrite app_nil_r. split; [reflexivity | constructor].
  - destruct (BaseUpdater.for_portfolios load draw acc dt portfolios db)
      as [db1|] eqn:Hfirst; cbn [bind]; [|discriminate].
    intros Hloop.
    destruct (for_portfolios_appends load draw acc dt portfolios Hdraw _ _ Hfirst)
      as (HP1 & HR1 & first & Hadd1 & Hall1).
    destruct (IH _ _ Hloop) as (HP & HR & added & Hadd & Hall).
    split; [congruence|]. split; [congruence|].
    exists (first ++ added). split; [now rewrite Hadd, Hadd1, app_assoc|].
    apply Forall_app. split.
    + eapply Forall_impl; [|exact Hall1]. intros t (Hdt & Hp & Hq).
      split; [left; now rewrite Hdt|]. now split.
    + eapply Forall_impl; [|exact Hall]. intros t (Hdt & Hp & Hq).
      split; [now right|]. now split.
Qed.

(** A run of [BaseUpdater.store_deals] that ends only appends deals: each is
    dated one of the Mondays of the run, belongs to a portfolio that has a
    client, and has a positive quantity; the catalogue, the returns and the
    deals already there are left as they are, and so is every position as of
    a date before the Mondays of the run. *)
Theorem updater_store_deals_only_appends
    (load : string -> string -> option DataFrame) (draw : string -> Z -> Z)
    (acc : tables) (db db' : database) (mondays : list string) :
  (forall dt pid, 15 <= draw dt pid <= 25) ->
  BaseUpdater.store_deals load draw acc db mondays = Ok db' ->
  Products db' = Products db
  /\ Returns db' = Returns db
  /\ (exists added,
        Deals db' = Deals db ++ added
        /\ Forall (fun t =>
                     In (date t) mondays
                     /\ (exists po c,
                            In po (Portfolios acc) /\ In c (Clients acc)
                            /\ po_client_id po = c_id c
                            /\ po_id po = portefeuille_id t)
                     /\ 0 < quantite t)
             added)
  /\ (forall pid tk dt',
        Forall (fun m => String.leb m dt' = false) mondays ->
        get_current_position db' pid tk dt' = get_current_position db pid tk dt').
Proof.
  intros Hdraw Hrun. unfold BaseUpdater.store_deals in Hrun.
  destruct (for_mondays_appends load draw acc _ mondays Hdraw _ _ Hrun)
    as (HP & HR & added & Hadd & Hall).
  split; [exact HP|]. split; [exact HR|]. split.
  - exists added. split; [exact Hadd|].
    eapply Forall_impl; [|exact Hall]. intros t (Hdt & Hp & Hq).
    split; [exact Hdt|]. split; [|exact Hq].
    apply in_map_iff in Hp. destruct Hp as ([pid profil] & Hpid & Hrow).
    apply distinct_In in Hrow. unfold Engine.portfolios_with_profile in Hrow.
    apply in_flat_map in Hrow. destruct Hrow as (po & Hpo & Hrow).
    apply in_flat_map in Hrow. destruct Hrow as (c & Hc & Hrow).
    destruct (Z.eqb_spec (po_client_id po) (c_id c)) as [Hjoin|]; [|destruct Hrow].
    destruct Hrow as [[= Hid _]|[]]. simpl in Hpid.
    exists po, c. repeat split; auto. congruence.
  - intros pid tk dt' Hbefore.
    apply (appended_after db db' added); [exact HP | exact Hadd|].
    eapply Forall_impl; [|exact Hall]. intros t (Hdt & _).
    rewrite Forall_forall in Hbefore. now apply Hbefore.
Qed.

(** The run of [Fund] over four Mondays leaves the position as of
    1 January 2024 as it was. *)
Lemma updater_store_deals_only_appends_witness :
  exists db',
    BaseUpdater.store_deals Fund.frames (fun _ _ => 20) Fund.accounts
      Fund.holding_5 Fund.four_mondays = Ok db'
    /\ get_current_position db' 1 "AAPL" "2024-01-01"
       = get_current_position Fund.holding_5 1 "AAPL" "2024-01-01".
Proof.
  eexists. split; [vm_compute; reflexivity|].
  eapply (updater_store_deals_only_appends Fund.frames (fun _ _ => 20)
            Fund.accounts Fund.holding_5 _ Fund.four_mondays).
  - intros dt pid. lia.
  - vm_compute. reflexivity.
  - repeat constructor.
Defined.

(** * The positions query *)

(** ** [GROUP BY] keys *)

Lemma insert_key_In (k x : string) (l : list string) :
  In x (Sql.insert_key k l) <-> x = k \/ In x l.
Proof.
  induction l as [|y l IH]; simpl; [intuition|].
  destruct (String.eqb_spec k y) as [->|Hne].
  - simpl. intuition.
  - destruct (String.ltb k y); simpl; [intuition|].
    rewrite IH. intuition.
Qed.

Lemma group_keys_In (ks : list string) (x : string) :
  In x (Sql.group_keys ks) <-> In x ks.
Proof.
  induction ks as [|k ks IH]; simpl; [reflexivity|].
  rewrite insert_key_In, IH. intuition.
Qed.

Lemma ltb_trans (a b c : string) :
  String.ltb a b = true -> String.ltb b c = true -> String.ltb a c = true.
Proof.
  rewrite !ltb_lt. apply lt_trans_string.
Qed.

Lemma not_ltb_gt (k y : string) :
  k <> y -> String.ltb k y = false -> String.ltb y k = true.
Proof.
  intros Hne Hlt. apply ltb_lt. rewrite String.compare_antisym.
  destruct (String.compare k y) eqn:Hc; simpl.
  - apply String.compare_eq_iff in Hc. contradiction.
  - apply ltb_lt in Hc. congruence.
  - reflexivity.
Qed.

Lemma insert_key_sorted (k : string) (l : list string) :
  StronglySorted (fun a b => String.ltb a b = true) l ->
  StronglySorted (fun a b => String.ltb a b = true) (Sql.insert_key k l).
Proof.
  induction 1 as [|y l Hs IH Hy]; simpl; [repeat constructor|].
  destruct (String.eqb_spec k y) as [->|Hne]; [now constructor|].
  destruct (String.ltb k y) eqn:Hlt.
  - constructor; [now constructor|].
    constructor; [exact Hlt|].
    eapply Forall_impl; [|exact Hy]. intros z Hz. now apply ltb_trans with y.
  - constructor; [exact IH|].
    apply Forall_forall. intros z Hz. apply insert_key_In in Hz.
    destruct Hz as [->|Hz]; [now apply not_ltb_gt|].
    rewrite Forall_forall in Hy. now apply Hy.
Qed.

Lemma group_keys_sorted (ks : list string) :
  StronglySorted (fun a b => String.ltb a b = true) (Sql.group_keys ks).
Proof.
  induction ks as [|k ks IH]; simpl; [constructor|].
  now apply insert_key_sorted.
Qed.

(** One row at most per key, carrying the key: the rows come out in the
    order of the keys. *)
Lemma rows_by_key_sorted {A : Type} (key : A -> string)
    (f : string -> list A) (keys : list string) :
  (forall k, f k = [] \/ exists x, f k = [x] /\ key x = k) ->
  StronglySorted (fun a b => String.ltb a b = true) keys ->
  StronglySorted (fun a b => String.ltb a b = true)
    (map key (flat_map f keys)).
Proof.
  intros Hf. induction 1 as [|k keys Hs IH Hk]; simpl; [constructor|].
  destruct (Hf k) as [->|(x & -> & Hx)]; [exact IH|].
  simpl. constructor; [exact IH|].
  apply Forall_forall. intros y Hy. apply in_map_iff in Hy.
  destruct Hy as (z & <- & Hz). apply in_flat_map in Hz.
  destruct Hz as (k' & Hk' & Hz).
  rewrite Forall_forall in Hk. rewrite Hx.
  destruct (Hf k') as [E|(x' & E & Hx')]; rewrite E in Hz; [destruct Hz|].
  destruct Hz as [<-|[]]. rewrite Hx'. now apply Hk.
Qed.

(** ** The rows of [DailyPositions] *)

Lemma joined_In (db : database) (pid : Z) (dt : string) (d : deal)
    (p : product) :
  In (d, p) (joined db pid dt) <->
  In d (Deals db) /\ In p (Products db) /\ produit_id d = p_id p
  /\ portefeuille_id d = pid /\ String.leb (date d) dt = true.
Proof.
  unfold joined. rewrite in_flat_map. split.
  - intros (d' & Hd' & Hin). apply in_flat_map in Hin.
    destruct Hin as (p' & Hp' & Hin).
    destruct (_ && _) eqn:Hc in Hin; [|destruct Hin].
    destruct Hin as [[= <- <-]|[]].
    rewrite !andb_true_iff, !Z.eqb_eq in Hc.
    destruct Hc as ((Hid & Hpid) & Hdt). auto.
  - intros (Hd & Hp & Hid & Hpid & Hdt). exists d. split; [exact Hd|].
    apply in_flat_map. exists p. split; [exact Hp|].
    rewrite Hid, Hpid, !Z.eqb_refl, Hdt. now left.
Qed.

Lemma same_ticker_same_product (ps : list product) (a b : product) :
  NoDup (map ticker ps) -> In a ps -> In b ps -> ticker a = ticker b -> a = b.
Proof.
  induction ps as [|p ps IH]; simpl; intros Hnd Ha Hb Heq; [destruct Ha|].
  inversion Hnd as [|? ? Hnotin Hnd']; subst.
  destruct Ha as [->|Ha], Hb as [->|Hb]; auto.
  - exfalso. apply Hnotin. rewrite Heq. now apply in_map.
  - exfalso. apply Hnotin. rewrite <- Heq. now apply in_map.
Qed.

Lemma filter_flat_map {A B : Type} (g : B -> bool) (h : A -> list B)
    (l : list A) :
  filter g (flat_map h l) = flat_map (fun x => filter g (h x)) l.
Proof.
  induction l as [|x l IH]; simpl; [reflexivity|].
  now rewrite filter_app, IH.
Qed.

Lemma map_flat_map {A B C : Type} (f : B -> C) (h : A -> list B)
    (l : list A) :
  map f (flat_map h l) = flat_map (fun x => map f (h x)) l.
Proof.
  induction l as [|x l IH]; simpl; [reflexivity|].
  now rewrite map_app, IH.
Qed.

(** The running position of a row is the position of the portfolio on the
    ticker of the row as of the date of the row. *)
Lemma window_position (db : database) (pid : Z) (dt : string) (d : deal)
    (p : product) :
  distinct_ids db -> unique_tickers db ->
  In (d, p) (joined db pid dt) ->
  window_sum (joined db pid dt) (d, p)
  = get_current_position db pid (ticker p) (date d).
Proof.
  intros Hids Htk Hin. apply joined_In in Hin.
  destruct Hin as (Hd & Hp & Hid & Hpid & Hdt).
  rewrite get_current_position_total. unfold window_sum, Spec.total. f_equal.
  unfold joined, position_rows.
  rewrite filter_flat_map, !map_flat_map.
  apply flat_map_ext_In. intros d' Hd'.
  rewrite filter_flat_map, !map_flat_map.
  apply flat_map_ext_In. intros p' Hp'.
  cbn [fst].
  assert (Hsame : (produit_id d' =? p_id p') = true ->
                  (produit_id d' =? produit_id d)
                  = String.eqb (ticker p') (ticker p)).
  { intros E. apply Z.eqb_eq in E. apply Bool.eq_iff_eq_true.
    rewrite Z.eqb_eq, String.eqb_eq. split; intros H.
    - f_equal. apply (same_id_same_product (Products db)); auto. congruence.
    - assert (p' = p)
        by (apply (same_ticker_same_product (Products db)); auto).
      congruence. }
  destruct (produit_id d' =? p_id p') eqn:E1; [|reflexivity].
  specialize (Hsame eq_refl).
  destruct (portefeuille_id d' =? pid); [|reflexivity].
  cbn [andb].
  destruct (String.leb (date d') (date d)) eqn:E3.
  - rewrite (leb_trans _ _ _ E3 Hdt). cbn [filter fst].
    rewrite Hsame, E3, andb_true_r.
    destruct (String.eqb (ticker p') (ticker p)); cbn [map];
      [now rewrite case_delta_else | reflexivity].
  - rewrite andb_false_r.
    destruct (String.leb (date d') dt); cbn [filter fst map];
      [now rewrite E3, andb_false_r | reflexivity].
Qed.

Lemma filter_both {A : Type} (f g : A -> bool) (l : list A) :
  filter f (filter g l) = filter (fun x => f x && g x) l.
Proof.
  induction l as [|x l IH]; simpl; [reflexivity|].
  destruct (g x); simpl; [|now rewrite andb_false_r].
  rewrite andb_true_r. destruct (f x); now rewrite IH.
Qed.

Section PositionsFacts.
Variable db : database.
Variable pid : Z.
Variable dt : string.

Let J := joined db pid dt.
Let rows :=
  filter (fun r => String.leb (dp_date r) dt) (DailyPositions db pid dt).
Let le := fun a b : daily_position => String.leb (dp_date a) (dp_date b).

Lemma le_date_total (x y : daily_position) : le x y = false -> le y x = true.
Proof. apply leb_false_flip. Qed.

Lemma le_date_trans (x y z : daily_position) :
  le x y = true -> le y z = true -> le x z = true.
Proof. apply leb_trans. Qed.

Lemma rows_In (r : daily_position) :
  In r rows <-> exists dp, In dp J /\ r = daily_row J dp.
Proof.
  unfold rows, DailyPositions. fold J. cbv zeta.
  change (map _ J) with (map (daily_row J) J).
  rewrite filter_In, order_by_In, in_map_iff.
  split.
  - intros ((dp & <- & Hdp) & _). now exists dp.
  - intros (dp & Hdp & ->). split; [now exists dp|].
    destruct dp as [d p]. apply joined_In in Hdp. simpl. apply Hdp.
Qed.

Lemma group_head (k : string) (r : daily_position)
    (rest : list daily_position) :
  filter (fun r => String.eqb (dp_ticker r) k) rows = r :: rest ->
  In r rows /\ dp_ticker r = k
  /\ forall x, In x rows -> dp_ticker x = k ->
               String.leb (dp_date r) (dp_date x) = true.
Proof.
  intros Hgroup.
  assert (Hr : In r (filter (fun r => String.eqb (dp_ticker r) k) rows))
    by (rewrite Hgroup; now left).
  apply filter_In in Hr. destruct Hr as [Hr Hk]. apply String.eqb_eq in Hk.
  split; [exact Hr|]. split; [exact Hk|].
  intros x Hx Hxk.
  unfold rows in Hgroup, Hx. rewrite filter_both in Hgroup.
  unfold DailyPositions in Hgroup, Hx. cbv zeta in Hgroup, Hx.
  destruct (first_of_sorted _ le_date_total le_date_trans _ _ _ _
              (fun x => leb_refl _) Hgroup) as (_ & _ & Hfirst).
  apply filter_In in Hx. destruct Hx as [Hx Hdt].
  apply order_by_In in Hx.
  apply (Hfirst x Hx).
  rewrite Hdt, andb_true_r. now apply String.eqb_eq.
Qed.

End PositionsFacts.

(** With distinct product ids and distinct tickers,
    [get_portfolio_positions] lists, in ascending order of ticker and once
    each, the tickers the portfolio has traded on or before the date and
    whose position as of the date of its first trade on the ticker is
    positive, with that position as quantity: not the position as of the
    date asked for. *)
Theorem portfolio_positions_are_as_of_first_trade (db : database) (pid : Z)
    (dt : string) :
  distinct_ids db ->
  unique_tickers db ->
  StronglySorted (fun a b => String.ltb a b = true)
    (map (fun row => fst (fst row)) (get_portfolio_positions db pid dt))
  /\ forall tk ty q,
       In (tk, ty, q) (get_portfolio_positions db pid dt) <->
       0 < q
       /\ exists pr d,
            In pr (Products db) /\ ticker pr = tk /\ p_type pr = ty
            /\ first_trade db pid pr d
            /\ String.leb (date d) dt = true
            /\ q = get_current_position db pid tk (date d).
Proof.
  intros Hids Htk.
  unfold get_portfolio_positions, positions_query, first_row. cbv zeta.
  set (rows := filter (fun r => String.leb (dp_date r) dt)
                 (DailyPositions db pid dt)).
  set (F := fun k : string =>
              match hd_error (filter (fun r => String.eqb (dp_ticker r) k) rows)
              with
              | Some r =>
                  if 0 <? running_position r
                  then [(dp_ticker r, dp_type r, running_position r)]
                  else []
              | None => []
              end).
  assert (Hrow : forall r, In r rows ->
            exists d p,
              In (d, p) (joined db pid dt)
              /\ dp_ticker r = ticker p /\ dp_type r = p_type p
              /\ dp_date r = date d
              /\ running_position r
                 = get_current_position db pid (ticker p) (date d)).
  { intros r Hr. apply rows_In in Hr. destruct Hr as ([d p] & Hdp & ->).
    exists d, p. split; [exact Hdp|]. repeat split.
    simpl. now apply window_position. }
  split.
  - apply (rows_by_key_sorted (fun row : string * asset_type * Z => fst (fst row)) F);
      [|apply group_keys_sorted].
    intros k. unfold F.
    destruct (filter _ rows) as [|r rest] eqn:Hgroup; simpl; [now left|].
    destruct (0 <? running_position r); [|now left].
    right. eexists. split; [reflexivity|]. simpl.
    now destruct (group_head db pid dt k r rest Hgroup) as (_ & Hk & _).
  - intros tk ty q. rewrite in_flat_map. split.
    + intros (k & _ & Hin). unfold F in Hin.
      destruct (filter _ rows) as [|r rest] eqn:Hgroup; simpl in Hin;
        [destruct Hin|].
      destruct (0 <? running_position r) eqn:Hq; [|destruct Hin].
      destruct Hin as [[= <- <- <-]|[]]. apply Z.ltb_lt in Hq.
      destruct (group_head db pid dt k r rest Hgroup) as (Hr & Hk & Hmin).
      destruct (Hrow r Hr) as (d & p & Hdp & Ht & Hty & Hdate & Hrun).
      split; [exact Hq|].
      pose proof (proj1 (joined_In db pid dt d p) Hdp)
        as (Hd & Hp & Hid & Hpid & Hdt).
      exists p, d. split; [exact Hp|]. split; [now rewrite Ht|].
      split; [now rewrite Hty|]. split; [|split; [exact Hdt|]].
      * split; [exact Hd|]. split; [exact Hid|]. split; [exact Hpid|].
        intros d' Hd' Hid' Hpid'.
        destruct (String.leb (date d') dt) eqn:Hdt'.
        -- rewrite <- Hdate.
           apply (Hmin (daily_row (joined db pid dt) (d', p))).
           ++ apply rows_In. exists (d', p). split; [|reflexivity].
              apply joined_In. auto.
           ++ simpl. congruence.
        -- apply leb_trans with dt; [exact Hdt | now apply leb_false_flip].
      * now rewrite Hrun, Ht.
    + intros (Hq & pr & d & Hpr & Ht & Hty & Hfirst & Hdt & Hpos).
      destruct Hfirst as (Hd & Hid & Hpid & Hearliest).
      assert (Hx : In (daily_row (joined db pid dt) (d, pr)) rows).
      { apply rows_In. exists (d, pr). split; [|reflexivity].
        apply joined_In. auto. }
      exists tk. split.
      { apply group_keys_In. apply in_map_iff.
        exists (daily_row (joined db pid dt) (d, pr)). now split. }
      unfold F.
      destruct (filter _ rows) as [|r rest] eqn:Hgroup.
      { exfalso.
        assert (Hin : In (daily_row (joined db pid dt) (d, pr))
                        (filter (fun r => String.eqb (dp_ticker r) tk) rows)).
        { apply filter_In. split; [exact Hx|]. simpl. now apply String.eqb_eq. }
        rewrite Hgroup in Hin. destruct Hin. }
      destruct (group_head db pid dt tk r rest Hgroup) as (Hr & Hk & Hmin).
      destruct (Hrow r Hr) as (d0 & p0 & Hdp0 & Ht0 & Hty0 & Hdate0 & Hrun0).
      pose proof (proj1 (joined_In db pid dt d0 p0) Hdp0)
        as (Hd0 & Hp0 & Hid0 & Hpid0 & Hdt0).
      assert (Hsame : p0 = pr).
      { apply (same_ticker_same_product (Products db)); auto. congruence. }
      subst p0.
      assert (Hdates : date d0 = date d).
      { apply String.leb_antisym.
        - rewrite <- Hdate0.
          now apply (Hmin (daily_row (joined db pid dt) (d, pr)) Hx).
        - now apply Hearliest. }
      simpl. rewrite Hrun0, Hdates, Ht, <- Hpos.
      destruct (Z.ltb_spec 0 q) as [_|]; [|lia].
      left. now rewrite Ht0, Hty0, Ht, Hty.
Qed.

(** On the round trip of [Scenario]: AAPL is listed with the position as of
    its first trade. *)
Lemma portfolio_positions_are_as_of_first_trade_witness :
  exists pr d,
    first_trade Scenario.round_trip 1 pr d
    /\ 10 = get_current_position Scenario.round_trip 1 "AAPL" (date d).
Proof.
  destruct (portfolio_positions_are_as_of_first_trade Scenario.round_trip 1
              "2024-01-08")
    as (_ & Hrows).
  - unfold distinct_ids; simpl. repeat constructor; simpl; intuition.
  - unfold unique_tickers; simpl. repeat constructor; simpl; intuition.
  - destruct (proj1 (Hrows "AAPL"%string Stock 10))
      as (_ & pr & d & _ & _ & _ & Hfirst & _ & Hq).
    + vm_compute. left. reflexivity.
    + exists pr, d. now split.
Defined.

(** * The frames a run reads *)

Lemma get_market_data_get (load : string -> string -> option DataFrame)
    (dt : string) (tk : string) (tickers : list string) :
  forall md,
    Dict.get String.eqb tk
      (fold_left (fun market_data t =>
                    match load t dt with
                    | Some df => Dict.set String.eqb t df market_data
                    | None => market_data
                    end) tickers md)
    = if existsb (String.eqb tk) tickers
      then match load tk dt with
           | Some df => Some df
           | None => Dict.get String.eqb tk md
           end
      else Dict.get String.eqb tk md.
Proof.
  induction tickers as [|t tickers IH]; intros md; simpl; [reflexivity|].
  rewrite IH.
  assert (Hset : forall df,
             Dict.get String.eqb tk (Dict.set String.eqb t df md)
             = if String.eqb tk t then Some df else Dict.get String.eqb tk md)
    by (intros df; apply dict_get_set, String.eqb_eq).
  destruct (String.eqb_spec tk t) as [->|Hne]; simpl.
  - destruct (load t dt) as [df|] eqn:Hload.
    + now destruct (existsb (String.eqb t) tickers).
    + now destruct (existsb (String.eqb t) tickers).
  - destruct (load t dt) as [df|]; [|reflexivity].
    rewrite Hset. destruct (String.eqb_spec tk t); [contradiction|].
    reflexivity.
Qed.

(** The dict [get_market_data] returns holds, under each ticker of the list
    for which a frame could be loaded, that frame, and nothing under any
    other key; no key occurs twice, whatever the repetitions of the list. *)
Theorem market_data_holds_loaded_frames
    (load : string -> string -> option DataFrame) (tickers : list string)
    (dt : string) :
  NoDup (map fst (Engine.get_market_data load tickers dt))
  /\ forall tk,
       Dict.get String.eqb tk (Engine.get_market_data load tickers dt)
       = if existsb (String.eqb tk) tickers then load tk dt else None.
Proof.
  split; [apply get_market_data_dict|].
  intros tk. unfold Engine.get_market_data. rewrite get_market_data_get.
  simpl. destruct (existsb (String.eqb tk) tickers); [|reflexivity].
  now destruct (load tk dt).
Qed.

(** * The initial data *)

Lemma all_distinct_NoDup {A : Type} (eqb : A -> A -> bool) (l : list A) :
  (forall a b, a = b -> eqb a b = true) ->
  all_distinct eqb l = true -> NoDup l.
Proof.
  intros Heqb. induction l as [|x l IH]; simpl; [constructor|].
  intros H. apply andb_true_iff in H. destruct H as [Hx Hl].
  constructor; [|now apply IH].
  intros Hin. apply negb_true_iff in Hx.
  assert (existsb (eqb x) l = true); [|congruence].
  apply existsb_exists. exists x. split; [exact Hin | now apply Heqb].
Qed.

(** The data [populate_initial_data] inserts into empty tables meet the
    constraints of the schema, so that no insertion fails: the tickers of
    the products are distinct and each profile is one of the three the
    [CHECK] admits; the ids are distinct.  Every portfolio is joined to its
    client, and gets from [get_products_by_strategy], for the profile of the
    client, all the assets attributed to that profile: each is a ticker of
    the catalogue of a type the strategy admits. *)
Theorem initial_data_feed_every_policy :
  let acc := fst DatabaseManager.populate_initial_data in
  let db := snd DatabaseManager.populate_initial_data in
  distinct_ids db
  /\ unique_tickers db
  /\ NoDup (map c_id (Clients acc))
  /\ NoDup (map po_id (Portfolios acc))
  /\ Forall (fun c =>
               In (profil_risque c)
                 ["Low risk"; "Low turnover"; "High yield equity"]%string)
       (Clients acc)
  /\ Engine.portfolios_with_profile acc
     = map (fun c => (c_id c, profil_risque c)) (Clients acc)
  /\ Forall (fun row =>
               Engine.get_products_by_strategy acc db (snd row) (fst row)
               = DatabaseManager.assets (snd row))
       (Engine.portfolios_with_profile acc).
Proof.
  intros acc db.
  split; [apply (all_distinct_NoDup Z.eqb);
          [intros a b ->; apply Z.eqb_refl | vm_compute; reflexivity]|].
  split; [apply (all_distinct_NoDup String.eqb);
          [intros a b ->; apply String.eqb_refl | vm_compute; reflexivity]|].
  split; [apply (all_distinct_NoDup Z.eqb);
          [intros a b ->; apply Z.eqb_refl | vm_compute; reflexivity]|].
  split; [apply (all_distinct_NoDup Z.eqb);
          [intros a b ->; apply Z.eqb_refl | vm_compute; reflexivity]|].
  split.
  { apply Forall_forall. intros c Hc. vm_compute in Hc.
    destruct Hc as [<-|[<-|[<-|[]]]]; simpl; auto. }
  split; [vm_compute; reflexivity|].
  repeat constructor; vm_compute; reflexivity.
Qed.

(** * Selling within the position *)



